(** * AppAWS: the ingestion-to-broadcast pipeline and the client socket hook

    A shallow embedding of
    - [backend/src/services/udpService.js]   (datagram listener, validator,
      self-test datagram),
    - [backend/src/models/locationModel.js]  ([create], the read queries,
      the pruning),
    - [backend/src/controllers/locationController.js] ([createLocation],
      the HTTP handlers),
    - [backend/src/services/socketService.js] (registry, broadcast, reaper,
      custom messages, statistics),
    - [backend/src/middleware/corsMiddleware.js] (the two origin policies),
    - [frontend/src/hooks/useSocket.js]      (the client hook),
    - [frontend/src/App.jsx]                 ([useLocationTracker], the
      choice of screen),
    followed by the properties proved about them. *)

From Stdlib Require Import ZArith QArith Qround Qpower Lqa String List Lia Bool Sorted Permutation.
From stdpp Require Import base option list gmap sets strings pretty.

Set Warnings "-clear-no-such-hyp".

Local Open Scope Z_scope.
Local Open Scope string_scope.

(** ** JavaScript values, as far as this program looks at them *)

Module Js.

(** What [JSON.parse] can return, plus [undefined].  A number is the
    rational value of the double: [JSON.parse] never yields NaN, and the
    program only compares numbers and tests them against zero. *)
#[warnings="-register-all"]
Inductive value : Type :=
| VUndefined
| VNull
| VBool (b : bool)
| VNum (q : Q)
| VStr (s : string)
| VArr (elems : list value)
| VObj (props : list (string * value)).

(** The error classes the handlers can meet. *)
Inductive exn : Type :=
| TypeError
| SyntaxError
| Error (message : string).

Inductive result (A : Type) : Type :=
| Returns (a : A)
| Throws (e : exn).
Arguments Returns {A} a.
Arguments Throws {A} e.

Definition typeof (v : value) : string :=
  match v with
  | VUndefined => "undefined"
  | VBool _ => "boolean"
  | VNum _ => "number"
  | VStr _ => "string"
  | VNull | VArr _ | VObj _ => "object"
  end.

(** [ToBoolean]: false for [undefined], [null], [false], [0] and [""]. *)
Definition truthy (v : value) : bool :=
  match v with
  | VUndefined | VNull => false
  | VBool b => b
  | VNum q => negb (Qeq_bool q 0)
  | VStr s => negb (String.eqb s EmptyString)
  | VArr _ | VObj _ => true
  end.

(** [a || b] *)
Definition logical_or (a b : value) : value := if truthy a then a else b.

(** [v === undefined || v === null] *)
Definition nullish (v : value) : bool :=
  match v with
  | VUndefined | VNull => true
  | _ => false
  end.

(** Own property of a decoded object; [undefined] when absent. *)
Fixpoint own (props : list (string * value)) (k : string) : value :=
  match props with
  | [] => VUndefined
  | (k', v) :: rest => if String.eqb k k' then v else own rest k
  end.

(** [v[k]] for the property names this program reads ([lat], [lon],
    [time], [acc], [alt], [spd], [prov]): none of them is an index,
    [length] or a prototype member, so primitives and arrays answer
    [undefined]; reading a property of [null] or [undefined] throws. *)
Definition get (v : value) (k : string) : result value :=
  match v with
  | VUndefined | VNull => Throws TypeError
  | VObj props => Returns (own props k)
  | VBool _ | VNum _ | VStr _ | VArr _ => Returns VUndefined
  end.

(** [v < q] and [v > q] on number operands, the only ones the program
    compares (the comparisons sit behind [typeof] guards). *)
Definition less_than (v : value) (q : Q) : bool :=
  match v with
  | VNum x => negb (Qle_bool q x)
  | _ => false
  end.

Definition greater_than (v : value) (q : Q) : bool :=
  match v with
  | VNum x => negb (Qle_bool x q)
  | _ => false
  end.

End Js.
Import Js.

(** ** Server side: data *)

(** A row of [location_data] as the storage engine returns it. *)
Record Row : Type := mkRow {
  id : Z;
  latitude : value;
  longitude : value;
  timestamp_value : value;
  accuracy : value;
  altitude : value;
  speed : value;
  provider : value;
  created_at : Z
}.

(** [frontendData] of the datagram handler. *)
Record FrontendData : Type := mkFrontendData {
  fd_id : Z;
  fd_latitude : value;
  fd_longitude : value;
  fd_timestamp_value : value;
  fd_created_at : Z
}.

(** An entry of [connectedClients]; a [Date] is its epoch milliseconds. *)
Record ClientInfo : Type := mkClientInfo {
  connectedAt : Z;
  lastActivity : Z
}.

(** Payloads of the server-to-peer events ([toISOString] timestamps are
    kept as the instant they print). *)
Inductive packet : Type :=
| ConnectionInfo (clientId : string) (connectedAt : Z) (totalClients : nat)
| NewLocation (data : FrontendData) (timestamp : Z) (totalClients : nat)
| ClientCount (totalClients : nat)
| PongAt (timestamp : Z)
| Stats (totalClients : nat) (clientInfo : option ClientInfo) (serverTime : Z)
| InitialData (data : list FrontendData) (timestamp : Z)
| InitialDataFailed (error : string).

Inductive level : Type := LogLevel | WarnLevel | ErrorLevel.

(** The two statements the real-time path sends to [pool.query]: the
    [INSERT] of [LocationModel.create] and the [SELECT] of
    [LocationModel.getAll]. *)
Inductive statement : Type := InsertLocation | SelectRecent.

(** What a handler does to the outside world, in order. *)
Inductive effect : Type :=
| Console (l : level) (text : string)
| PoolQuery (query : statement) (values : list value)
| SocketEmit (socketId : string) (eventName : string) (payload : packet)
| IoEmit (recipients : gset string) (eventName : string) (payload : packet)
| ForceDisconnect (socketId : string).

(** ** A writer-and-exception monad for the synchronous stretches *)

Definition M (A : Type) : Type := (list effect * result A)%type.

Definition ret {A} (a : A) : M A := ([], Returns a).
Definition throw {A} (e : exn) : M A := ([], Throws e).
Definition tell (e : effect) : M unit := ([e], Returns tt).
Definition lift {A} (r : result A) : M A := ([], r).

Definition bind {A B} (m : M A) (k : A -> M B) : M B :=
  match m with
  | (out, Returns a) => let '(out', r) := k a in ((out ++ out')%list, r)
  | (out, Throws e) => (out, Throws e)
  end.

(** [try { m } catch (e) { h e }] *)
Definition try_catch {A} (m : M A) (h : exn -> M A) : M A :=
  match m with
  | (out, Returns a) => (out, Returns a)
  | (out, Throws e) => let '(out', r) := h e in ((out ++ out')%list, r)
  end.

Notation "x <- c ;; k" := (bind c (fun x => k))
  (at level 100, c at next level, right associativity).
Notation "c ;;; k" := (bind c (fun _ => k))
  (at level 100, right associativity).

Definition console (l : level) (text : string) : M unit := tell (Console l text).

(** ** [UDPService.validateLocationData] *)

Definition requiredFields : list string := ["lat"; "lon"; "time"].

(** The [for (const field of requiredFields)] loop; [false] is the early
    [return false]. *)
Fixpoint required_present (data : value) (fields : list string) : M bool :=
  match fields with
  | [] => ret true
  | field :: rest =>
      v <- lift (get data field) ;;
      if nullish v
      then console WarnLevel ("Campo requerido faltante: " ++ field) ;;; ret false
      else required_present data rest
  end.

Definition validateLocationData (data : value) : M bool :=
  present <- required_present data requiredFields ;;
  if negb present then ret false else
  lat <- lift (get data "lat") ;;
  lon <- lift (get data "lon") ;;
  if negb (String.eqb (typeof lat) "number") || negb (String.eqb (typeof lon) "number")
  then console WarnLevel "lat y lon deben ser números" ;;; ret false
  else
  time <- lift (get data "time") ;;
  if negb (String.eqb (typeof time) "number")
  then console WarnLevel "time debe ser un número (timestamp)" ;;; ret false
  else
  if less_than lat (-90) || greater_than lat 90
  then console WarnLevel "Latitud fuera de rango válido (-90 a 90)" ;;; ret false
  else
  if less_than lon (-180) || greater_than lon 180
  then console WarnLevel "Longitud fuera de rango válido (-180 a 180)" ;;; ret false
  else ret true.

(** ** [LocationModel.create] and the storage engine *)

(** [const values = [...]] of [LocationModel.create]. *)
Definition create_values (locationData : value) : M (list value) :=
  lat <- lift (get locationData "lat") ;;
  lon <- lift (get locationData "lon") ;;
  time <- lift (get locationData "time") ;;
  acc <- lift (get locationData "acc") ;;
  alt <- lift (get locationData "alt") ;;
  spd <- lift (get locationData "spd") ;;
  prov <- lift (get locationData "prov") ;;
  ret [lat; lon; time; logical_or acc VNull; logical_or alt VNull; logical_or spd VNull; logical_or prov VNull].

(** [LocationController.createLocation(locationData)] up to the point where
    [LocationModel.create] awaits [pool.query(query, values)].  [values] is
    built before the [try] of [create]: an exception there rejects the
    promise of [create], which the [catch] of [createLocation] logs and
    passes on. *)
Definition createLocation_begin (locationData : value) : M (list value) :=
  try_catch
    (values <- create_values locationData ;;
     tell (PoolQuery InsertLocation values) ;;;
     ret values)
    (fun error => console ErrorLevel "Error en createLocation:" ;;; throw error).

(** The rest of both functions once the query has settled: each [catch]
    logs and rethrows. *)
Definition create_settled (settled : result Row) : M Row :=
  try_catch (lift settled)
    (fun error => console ErrorLevel "Error al crear registro de ubicación:" ;;; throw error).

Definition createLocation_settled (settled : result Row) : M Row :=
  try_catch (create_settled settled)
    (fun error => console ErrorLevel "Error en createLocation:" ;;; throw error).

(** The table behind [pool]: its rows and the next serial identity. *)
Record Pool : Type := mkPool {
  location_data : list Row;
  next_id : Z
}.

(** [$n] of a parameterised statement. *)
Definition param (values : list value) (n : nat) : value := nth (n - 1) values VNull.

(** The engine's side of [INSERT INTO location_data (latitude, longitude,
    timestamp_value, accuracy, altitude, speed, provider) VALUES ($1, ..., $7)
    RETURNING *]: the bound parameters fill the listed columns, the engine
    assigns [id] and [created_at].  Column types and their coercions belong
    to the schema, which the repository does not contain; the identity is
    taken from a counter, as a serial column would give it, though a real
    sequence may skip values. *)
Definition insert_returning (now : Z) (values : list value) (p : Pool) : Row * Pool :=
  let row := {| id := next_id p;
                latitude := param values 1;
                longitude := param values 2;
                timestamp_value := param values 3;
                accuracy := param values 4;
                altitude := param values 5;
                speed := param values 6;
                provider := param values 7;
                created_at := now |} in
  (row, {| location_data := (location_data p ++ [row])%list; next_id := next_id p + 1 |}).

(** The columns [LocationModel.getAll] selects. *)
Definition select_columns (row : Row) : FrontendData :=
  {| fd_id := id row;
     fd_latitude := latitude row;
     fd_longitude := longitude row;
     fd_timestamp_value := timestamp_value row;
     fd_created_at := created_at row |}.

(** Insertion into a list ordered by [created_at], latest first. *)
Fixpoint insert_latest_first (r : FrontendData) (l : list FrontendData) : list FrontendData :=
  match l with
  | [] => [r]
  | x :: rest =>
      if (fd_created_at x <? fd_created_at r)%Z then r :: l else x :: insert_latest_first r rest
  end.

(** The engine's side of [SELECT id, latitude, longitude, timestamp_value,
    created_at FROM location_data ORDER BY created_at DESC LIMIT $1 OFFSET
    $2].  Rows created at the same instant come in the order the sort
    leaves them; SQL leaves it open. *)
Definition select_recent (limit offset : nat) (p : Pool) : list FrontendData :=
  firstn limit
    (skipn offset (fold_right insert_latest_first [] (map select_columns (location_data p)))).

(** [LocationModel.getAll(limit, offset)] up to its [await], and after it. *)
Definition getAll_begin (limit offset : nat) : M unit :=
  tell (PoolQuery SelectRecent
          [VNum (inject_Z (Z.of_nat limit)); VNum (inject_Z (Z.of_nat offset))]).

Definition getAll_settled (settled : result (list FrontendData)) : M (list FrontendData) :=
  try_catch (lift settled)
    (fun error => console ErrorLevel "Error al obtener registros de ubicación:" ;;; throw error).

(** ** [SocketService] *)

(** [connectedClients] is the registry of sessions; [sockets] stands for
    [io.sockets.sockets], the live sockets that [io.emit] reaches. *)
Record SocketService : Type := mkSocketService {
  connectedClients : gmap string ClientInfo;
  sockets : gset string
}.

Definition broadcastNewLocation (s : SocketService) (now : Z) (locationData : FrontendData) : M unit :=
  let message := NewLocation locationData now (size (connectedClients s)) in
  console LogLevel "Transmitiendo nueva ubicación" ;;;
  tell (IoEmit (sockets s) "location-update" message).

(** [io.on('connection', socket => ...)]: the socket is already among the
    live ones when the listener runs. *)
Definition on_connection (now : Z) (socketId : string) (s : SocketService)
  : SocketService * list effect :=
  let live := {[socketId]} ∪ sockets s in
  let clients := <[socketId := {| connectedAt := now; lastActivity := now |}]> (connectedClients s) in
  ({| connectedClients := clients; sockets := live |},
   [ Console LogLevel ("Cliente WebSocket conectado: " ++ socketId);
     SocketEmit socketId "connection-info" (ConnectionInfo socketId now (size clients));
     IoEmit live "client-count-update" (ClientCount (size clients)) ]).

(** [socket.on('ping', ...)] *)
Definition on_ping (now : Z) (socketId : string) (s : SocketService)
  : SocketService * list effect :=
  let clients :=
    match connectedClients s !! socketId with
    | Some clientInfo =>
        <[socketId := {| connectedAt := connectedAt clientInfo; lastActivity := now |}]>
          (connectedClients s)
    | None => connectedClients s
    end in
  ({| connectedClients := clients; sockets := sockets s |},
   [ SocketEmit socketId "pong" (PongAt now) ]).

(** [socket.on('request-stats', ...)] *)
Definition on_request_stats (now : Z) (socketId : string) (s : SocketService)
  : SocketService * list effect :=
  (s, [ SocketEmit socketId "stats-update"
          (Stats (size (connectedClients s)) (connectedClients s !! socketId) now) ]).

(** [socket.on('request-initial-data', async () => ...)] up to its
    [await], and from the settling of [getAll] to its end. *)
Definition initial_data_requested : M unit := getAll_begin 10 0.

Definition initial_data_settled (now : Z) (socketId : string)
    (settled : result (list FrontendData)) : M unit :=
  try_catch
    (recentData <- getAll_settled settled ;;
     tell (SocketEmit socketId "initial-data" (InitialData recentData now)) ;;;
     console LogLevel ("Datos iniciales enviados a " ++ socketId))
    (fun error =>
       console ErrorLevel "Error enviando datos iniciales:" ;;;
       tell (SocketEmit socketId "initial-data"
                        (InitialDataFailed "Error al obtener datos iniciales"))).

(** [socket.on('disconnect', reason => ...)]: the socket has left the live
    ones when the listener runs. *)
Definition on_disconnect (socketId reason : string) (s : SocketService)
  : SocketService * list effect :=
  let live := sockets s ∖ {[socketId]} in
  let clients := delete socketId (connectedClients s) in
  ({| connectedClients := clients; sockets := live |},
   [ Console LogLevel ("Cliente WebSocket desconectado: " ++ socketId ++ ", razón: " ++ reason);
     IoEmit live "client-count-update" (ClientCount (size clients)) ]).

(** [socket.disconnect(true)]: the transport is closed and the socket's
    [disconnect] listener runs before the call returns. *)
Definition disconnect_true (socketId : string) (s : SocketService)
  : SocketService * list effect :=
  let '(s', out) := on_disconnect socketId "forced close" s in
  (s', ForceDisconnect socketId :: out).

(** Arithmetic on numbers is arithmetic on doubles: the exact result,
    rounded to the nearest number with a significand of 53 bits, ties
    going to the even significand.  The exponent is left unbounded: the
    quantities of this program are far from overflow and from the
    subnormal numbers. *)
Module Double.

(** The nearest integer, ties to even. *)
Definition round_even (q : Q) : Z :=
  let f := Qfloor q in
  match Qcompare (q - inject_Z f) (1 # 2) with
  | Lt => f
  | Gt => f + 1
  | Eq => if Z.even f then f else f + 1
  end.

(** The integer part of the binary logarithm of a positive number. *)
Definition ilog2 (a : Q) : Z :=
  if Qle_bool 1 a then Z.log2 (Qfloor a) else - Z.log2_up (Qceiling (/ a)).

(** Rounding of a positive number: its significand, scaled to lie between
    [2^52] and [2^53], is rounded to an integer. *)
Definition round_positive (a : Q) : Q :=
  let e := ilog2 a - 52 in
  (inject_Z (round_even (a / 2 ^ e)) * 2 ^ e)%Q.

Definition round (q : Q) : Q :=
  match Qcompare q 0 with
  | Eq => 0%Q
  | Gt => round_positive q
  | Lt => (- round_positive (- q))%Q
  end.

End Double.

(** [(now - clientInfo.lastActivity) / (1000 * 60)]: the difference of the
    two dates and its quotient by 60000 are each a double. *)
Definition inactiveMinutes (now : Z) (clientInfo : ClientInfo) : Q :=
  Double.round (Double.round (inject_Z (now - lastActivity clientInfo)) / inject_Z (1000 * 60)).

(** [inactiveMinutes > maxInactiveMinutes]; the threshold is the value of
    a double. *)
Definition inactive (now : Z) (maxInactiveMinutes : Q) (clientInfo : ClientInfo) : bool :=
  negb (Qle_bool (inactiveMinutes now clientInfo) maxInactiveMinutes).

(** One turn of the [for ... of this.connectedClients.entries()] loop. *)
Definition cleanup_entry (now : Z) (maxInactiveMinutes : Q)
    (acc : SocketService * list effect * nat) (entry : string * ClientInfo)
  : SocketService * list effect * nat :=
  let '(s, out, cleaned) := acc in
  let '(clientId, clientInfo) := entry in
  if inactive now maxInactiveMinutes clientInfo then
    let '(s1, out1) :=
      if decide (clientId ∈ sockets s) then disconnect_true clientId s else (s, []) in
    ({| connectedClients := delete clientId (connectedClients s1); sockets := sockets s1 |},
     (out ++ out1)%list, S cleaned)
  else acc.

(** The loop only ever deletes the entry it is visiting, so it walks the
    entries the map held on entry.  It walks them in the order of
    [map_to_list] rather than in insertion order, which only the order of
    the effects depends on. *)
Definition cleanupInactiveConnections (now : Z) (maxInactiveMinutes : Q) (s : SocketService)
  : SocketService * list effect * nat :=
  let '(s', out, cleaned) :=
    fold_left (cleanup_entry now maxInactiveMinutes)
              (map_to_list (connectedClients s)) (s, [], 0%nat) in
  (s',
   (out ++ if (0 <? cleaned)%nat then [Console LogLevel "Limpiadas conexiones inactivas"] else [])%list,
   cleaned).

(** The default of [maxInactiveMinutes]. *)
Definition default_maxInactiveMinutes : Q := 30%Q.

(** ** [UDPService]: the [message] listener *)

(** Where the [async] listener stands when it gives control back. *)
Inductive progress : Type :=
| Completed
| AwaitingCreate (values : list value).

(** How [pool.query] settles. *)
Inductive settlement : Type :=
| Fulfilled
| Rejected (error : exn).

Section Listener.

(** [JSON.parse(msg.toString())], part of the runtime. *)
Variable JSON_parse : string -> result value.

(** The [catch (error)] block of the listener. *)
Definition message_catch (msg : string) (error : exn) : M unit :=
  console ErrorLevel "Error procesando mensaje UDP:" ;;;
  match error with
  | SyntaxError => console ErrorLevel ("JSON inválido recibido: " ++ msg)
  | _ => ret tt
  end.

(** From the arrival of a datagram to the first [await], or to the end
    when the listener returns earlier. *)
Definition message_received (msg rinfo : string) : M progress :=
  try_catch
    (console LogLevel "=== UDP Message Received ===" ;;;
     console LogLevel ("From: " ++ rinfo) ;;;
     console LogLevel ("Raw message: " ++ msg) ;;;
     locationData <- lift (JSON_parse msg) ;;
     console LogLevel "Parsed data:" ;;;
     valid <- validateLocationData locationData ;;
     if negb valid
     then console WarnLevel "Datos de ubicación inválidos:" ;;; ret Completed
     else values <- createLocation_begin locationData ;;
          ret (AwaitingCreate values))
    (fun error => message_catch msg error ;;; ret Completed).

(** From the settling of [createLocation] to the end of the listener. *)
Definition message_resumed (msg : string) (now : Z) (s : SocketService)
    (settled : result Row) : M unit :=
  try_catch
    (savedLocation <- createLocation_settled settled ;;
     console LogLevel "Ubicación guardada en BD:" ;;;
     let frontendData :=
       {| fd_id := id savedLocation;
          fd_latitude := latitude savedLocation;
          fd_longitude := longitude savedLocation;
          fd_timestamp_value := timestamp_value savedLocation;
          fd_created_at := created_at savedLocation |} in
     broadcastNewLocation s now frontendData ;;;
     console LogLevel "=== Processed Successfully ===")
    (message_catch msg).

(** ** The server as an event loop *)

Record World : Type := mkWorld {
  svc : SocketService;
  pool : Pool;
  running : bool
}.

(** What the runtime hands to the server.  [StoreSettles msg values o]
    resumes the listener of datagram [msg] that awaits the query issued
    with [values]; [InitialDataSettles socketId o] resumes the
    [request-initial-data] listener of that socket. *)
Inductive event : Type :=
| Connection (socketId : string)
| Ping (socketId : string)
| RequestStats (socketId : string)
| RequestInitialData (socketId : string)
| InitialDataSettles (socketId : string) (outcome : settlement)
| Disconnect (socketId reason : string)
| CleanupTick
| UdpMessage (msg rinfo : string)
| StoreSettles (msg : string) (values : list value) (outcome : settlement).

Definition with_svc (w : World) (r : SocketService * list effect) : World * list effect :=
  ({| svc := fst r; pool := pool w; running := running w |}, snd r).

(** An [async] listener whose promise rejects reaches the
    [unhandledRejection] hook of [server.js], which exits the process. *)
Definition settle_listener {A} (w : World) (m : M A) : World * list effect :=
  match m with
  | (out, Returns _) => (w, out)
  | (out, Throws _) =>
      ({| svc := svc w; pool := pool w; running := false |},
       (out ++ [Console ErrorLevel "Promesa rechazada no manejada:"])%list)
  end.

Definition step (now : Z) (ev : event) (w : World) : World * list effect :=
  if negb (running w) then (w, []) else
  match ev with
  | Connection socketId => with_svc w (on_connection now socketId (svc w))
  | Ping socketId => with_svc w (on_ping now socketId (svc w))
  | RequestStats socketId => with_svc w (on_request_stats now socketId (svc w))
  | RequestInitialData socketId => settle_listener w initial_data_requested
  | InitialDataSettles socketId Fulfilled =>
      settle_listener w (initial_data_settled now socketId
                           (Returns (select_recent 10 0 (pool w))))
  | InitialDataSettles socketId (Rejected error) =>
      settle_listener w (initial_data_settled now socketId (Throws error))
  | Disconnect socketId reason => with_svc w (on_disconnect socketId reason (svc w))
  | CleanupTick =>
      with_svc w (fst (cleanupInactiveConnections now default_maxInactiveMinutes (svc w)))
  | UdpMessage msg rinfo => settle_listener w (message_received msg rinfo)
  | StoreSettles msg values Fulfilled =>
      let '(row, pool') := insert_returning now values (pool w) in
      settle_listener {| svc := svc w; pool := pool'; running := running w |}
                      (message_resumed msg now (svc w) (Returns row))
  | StoreSettles msg values (Rejected error) =>
      settle_listener w (message_resumed msg now (svc w) (Throws error))
  end.

(** A run of timed events; the outputs are concatenated in order. *)
Fixpoint run (evs : list (Z * event)) (w : World) : World * list effect :=
  match evs with
  | [] => (w, [])
  | (now, ev) :: rest =>
      let '(w1, out1) := step now ev w in
      let '(w2, out2) := run rest w1 in
      (w2, (out1 ++ out2)%list)
  end.

End Listener.

Definition initial_world : World :=
  {| svc := {| connectedClients := ∅; sockets := ∅ |};
     pool := {| location_data := []; next_id := 1 |};
     running := true |}.

(** ** Client side: the [useSocket] hook *)

Module UseSocket.

(** [config.SOCKET_OPTIONS], the reconnection policy handed to the
    transport library. *)
Record Options : Type := mkOptions {
  timeout : Z;
  reconnectionAttempts : Z;
  reconnectionDelay : Z;
  reconnectionDelayMax : Z;
  autoConnect : bool;
  forceNew : bool
}.

Definition SOCKET_OPTIONS : Options :=
  {| timeout := 20000;
     reconnectionAttempts := 5;
     reconnectionDelay := 1000;
     reconnectionDelayMax := 5000;
     autoConnect := true;
     forceNew := false |}.

(** A function value, known by its identity: the listener [createSocket]
    installs for an event, or a handler of the consumer. *)
Inductive fn : Type :=
| Own (eventName : string)
| Handler (ref : nat).

#[export] Instance fn_eq_dec : EqDecision fn.
Proof. solve_decision. Defined.

(** The socket of the transport library: its [connected] flag and the
    listeners attached to it, in the order they were attached. *)
Record Socket : Type := mkSocket {
  connected : bool;
  callbacks : list (string * fn)
}.

(** [socket.on(eventName, handler)] *)
Definition socket_on (eventName : string) (handler : fn) (socket : Socket) : Socket :=
  {| connected := connected socket;
     callbacks := (callbacks socket ++ [(eventName, handler)])%list |}.

(** Removal of the first listener of [eventName] that is [handler]. *)
Fixpoint remove_first (eventName : string) (handler : fn) (cbs : list (string * fn))
  : list (string * fn) :=
  match cbs with
  | [] => []
  | (e, f) :: rest =>
      if decide (e = eventName /\ f = handler) then rest
      else (e, f) :: remove_first eventName handler rest
  end.

(** Removal of the first listener of [eventName], whichever it is. *)
Fixpoint remove_first_of (eventName : string) (cbs : list (string * fn))
  : list (string * fn) :=
  match cbs with
  | [] => []
  | (e, f) :: rest =>
      if decide (e = eventName) then rest else (e, f) :: remove_first_of eventName rest
  end.

(** [socket.off(eventName, handler)] with both arguments given.  The
    emitter removes the first listener [cb] of the event with
    [cb === handler || cb.fn === handler]; a listener attached with [on]
    has no [fn], so a [handler] that is [undefined] matches the first
    listener of the event, whoever attached it. *)
Definition socket_off (eventName : string) (handler : option fn) (socket : Socket) : Socket :=
  match handler with
  | Some f =>
      {| connected := connected socket;
         callbacks := remove_first eventName f (callbacks socket) |}
  | None =>
      {| connected := connected socket;
         callbacks := remove_first_of eventName (callbacks socket) |}
  end.

(** The functions the socket calls when [eventName] arrives. *)
Definition listeners (eventName : string) (socket : Socket) : list fn :=
  map snd (filter (fun cb => bool_decide (fst cb = eventName)) (callbacks socket)).

Inductive effect : Type :=
| Sent (eventName : string) (data : value)
| ConnectCalled
| DisconnectCalled
| Warned (text : string).

(** The state of the hook: the five [useState] cells and the refs. *)
Record Hook : Type := mkHook {
  isConnected : bool;
  connectionStatus : string;
  lastUpdate : option Z;
  error : value;
  clientCount : value;
  socketRef : option Socket;
  listenersRef : gmap string fn
}.

(** The events for which [createSocket] installs a listener, with what
    the listener reads of their argument. *)
Inductive socket_event : Type :=
| OnConnect
| OnDisconnect (reason : string)
| OnConnectError (message : value)
| OnReconnect (attemptNumber : Z)
| OnReconnectAttempt (attemptNumber : Z)
| OnReconnectError
| OnReconnectFailed
| OnConnectionInfo (totalClients : value)
| OnClientCountUpdate (totalClients : value)
| OnPong (timestamp : value)
| OnError (message : value).

Definition event_name (ev : socket_event) : string :=
  match ev with
  | OnConnect => "connect"
  | OnDisconnect _ => "disconnect"
  | OnConnectError _ => "connect_error"
  | OnReconnect _ => "reconnect"
  | OnReconnectAttempt _ => "reconnect_attempt"
  | OnReconnectError => "reconnect_error"
  | OnReconnectFailed => "reconnect_failed"
  | OnConnectionInfo _ => "connection-info"
  | OnClientCountUpdate _ => "client-count-update"
  | OnPong _ => "pong"
  | OnError _ => "error"
  end.

(** The listeners [createSocket] attaches, in order. *)
Definition own_callbacks : list (string * fn) :=
  map (fun e => (e, Own e))
    [ "connect"; "disconnect"; "connect_error"; "reconnect"; "reconnect_attempt";
      "reconnect_error"; "reconnect_failed"; "connection-info"; "client-count-update";
      "pong"; "error" ].

(** The state on the first render. *)
Definition initial : Hook :=
  {| isConnected := false;
     connectionStatus := "disconnected";
     lastUpdate := None;
     error := VNull;
     clientCount := VNum 0;
     socketRef := None;
     listenersRef := ∅ |}.

(** The transport library's own bookkeeping when it announces an event:
    [socket.connected] is set before the [connect] listeners run and
    cleared before the [disconnect] listeners run. *)
Definition announce (ev : socket_event) (socket : Socket) : Socket :=
  match ev with
  | OnConnect => {| connected := true; callbacks := callbacks socket |}
  | OnDisconnect _ => {| connected := false; callbacks := callbacks socket |}
  | _ => socket
  end.

(** The body of the listener [createSocket] installs for [ev], run at
    time [now]. *)
Definition own_listener (now : Z) (ev : socket_event) (h : Hook) : Hook * list effect :=
  match ev with
  | OnConnect | OnReconnect _ =>
      ({| isConnected := true; connectionStatus := "connected";
          lastUpdate := Some now; error := VNull; clientCount := clientCount h;
          socketRef := socketRef h; listenersRef := listenersRef h |},
       [Sent "request-initial-data" VUndefined])
  | OnDisconnect reason =>
      ({| isConnected := false; connectionStatus := "disconnected";
          lastUpdate := Some now; error := error h; clientCount := clientCount h;
          socketRef := socketRef h; listenersRef := listenersRef h |},
       if String.eqb reason "io server disconnect" then [ConnectCalled] else [])
  | OnConnectError message =>
      ({| isConnected := false; connectionStatus := "error";
          lastUpdate := Some now; error := logical_or message (VStr "Error de conexión");
          clientCount := clientCount h;
          socketRef := socketRef h; listenersRef := listenersRef h |}, [])
  | OnReconnectAttempt _ =>
      ({| isConnected := isConnected h; connectionStatus := "connecting";
          lastUpdate := lastUpdate h; error := error h; clientCount := clientCount h;
          socketRef := socketRef h; listenersRef := listenersRef h |}, [])
  | OnReconnectError =>
      ({| isConnected := isConnected h; connectionStatus := "error";
          lastUpdate := lastUpdate h; error := VStr "Error de reconexión";
          clientCount := clientCount h;
          socketRef := socketRef h; listenersRef := listenersRef h |}, [])
  | OnReconnectFailed =>
      ({| isConnected := isConnected h; connectionStatus := "disconnected";
          lastUpdate := lastUpdate h; error := VStr "No se pudo reconectar al servidor";
          clientCount := clientCount h;
          socketRef := socketRef h; listenersRef := listenersRef h |}, [])
  | OnConnectionInfo totalClients | OnClientCountUpdate totalClients =>
      ({| isConnected := isConnected h; connectionStatus := connectionStatus h;
          lastUpdate := lastUpdate h; error := error h;
          clientCount := logical_or totalClients (VNum 0);
          socketRef := socketRef h; listenersRef := listenersRef h |}, [])
  | OnPong _ =>
      ({| isConnected := isConnected h; connectionStatus := connectionStatus h;
          lastUpdate := Some now; error := error h; clientCount := clientCount h;
          socketRef := socketRef h; listenersRef := listenersRef h |}, [])
  | OnError message =>
      ({| isConnected := isConnected h; connectionStatus := connectionStatus h;
          lastUpdate := lastUpdate h; error := logical_or message (VStr "Error de socket");
          clientCount := clientCount h;
          socketRef := socketRef h; listenersRef := listenersRef h |}, [])
  end.

Definition with_socket (h : Hook) (socket : option Socket) : Hook :=
  {| isConnected := isConnected h; connectionStatus := connectionStatus h;
     lastUpdate := lastUpdate h; error := error h; clientCount := clientCount h;
     socketRef := socket; listenersRef := listenersRef h |}.

Definition with_listeners (h : Hook) (m : gmap string fn) : Hook :=
  {| isConnected := isConnected h; connectionStatus := connectionStatus h;
     lastUpdate := lastUpdate h; error := error h; clientCount := clientCount h;
     socketRef := socketRef h; listenersRef := m |}.

(** The socket announces [ev]: the library updates its flag, then the
    hook's own listener for [ev] runs if it is (still) attached. *)
Definition deliver (now : Z) (ev : socket_event) (h : Hook) : Hook * list effect :=
  match socketRef h with
  | None => (h, [])
  | Some socket =>
      let socket' := announce ev socket in
      let h' := with_socket h (Some socket') in
      if decide (Own (event_name ev) ∈ listeners (event_name ev) socket')
      then own_listener now ev h'
      else (h', [])
  end.

Fixpoint deliver_all (evs : list (Z * socket_event)) (h : Hook) : Hook * list effect :=
  match evs with
  | [] => (h, [])
  | (now, ev) :: rest =>
      let '(h1, out1) := deliver now ev h in
      let '(h2, out2) := deliver_all rest h1 in
      (h2, (out1 ++ out2)%list)
  end.

(** [cleanupListeners] *)
Definition cleanupListeners (h : Hook) : Hook :=
  match socketRef h with
  | Some socket =>
      let socket' :=
        fold_left (fun s cb => socket_off (fst cb) (Some (snd cb)) s)
                  (map_to_list (listenersRef h)) socket in
      with_listeners (with_socket h (Some socket')) ∅
  | None => h
  end.

(** [socket.disconnect()]: a connected socket announces [disconnect],
    with the reason of a local close, before the call returns; one that is
    not connected just stops. *)
Definition socket_disconnect (now : Z) (h : Hook) : Hook * list effect :=
  match socketRef h with
  | Some socket =>
      if connected socket
      then let '(h', out) := deliver now (OnDisconnect "io client disconnect") h in
           (h', DisconnectCalled :: out)
      else (h, [DisconnectCalled])
  | None => (h, [])
  end.

(** The socket [io(config.SOCKET_URL, config.SOCKET_OPTIONS)] returns,
    once [createSocket] has attached its listeners. *)
Definition fresh_socket : Socket := {| connected := false; callbacks := own_callbacks |}.

(** [socketRef.current = createSocket()]: a previous socket is stripped of
    the consumer's handlers and disconnected, then the fresh one takes
    its place. *)
Definition createSocket (now : Z) (h : Hook) : Hook * list effect :=
  match socketRef h with
  | Some _ =>
      let '(h1, out) := socket_disconnect now (cleanupListeners h) in
      (with_socket h1 (Some fresh_socket), out)
  | None => (with_socket h (Some fresh_socket), [])
  end.

(** [reconnect()] *)
Definition reconnect (now : Z) (h : Hook) : Hook * list effect :=
  match socketRef h with
  | Some _ =>
      ({| isConnected := isConnected h; connectionStatus := "connecting";
          lastUpdate := lastUpdate h; error := VNull; clientCount := clientCount h;
          socketRef := socketRef h; listenersRef := listenersRef h |},
       [ConnectCalled])
  | None => createSocket now h
  end.

(** [disconnect()] *)
Definition disconnect (now : Z) (h : Hook) : Hook * list effect :=
  match socketRef h with
  | Some _ => socket_disconnect now (cleanupListeners h)
  | None => (h, [])
  end.

(** [emit(eventName, data)] *)
Definition emit (eventName : string) (data : value) (h : Hook) : bool * list effect :=
  match socketRef h with
  | Some socket =>
      if connected socket
      then (true, [Sent eventName data])
      else (false, [Warned ("Socket no conectado, no se puede emitir: " ++ eventName)])
  | None => (false, [Warned ("Socket no conectado, no se puede emitir: " ++ eventName)])
  end.

(** The closure [on] returns: the one that captures [eventName] and
    [handler], or the empty one. *)
Inductive unsubscribe : Type :=
| Unsubscribe (eventName : string) (handler : fn)
| Noop.

(** [on(eventName, handler)] *)
Definition on (eventName : string) (handler : fn) (h : Hook) : Hook * unsubscribe :=
  match socketRef h with
  | Some socket =>
      let socket1 :=
        match listenersRef h !! eventName with
        | Some oldHandler => socket_off eventName (Some oldHandler) socket
        | None => socket
        end in
      let socket2 := socket_on eventName handler socket1 in
      (with_listeners (with_socket h (Some socket2)) (<[eventName := handler]> (listenersRef h)),
       Unsubscribe eventName handler)
  | None => (h, Noop)
  end.

(** Calling the closure [on] returned. *)
Definition call (u : unsubscribe) (h : Hook) : Hook :=
  match u with
  | Unsubscribe eventName handler =>
      match socketRef h with
      | Some socket =>
          with_listeners (with_socket h (Some (socket_off eventName (Some handler) socket)))
                         (delete eventName (listenersRef h))
      | None => h
      end
  | Noop => h
  end.

(** [off(eventName, handler)]; [handler] may be [undefined]. *)
Definition off (eventName : string) (handler : option fn) (h : Hook) : Hook :=
  match socketRef h with
  | Some socket =>
      let h' := with_socket h (Some (socket_off eventName handler socket)) in
      match handler with
      | Some f =>
          if decide (listenersRef h !! eventName = Some f)
          then with_listeners h' (delete eventName (listenersRef h))
          else h'
      | None => h'
      end
  | None => h
  end.

(** The hook after mounting: [useEffect] has stored [createSocket()]. *)
Definition mounted : Hook := fst (createSocket 0 initial).

End UseSocket.

(** ** [SocketService]: the methods no listener calls *)

(** [{...props, k: v}]: an existing member keeps its place and takes the
    new value, a new one goes last. *)
Fixpoint set_prop (k : string) (v : value) (props : list (string * value))
  : list (string * value) :=
  match props with
  | [] => [(k, v)]
  | (k', v') :: rest =>
      if String.eqb k k' then (k, v) :: rest else (k', v') :: set_prop k v rest
  end.

(** The members [{...data}] copies: those of an object, the indexed
    elements of an array or the code units of a string, and none of
    anything else.

    A string is held as its UTF-8 bytes, while the members of a spread
    string are its UTF-16 code units: a character of up to three bytes is
    one member, a character of four bytes is two, the halves of its
    surrogate pair (each written here as the three bytes its code would
    take).  A byte that does not begin a well-formed character stands
    alone. *)
Definition continuation (c : Ascii.ascii) : bool :=
  (128 <=? Ascii.N_of_ascii c)%N && (Ascii.N_of_ascii c <? 192)%N.

Definition surrogate (u : N) : value :=
  VStr (String (Ascii.ascii_of_N 237)
          (String (Ascii.ascii_of_N (128 + (u / 64) mod 64))
             (String (Ascii.ascii_of_N (128 + u mod 64)) EmptyString))).

Fixpoint string_chars (s : string) : list value :=
  match s with
  | EmptyString => []
  | String a rest =>
      let alone := VStr (String a EmptyString) :: string_chars rest in
      let n := Ascii.N_of_ascii a in
      if (n <? 192)%N then alone
      else match rest with
           | String b rest1 =>
               if negb (continuation b) then alone
               else if (n <? 224)%N
               then VStr (String a (String b EmptyString)) :: string_chars rest1
               else match rest1 with
                    | String c rest2 =>
                        if negb (continuation c) then alone
                        else if (n <? 240)%N
                        then VStr (String a (String b (String c EmptyString)))
                               :: string_chars rest2
                        else match rest2 with
                             | String d rest3 =>
                                 if negb (continuation d) || negb (n <? 248)%N then alone
                                 else
                                   let point :=
                                     ((n - 240) * 262144
                                      + (Ascii.N_of_ascii b - 128) * 4096
                                      + (Ascii.N_of_ascii c - 128) * 64
                                      + (Ascii.N_of_ascii d - 128) - 65536)%N in
                                   surrogate (55296 + point / 1024)
                                     :: surrogate (56320 + point mod 1024)
                                     :: string_chars rest3
                             | EmptyString => alone
                             end
                    | EmptyString => alone
                    end
           | EmptyString => alone
           end
  end.

Definition indexed (elems : list value) : list (string * value) :=
  imap (fun i v => (pretty i, v)) elems.

Definition spread (data : value) : list (string * value) :=
  match data with
  | VObj props => props
  | VArr elems => indexed elems
  | VStr s => indexed (string_chars s)
  | VUndefined | VNull | VBool _ | VNum _ => []
  end.

(** What one [emit] of these methods hands to the transport: the sockets
    it is for, the event name and the payload. *)
Record Emission : Type := mkEmission {
  recipients : gset string;
  eventName : string;
  payload : value
}.

Section Stamped.

(** [new Date(now).toISOString()], part of the runtime. *)
Variable toISOString : Z -> string.

(** [broadcastMessage(eventName, data)] *)
Definition broadcastMessage (now : Z) (name : string) (data : value) (s : SocketService)
  : Emission :=
  {| recipients := sockets s;
     eventName := name;
     payload :=
       VObj (set_prop "totalClients"
               (VNum (inject_Z (Z.of_nat (size (connectedClients s)))))
               (set_prop "timestamp" (VStr (toISOString now)) (spread data))) |}.

(** [sendToClient(clientId, eventName, data)] *)
Definition sendToClient (now : Z) (clientId name : string) (data : value) (s : SocketService)
  : bool * list Emission :=
  if decide (clientId ∈ sockets s)
  then (true,
        [ {| recipients := {[clientId]};
             eventName := name;
             payload := VObj (set_prop "timestamp" (VStr (toISOString now)) (spread data)) |} ])
  else (false, []).

End Stamped.

(** [getConnectionStats()]: the count, and for every entry of the
    registry its identity with its two dates (listed in the order of the
    finite map, which does not keep the order of insertion). *)
Definition getConnectionStats (s : SocketService) : nat * list (string * ClientInfo) :=
  (size (connectedClients s), map_to_list (connectedClients s)).

(** ** [LocationModel]: the read queries and the pruning *)

Module LocationModel.

(** How the engine answers a query that settles as [outcome]. *)
Definition engine {A} (outcome : settlement) (answer : result A) : result A :=
  match outcome with
  | Fulfilled => answer
  | Rejected error => Throws error
  end.

(** [getAll(limit, offset)]; the engine refuses a negative [LIMIT] or
    [OFFSET]. *)
Definition getAll (limit offset : Z) (p : Pool) (outcome : settlement)
  : M (list FrontendData) :=
  getAll_settled
    (engine outcome
       (if (limit <? 0)%Z then Throws (Error "LIMIT must not be negative")
        else if (offset <? 0)%Z then Throws (Error "OFFSET must not be negative")
        else Returns (select_recent (Z.to_nat limit) (Z.to_nat offset) p))).

(** [getLatest()]: [SELECT ... ORDER BY created_at DESC LIMIT 1], then
    [result.rows[0] || null]. *)
Definition getLatest (p : Pool) (outcome : settlement) : M (option FrontendData) :=
  try_catch
    (rows <- lift (engine outcome (Returns (select_recent 1 0 p))) ;;
     ret (head rows))
    (fun error => console ErrorLevel "Error al obtener último registro:" ;;; throw error).

(** [timestamp_value BETWEEN $1 AND $2] on a selected row. *)
Definition timestamp_between (startTime endTime : Z) (r : FrontendData) : bool :=
  match fd_timestamp_value r with
  | VNum q => Qle_bool (inject_Z startTime) q && Qle_bool q (inject_Z endTime)
  | _ => false
  end.

(** [a] comes strictly after [b] in [ORDER BY timestamp_value ASC]. *)
Definition timestamp_after (a b : FrontendData) : bool :=
  match fd_timestamp_value a, fd_timestamp_value b with
  | VNum x, VNum y => negb (Qle_bool x y)
  | _, _ => false
  end.

Fixpoint insert_earliest_first (r : FrontendData) (l : list FrontendData) : list FrontendData :=
  match l with
  | [] => [r]
  | x :: rest =>
      if timestamp_after x r then r :: l else x :: insert_earliest_first r rest
  end.

(** The engine's side of [SELECT id, latitude, longitude, timestamp_value,
    created_at FROM location_data WHERE timestamp_value BETWEEN $1 AND $2
    ORDER BY timestamp_value ASC]. *)
Definition select_range (startTime endTime : Z) (p : Pool) : list FrontendData :=
  fold_right insert_earliest_first []
    (List.filter (timestamp_between startTime endTime) (map select_columns (location_data p))).

(** [getByTimeRange(startTime, endTime)] *)
Definition getByTimeRange (startTime endTime : Z) (p : Pool) (outcome : settlement)
  : M (list FrontendData) :=
  try_catch
    (lift (engine outcome (Returns (select_range startTime endTime p))))
    (fun error =>
       console ErrorLevel "Error al obtener registros por rango de tiempo:" ;;; throw error).

(** [getCount()]: [SELECT COUNT( * )], then [parseInt] of the total. *)
Definition getCount (p : Pool) (outcome : settlement) : M Z :=
  try_catch
    (lift (engine outcome (Returns (Z.of_nat (length (location_data p))))))
    (fun error => console ErrorLevel "Error al obtener conteo de registros:" ;;; throw error).

(** A day in milliseconds: the twenty-four hours it lasts where the
    session's time zone has no clock changes. *)
Definition day : Z := 24 * 60 * 60 * 1000.

(** [created_at < NOW() - INTERVAL 'daysOld days'] *)
Definition old (now daysOld : Z) (row : Row) : bool :=
  (created_at row <? now - daysOld * day)%Z.

(** [deleteOldRecords(daysOld)]: the [rowCount] of the [DELETE], and the
    table it leaves. *)
Definition deleteOldRecords (now daysOld : Z) (p : Pool) (outcome : settlement)
  : M Z * Pool :=
  match outcome with
  | Fulfilled =>
      (ret (Z.of_nat (length (List.filter (old now daysOld) (location_data p)))),
       {| location_data := List.filter (fun row => negb (old now daysOld row)) (location_data p);
          next_id := next_id p |})
  | Rejected error =>
      (console ErrorLevel "Error al eliminar registros antiguos:" ;;; throw error, p)
  end.

End LocationModel.

(** ** [LocationController]: the HTTP handlers *)

Module LocationController.

(** What a handler passes to [res.json]. *)
Inductive body : Type :=
| Page (data : list FrontendData) (total limit offset : Z) (hasMore : bool)
| One (data : FrontendData)
| Range (data : list FrontendData) (count : nat)
| StatsOf (totalRecords : Z) (latestRecord : option FrontendData) (serverTime : Z)
| Failure (message : string) (error : option exn).

(** [res.status(status).json({ success, ... })] *)
Record Response : Type := mkResponse {
  status : Z;
  success : bool;
  content : body
}.

(** [x || d] on what [parseInt] gave: [NaN] and [0] are replaced. *)
Definition or_default (n : option Z) (d : Z) : Z :=
  match n with
  | None => d
  | Some k => if (k =? 0)%Z then d else k
  end.

(** [!x] on a query parameter: it is absent or empty. *)
Definition blank (x : option string) : bool :=
  match x with
  | None => true
  | Some s => String.eqb s EmptyString
  end.

Section Handlers.

(** [parseInt] on a query parameter, [None] for [NaN]; and whether
    [process.env.NODE_ENV] is ['development']. *)
Variable parseInt : option string -> option Z.
Variable development : bool.

(** The [catch (error)] block the handlers share, but for its console
    line. *)
Definition answer (where_ : string) (m : M Response) : list effect * Response :=
  match m with
  | (out, Returns r) => (out, r)
  | (out, Throws error) =>
      ((out ++ [Console ErrorLevel where_])%list,
       {| status := 500;
          success := false;
          content := Failure "Error interno del servidor"
                             (if development then Some error else None) |})
  end.

(** [getAllLocations]: [p1] is the table when [getAll] runs, [p2] when
    [getCount] does. *)
Definition getAllLocations (limit offset : option string)
    (p1 p2 : Pool) (outcome1 outcome2 : settlement) : list effect * Response :=
  answer "Error en getAllLocations:"
    (let limit := or_default (parseInt limit) 50 in
     let offset := or_default (parseInt offset) 0 in
     locations <- LocationModel.getAll limit offset p1 outcome1 ;;
     total <- LocationModel.getCount p2 outcome2 ;;
     ret {| status := 200;
            success := true;
            content := Page locations total limit offset
                            (offset + Z.of_nat (length locations) <? total)%Z |}).

(** [getLatestLocation] *)
Definition getLatestLocation (p : Pool) (outcome : settlement) : list effect * Response :=
  answer "Error en getLatestLocation:"
    (location <- LocationModel.getLatest p outcome ;;
     match location with
     | None =>
         ret {| status := 404;
                success := false;
                content := Failure "No se encontraron datos de ubicación" None |}
     | Some l => ret {| status := 200; success := true; content := One l |}
     end).

(** [getLocationsByTimeRange] *)
Definition getLocationsByTimeRange (startTime endTime : option string)
    (p : Pool) (outcome : settlement) : list effect * Response :=
  answer "Error en getLocationsByTimeRange:"
    (if blank startTime || blank endTime
     then ret {| status := 400;
                 success := false;
                 content := Failure "Los parámetros startTime y endTime son requeridos" None |}
     else
       match parseInt startTime, parseInt endTime with
       | Some start, Some end_ =>
           locations <- LocationModel.getByTimeRange start end_ p outcome ;;
           ret {| status := 200;
                  success := true;
                  content := Range locations (length locations) |}
       | _, _ =>
           ret {| status := 400;
                  success := false;
                  content := Failure "Los timestamps deben ser números válidos" None |}
       end).

(** [getStats]: [p1] is the table when [getCount] runs, [p2] when
    [getLatest] does. *)
Definition getStats (now : Z) (p1 p2 : Pool) (outcome1 outcome2 : settlement)
  : list effect * Response :=
  answer "Error en getStats:"
    (total <- LocationModel.getCount p1 outcome1 ;;
     latest <- LocationModel.getLatest p2 outcome2 ;;
     ret {| status := 200; success := true; content := StatsOf total latest now |}).

End Handlers.

End LocationController.

(** ** [corsMiddleware]: who may call the API *)

Module Cors.

(** The variables of [process.env] the policies read. *)
Record Env : Type := mkEnv {
  NODE_ENV : option string;
  FRONTEND_URL : option string;
  PRODUCTION_FRONTEND_URLS : option string
}.

(** Truthiness of a string that may be [undefined]. *)
Definition present (x : option string) : bool :=
  match x with
  | Some s => negb (String.eqb s EmptyString)
  | None => false
  end.

(** [x || d] *)
Definition env_or (x : option string) (d : string) : string :=
  match x with
  | Some s => if String.eqb s EmptyString then d else s
  | None => d
  end.

(** The comma. *)
Definition comma : Ascii.ascii := Ascii.ascii_of_nat 44.

(** [s.split(',')] *)
Fixpoint split_comma (s : string) : list string :=
  match s with
  | EmptyString => [EmptyString]
  | String c rest =>
      if Ascii.eqb c comma then EmptyString :: split_comma rest
      else match split_comma rest with
           | x :: xs => String c x :: xs
           | [] => [String c EmptyString]
           end
  end.

Definition isDevelopment (env : Env) : bool :=
  negb (bool_decide (NODE_ENV env = Some "production")).

(** [allowedOrigins] once [getCorsOptions] has filled it. *)
Definition allowedOrigins (env : Env) : list string :=
  ([ env_or (FRONTEND_URL env) "http://localhost:3001";
     "http://localhost:3000";
     "http://localhost:3001";
     "http://127.0.0.1:3001" ] ++
   (if negb (isDevelopment env) && present (PRODUCTION_FRONTEND_URLS env)
    then split_comma (default EmptyString (PRODUCTION_FRONTEND_URLS env))
    else []))%list.

(** What the [origin] function passes to its callback. *)
Inductive decision : Type :=
| Allow
| Deny (error : exn).

(** [origin: (origin, callback) => ...] of [getCorsOptions()]. *)
Definition origin (env : Env) (o : option string) : list effect * decision :=
  if negb (present o) then ([], Allow)
  else if isDevelopment env then ([], Allow)
  else if bool_decide (default EmptyString o ∈ allowedOrigins env) then ([], Allow)
  else ([Console WarnLevel ("Origin bloqueado por CORS: " ++ default EmptyString o)],
        Deny (Error "No permitido por política CORS")).

(** The [origin] member of [getSocketCorsOptions()]: ["*"] or a list. *)
Inductive socket_origin : Type :=
| AnyOrigin
| Origins (listed : list string).

Definition getSocketCorsOptions (env : Env) : socket_origin :=
  if isDevelopment env then AnyOrigin
  else Origins
         ([env_or (FRONTEND_URL env) "http://localhost:3001"] ++
          (if present (PRODUCTION_FRONTEND_URLS env)
           then split_comma (default EmptyString (PRODUCTION_FRONTEND_URLS env))
           else []))%list.

End Cors.

(** ** [useLocationTracker]: the state of the page *)

Module LocationTracker.

(** [location] and [newLocation]; a number that may be [NaN] is an
    option. *)
Record Location : Type := mkLocation {
  loc_id : value;
  loc_latitude : option Q;
  loc_longitude : option Q;
  loc_timestamp : option Z;
  formattedDate : string
}.

Record TrackerStats : Type := mkTrackerStats {
  totalReceived : Z;
  lastUpdateTime : option Z
}.

(** The four [useState] cells. *)
Record Tracker : Type := mkTracker {
  latestLocation : option Location;
  loading : bool;
  error : option string;
  stats : TrackerStats
}.

Definition initial : Tracker :=
  {| latestLocation := None;
     loading := true;
     error := None;
     stats := {| totalReceived := 0; lastUpdateTime := None |} |}.

(** How [fetch] and [response.json()] settle. *)
Inductive fetched : Type :=
| FetchRejected (e : exn)
| Responded (status : Z) (statusText : string) (json : result value).

(** [response.ok] *)
Definition ok (status : Z) : bool := (200 <=? status)%Z && (status <=? 299)%Z.

(** What [App] renders. *)
Inductive screen : Type :=
| LoadingSpinner
| ErrorMessage (message : string)
| LocationShown (location : Location)
| Waiting.

(** The conditional chain of [<main>]. *)
Definition view (t : Tracker) : screen :=
  if loading t then LoadingSpinner
  else match error t with
       | Some e =>
           if negb (String.eqb e EmptyString) then ErrorMessage e
           else match latestLocation t with
                | Some l => LocationShown l
                | None => Waiting
                end
       | None =>
           match latestLocation t with
           | Some l => LocationShown l
           | None => Waiting
           end
       end.

Section Runtime.

(** The runtime's [parseFloat], [parseInt] and [Date.prototype.
    toLocaleString], and the [message] of an error the runtime raised. *)
Variable parseFloat : value -> option Q.
Variable parseInt : value -> option Z.
Variable toLocaleString : option Z -> string.
Variable runtime_message : exn -> string.

(** [err.message] *)
Definition message (e : exn) : string :=
  match e with
  | Error m => m
  | _ => runtime_message e
  end.

(** The object literal both handlers build from [data.data]. *)
Definition toLocation (d : value) : M Location :=
  i <- lift (get d "id") ;;
  la <- lift (get d "latitude") ;;
  lo <- lift (get d "longitude") ;;
  ts <- lift (get d "timestamp_value") ;;
  ret {| loc_id := i;
         loc_latitude := parseFloat la;
         loc_longitude := parseFloat lo;
         loc_timestamp := parseInt ts;
         formattedDate := toLocaleString (parseInt ts) |}.

(** [handleLocationUpdate(data)], run at time [now]. *)
Definition handleLocationUpdate (now : Z) (data : value) (t : Tracker) : M Tracker :=
  console LogLevel "Nueva ubicación recibida vía WebSocket:" ;;;
  d <- lift (get data "data") ;;
  if truthy d
  then newLocation <- toLocation d ;;
       console LogLevel "Ubicación actualizada en el estado local" ;;;
       ret {| latestLocation := Some newLocation;
              loading := loading t;
              error := None;
              stats := {| totalReceived := totalReceived (stats t) + 1;
                          lastUpdateTime := Some now |} |}
  else ret t.

(** [fetchInitialData] up to its first [await]. *)
Definition fetchInitialData_begin (t : Tracker) : list effect * Tracker :=
  ([Console LogLevel "Obteniendo datos iniciales..."],
   {| latestLocation := latestLocation t; loading := true; error := None; stats := stats t |}).

Definition with_loading (t : Tracker) (b : bool) : Tracker :=
  {| latestLocation := latestLocation t; loading := b; error := error t; stats := stats t |}.

(** The [try] block of [fetchInitialData] after [fetch] has settled. *)
Definition fetchInitialData_try (now : Z) (f : fetched) (t : Tracker) : M Tracker :=
  match f with
  | FetchRejected e => throw e
  | Responded status statusText json =>
      if negb (ok status)
      then if (status =? 404)%Z
           then console LogLevel "No hay datos iniciales disponibles en la base de datos." ;;;
                ret (with_loading t false)
           else throw (Error ("HTTP " ++ pretty status ++ ": " ++ statusText))
      else
        data <- lift json ;;
        success <- lift (get data "success") ;;
        if truthy success
        then d <- lift (get data "data") ;;
             if truthy d
             then location <- toLocation d ;;
                  console LogLevel "Datos iniciales cargados:" ;;;
                  ret {| latestLocation := Some location;
                         loading := loading t;
                         error := error t;
                         stats := {| totalReceived := 1; lastUpdateTime := Some now |} |}
             else ret t
        else ret t
  end.

(** [fetchInitialData] once [fetch] has settled: the [try], the [catch]
    and the [finally]. *)
Definition fetchInitialData_settled (now : Z) (f : fetched) (t : Tracker)
  : list effect * Tracker :=
  match fetchInitialData_try now f t with
  | (out, Returns t') => (out, with_loading t' false)
  | (out, Throws err) =>
      ((out ++ [Console ErrorLevel "Error obteniendo datos iniciales:"])%list,
       {| latestLocation := latestLocation t;
          loading := false;
          error := Some ("Error de conexión: " ++ message err);
          stats := stats t |})
  end.

(** [refresh()], from the click to the settled request. *)
Definition fetchInitialData (now : Z) (f : fetched) (t : Tracker) : list effect * Tracker :=
  let '(out, t1) := fetchInitialData_begin t in
  let '(out', t2) := fetchInitialData_settled now f t1 in
  ((out ++ out')%list, t2).

(** The packets of [location-update], handed to the handler one after
    another; a handler that throws leaves the state as it found it. *)
Fixpoint receive (packets : list (Z * value)) (t : Tracker) : Tracker :=
  match packets with
  | [] => t
  | (now, data) :: rest =>
      match handleLocationUpdate now data t with
      | (_, Returns t') => receive rest t'
      | (_, Throws _) => receive rest t
      end
  end.

End Runtime.

End LocationTracker.

(** ** [UDPService.sendTestData] *)

(** [testData], with [now] for [Date.now()]. *)
Definition testData (now : Z) : value :=
  VObj [("lat", VNum (374219983 # 10000000));
        ("lon", VNum (-122084 # 1000));
        ("time", VNum (inject_Z now));
        ("acc", VNum 5);
        ("alt", VNum 5);
        ("spd", VNum 0);
        ("prov", VStr "fused")].

(** ** Vocabulary of the properties *)

(** The field [k] of a decoded payload; [undefined] when the payload has
    no such field (or is not an object at all). *)
Definition field (data : value) (k : string) : value :=
  match data with
  | VObj props => own props k
  | _ => VUndefined
  end.

Definition is_number (v : value) : Prop := exists q, v = VNum q.

(** A report the data model accepts: [lat], [lon] and [time] are numbers,
    [lat] within [-90, 90] and [lon] within [-180, 180]. *)
Definition acceptable (data : value) : Prop :=
  exists la lo t,
    field data "lat" = VNum la /\ field data "lon" = VNum lo /\ field data "time" = VNum t /\
    (-90 <= la)%Q /\ (la <= 90)%Q /\ (-180 <= lo)%Q /\ (lo <= 180)%Q.

(** A report the data model refuses: a required field is missing or is
    not a number, or a coordinate is out of range. *)
Definition unacceptable (data : value) : Prop :=
  (exists k, k ∈ requiredFields /\ ~ is_number (field data k)) \/
  (exists la, field data "lat" = VNum la /\ (la < -90 \/ 90 < la)%Q) \/
  (exists lo, field data "lon" = VNum lo /\ (lo < -180 \/ 180 < lo)%Q).

(** The parameters [LocationModel.create] binds for an object. *)
Definition bound_values (data : value) : list value :=
  [ field data "lat"; field data "lon"; field data "time";
    logical_or (field data "acc") VNull; logical_or (field data "alt") VNull;
    logical_or (field data "spd") VNull; logical_or (field data "prov") VNull ].

(** The same test as a computation. *)
Definition acceptableb (data : value) : bool :=
  match field data "lat", field data "lon", field data "time" with
  | VNum la, VNum lo, VNum _ =>
      Qle_bool (-90) la && Qle_bool la 90 && Qle_bool (-180) lo && Qle_bool lo 180
  | _, _, _ => false
  end.

Definition is_console (e : effect) : Prop :=
  match e with
  | Console _ _ => True
  | _ => False
  end.

(** The store calls among some effects: the parameters of each query. *)
Definition store_calls (out : list effect) : list (list value) :=
  flat_map (fun e => match e with PoolQuery InsertLocation values => [values] | _ => [] end) out.

(** What reaches the socket [socketId] among some effects. *)
Definition inbox (socketId : string) (out : list effect) : list (string * packet) :=
  flat_map (fun e =>
              match e with
              | SocketEmit to eventName payload =>
                  if decide (to = socketId) then [(eventName, payload)] else []
              | IoEmit recipients eventName payload =>
                  if decide (socketId ∈ recipients) then [(eventName, payload)] else []
              | _ => []
              end) out.

(** Everything but the console lines. *)
Definition actions (out : list effect) : list effect :=
  flat_map (fun e => match e with Console _ _ => [] | _ => [e] end) out.

(** The projection of a stored row that the listener hands to the hub. *)
Definition projection (row : Row) : FrontendData :=
  {| fd_id := id row;
     fd_latitude := latitude row;
     fd_longitude := longitude row;
     fd_timestamp_value := timestamp_value row;
     fd_created_at := created_at row |}.

(** In the words of the specification: the age of the session's last
    activity exceeds a threshold of [minutes] minutes. *)
Definition exceeds_threshold (now minutes : Z) (clientInfo : ClientInfo) : Prop :=
  minutes * 60000 < now - lastActivity clientInfo.

#[export] Instance exceeds_threshold_dec (now minutes : Z) (clientInfo : ClientInfo) :
  Decision (exceeds_threshold now minutes clientInfo).
Proof. unfold exceeds_threshold. apply _. Defined.

(** The sessions of an entry list that the reaper finds inactive, and the
    registry without a list of sessions. *)
Definition stale (now : Z) (maxInactiveMinutes : Q) (entries : list (string * ClientInfo))
  : list string :=
  map fst (List.filter (fun entry => inactive now maxInactiveMinutes (snd entry)) entries).

Definition delete_all (ids : list string) (m : gmap string ClientInfo) : gmap string ClientInfo :=
  fold_left (fun m k => delete k m) ids m.

(** A row without what the optional fields of its report held. *)
Definition without_optionals (row : Row) : Row :=
  {| id := id row;
     latitude := latitude row;
     longitude := longitude row;
     timestamp_value := timestamp_value row;
     accuracy := VNull;
     altitude := VNull;
     speed := VNull;
     provider := VNull;
     created_at := created_at row |}.

(** The event with the optional parameters of a settled store left out. *)
Definition blank_optionals (ev : event) : event :=
  match ev with
  | StoreSettles msg values outcome => StoreSettles msg (firstn 3 values) outcome
  | _ => ev
  end.

(** Two worlds that differ at most in what the stored rows hold for the
    optional fields. *)
Definition same_but_optionals (w w' : World) : Prop :=
  svc w = svc w' /\
  running w = running w' /\
  next_id (pool w) = next_id (pool w') /\
  map without_optionals (location_data (pool w)) =
  map without_optionals (location_data (pool w')).

(** The registry and the live sockets name the same sessions. *)
Definition registry_consistent (s : SocketService) : Prop :=
  dom (connectedClients s) = sockets s.

(** The worlds the server can be in: those some history of events leads
    to from the start. *)
Definition reachable (JSON_parse : string -> result value) (w : World) : Prop :=
  exists evs, w = fst (run JSON_parse evs initial_world).

(** The three ways the processing of a datagram fails: its text does not
    decode, the decoded report is refused, or the store rejects it. *)
Definition fails (JSON_parse : string -> result value) (ev : event) : Prop :=
  match ev with
  | UdpMessage msg _ =>
      match JSON_parse msg with
      | Throws _ => True
      | Returns data => ~ acceptable data
      end
  | StoreSettles _ _ (Rejected _) => True
  | _ => False
  end.

(** A member name between double quotes, and the text of a report with
    the three required members. *)
Definition quoted (k : string) : string :=
  String (Ascii.ascii_of_nat 34) (k ++ String (Ascii.ascii_of_nat 34) EmptyString).

Definition report_text (lat lon time : string) : string :=
  "{" ++ quoted "lat" ++ ":" ++ lat ++ "," ++ quoted "lon" ++ ":" ++ lon ++ ","
      ++ quoted "time" ++ ":" ++ time ++ "}".

(** The datagrams of the end-to-end scenarios. *)
Definition scenario_good : string := report_text "37.4219983" "-122.084" "1700000000000".
Definition scenario_bad_latitude : string := report_text "95" "0" "1700000000000".

(** The decoded reports of the two scenarios, and one whose optional
    fields are a zero accuracy, an altitude and an empty provider. *)
Definition good_report : value :=
  VObj [("lat", VNum (374219983 # 10000000));
        ("lon", VNum (-122084 # 1000));
        ("time", VNum (1700000000000 # 1))].

Definition bad_latitude_report : value :=
  VObj [("lat", VNum 95); ("lon", VNum 0); ("time", VNum (1700000000000 # 1))].

Definition report_with_optionals : value :=
  VObj [("lat", VNum (374219983 # 10000000));
        ("lon", VNum (-122084 # 1000));
        ("time", VNum (1700000000000 # 1));
        ("acc", VNum 0);
        ("alt", VNum 5);
        ("prov", VStr EmptyString)].

(** A decoder that knows the datagrams of the end-to-end scenarios and
    the text [null], and takes anything else for malformed; it stands in
    for [JSON_parse] where a concrete run is wanted. *)
Definition scenario_parse (msg : string) : result value :=
  if String.eqb msg scenario_good then Returns good_report
  else if String.eqb msg scenario_bad_latitude then Returns bad_latitude_report
  else if String.eqb msg "null" then Returns VNull
  else Throws SyntaxError.


(** Two sessions for the reaper at time 1800001 with the default
    threshold: ["old"] has been silent for thirty minutes and one
    millisecond, ["new"] for thirty minutes sharp. *)
Definition two_sessions : SocketService :=
  {| connectedClients :=
       <["old" := {| connectedAt := 0; lastActivity := 0 |}]>
         (<["new" := {| connectedAt := 0; lastActivity := 1 |}]> ∅);
     sockets := {["old"; "new"]} |}.

(** A hook whose socket carries the listeners [createSocket] attached. *)
Definition wired (h : UseSocket.Hook) : Prop :=
  exists socket,
    UseSocket.socketRef h = Some socket /\
    forall cb, cb ∈ UseSocket.own_callbacks -> cb ∈ UseSocket.callbacks socket.

(** The socket of a hook, or a closed one without listeners when the ref
    is empty. *)
Definition socket_of (h : UseSocket.Hook) : UseSocket.Socket :=
  match UseSocket.socketRef h with
  | Some socket => socket
  | None => {| UseSocket.connected := false; UseSocket.callbacks := [] |}
  end.

(** [k] reconnection attempts in a row, each announced and each failing,
    numbered from [start]. *)
Definition failed_attempts (start : nat) (k : nat) : list (Z * UseSocket.socket_event) :=
  flat_map (fun i => [(Z.of_nat i, UseSocket.OnReconnectAttempt (Z.of_nat i));
                      (Z.of_nat i, UseSocket.OnReconnectError)])
           (seq start k).

(** ** Vocabulary of the further properties *)

(** The first required field a payload lacks, in the order the validator
    looks. *)
Definition first_missing (data : value) : option string :=
  List.find (fun k => nullish (field data k)) requiredFields.

(** A broadcast that carries a count of clients carries the number of
    sockets it is sent to. *)
Definition counts_its_recipients (e : effect) : Prop :=
  match e with
  | IoEmit to _ (ClientCount n) | IoEmit to _ (NewLocation _ _ n) => n = size to
  | _ => True
  end.

(** Latest first, by [created_at]. *)
Definition latest_first (l : list FrontendData) : Prop :=
  StronglySorted (fun a b => fd_created_at b <= fd_created_at a) l.

(** Earliest first, by [timestamp_value]: nothing comes strictly after
    something that follows it. *)
Definition earliest_first (l : list FrontendData) : Prop :=
  StronglySorted (fun a b => LocationModel.timestamp_after a b = false) l.

(** A table of one row, for the runs of the read path. *)
Definition one_row_pool : Pool :=
  snd (insert_returning 1700000000105 (bound_values good_report) (pool initial_world)).

(** A [parseInt] that knows a few decimal texts, for the runs of the
    handlers. *)
Definition sample_parseInt (x : option string) : option Z :=
  match x with
  | Some "0" => Some 0
  | Some "5" => Some 5
  | Some "20" => Some 20
  | Some "1600000000000" => Some 1600000000000
  | Some "1800000000000" => Some 1800000000000
  | _ => None
  end.

(** [Number.MAX_SAFE_INTEGER]: up to it the handlers' arithmetic on page
    parameters is exact. *)
Definition MAX_SAFE_INTEGER : Z := 9007199254740991.

(** The handlers the hook tracks are the consumer's: the functions
    [createSocket] attaches are closures of its own, which no caller of
    [on] can name. *)
Definition consumer_handlers (h : UseSocket.Hook) : Prop :=
  forall eventName f,
    UseSocket.listenersRef h !! eventName = Some f -> exists ref, f = UseSocket.Handler ref.

(** A mounted hook, connected, on which a consumer follows one event. *)
Definition following : UseSocket.Hook :=
  fst (UseSocket.on "location-update" (UseSocket.Handler 1)
         (fst (UseSocket.deliver 5 UseSocket.OnConnect UseSocket.mounted))).

(** A [location-update] packet that carries a record: [data.data] can be
    read and is truthy. *)
Definition carries_data (p : Z * value) : bool :=
  match get (snd p) "data" with
  | Returns d => truthy d
  | Throws _ => false
  end.

(** A production environment with one deployed front end. *)
Definition production_env : Cors.Env :=
  {| Cors.NODE_ENV := Some "production";
     Cors.FRONTEND_URL := Some "https://tracker.example";
     Cors.PRODUCTION_FRONTEND_URLS := Some "https://a.example,https://b.example" |}.

(** The body of a successful [/api/locations/latest] answer. *)
Definition latest_answer : value :=
  VObj [("success", VBool true);
        ("data", VObj [("id", VNum 7);
                       ("latitude", VStr "37.4219983");
                       ("longitude", VStr "-122.084");
                       ("timestamp_value", VStr "1700000000000")])].




(** An answer the engine may give to [ORDER BY created_at DESC]: the
    selected rows in an order that is latest first, rows created at the
    same instant in any order. *)
Definition arrangement (p : Pool) (l : list FrontendData) : Prop :=
  l ≡ₚ map select_columns (location_data p) /\ latest_first l.

(** No two rows were created at the same instant. *)
Definition distinct_instants (p : Pool) : Prop :=
  NoDup (map created_at (location_data p)).

(** * Properties *)

(** ** The validator *)

Lemma acceptableb_spec (data : value) : acceptableb data = true <-> acceptable data.
Proof.
  unfold acceptableb, acceptable. split.
  - destruct (field data "lat") as [| | |la| | |]; try discriminate.
    destruct (field data "lon") as [| | |lo| | |]; try discriminate.
    destruct (field data "time") as [| | |t| | |]; try discriminate.
    rewrite !andb_true_iff, !Qle_bool_iff. intros [[[H1 H2] H3] H4].
    exists la, lo, t. tauto.
  - intros (la & lo & t & -> & -> & -> & H1 & H2 & H3 & H4).
    rewrite !andb_true_iff, !Qle_bool_iff. tauto.
Qed.

Lemma unacceptable_not_acceptable (data : value) : unacceptable data -> ~ acceptable data.
Proof.
  intros Hbad (la & lo & t & Hla & Hlo & Ht & H1 & H2 & H3 & H4).
  destruct Hbad as [(k & Hk & Hnum) | [(la' & Hla' & Hr) | (lo' & Hlo' & Hr)]].
  - apply Hnum. unfold requiredFields in Hk.
    rewrite !elem_of_cons in Hk. destruct Hk as [-> | [-> | [-> | Hk]]].
    + by exists la.
    + by exists lo.
    + by exists t.
    + by apply elem_of_nil in Hk.
  - rewrite Hla in Hla'. injection Hla' as <-.
    destruct Hr as [Hr | Hr]; [apply (Qlt_not_le _ _ Hr H1) | apply (Qlt_not_le _ _ Hr H2)].
  - rewrite Hlo in Hlo'. injection Hlo' as <-.
    destruct Hr as [Hr | Hr]; [apply (Qlt_not_le _ _ Hr H3) | apply (Qlt_not_le _ _ Hr H4)].
Qed.

(** A report is refused exactly when it is not accepted. *)
Lemma not_acceptable_unacceptable (data : value) : ~ acceptable data -> unacceptable data.
Proof.
  intros Hno. unfold unacceptable, requiredFields.
  destruct (field data "lat") as [| | |la| | |] eqn:Hla;
    try (left; exists "lat"; split; [set_solver | rewrite Hla; intros [q Hq]; discriminate]).
  destruct (field data "lon") as [| | |lo| | |] eqn:Hlo;
    try (left; exists "lon"; split; [set_solver | rewrite Hlo; intros [q Hq]; discriminate]).
  destruct (field data "time") as [| | |t| | |] eqn:Ht;
    try (left; exists "time"; split; [set_solver | rewrite Ht; intros [q Hq]; discriminate]).
  right.
  destruct (Qlt_le_dec la (-90)) as [H1 | H1]; [left; exists la; tauto |].
  destruct (Qlt_le_dec 90 la) as [H2 | H2]; [left; exists la; tauto |].
  destruct (Qlt_le_dec lo (-180)) as [H3 | H3]; [right; exists lo; tauto |].
  destruct (Qlt_le_dec 180 lo) as [H4 | H4]; [right; exists lo; tauto |].
  exfalso. apply Hno. exists la, lo, t. rewrite Hla, Hlo, Ht. tauto.
Qed.

(** On an object the validator answers, and its answer is the data
    model's test; all it does besides is write to the console. *)
Lemma validate_object (props : list (string * value)) :
  snd (validateLocationData (VObj props)) = Returns (acceptableb (VObj props)) /\
  Forall is_console (fst (validateLocationData (VObj props))).
Proof.
  unfold validateLocationData, required_present, requiredFields, acceptableb, field.
  cbn [get lift].
  generalize (own props "lat") (own props "lon") (own props "time").
  intros a b c.
  destruct a as [| | |la| | |], b as [| | |lo| | |], c as [| | |t| | |];
    cbn; try (split; [reflexivity | repeat constructor]).
  destruct (Qle_bool (-90) la), (Qle_bool la 90), (Qle_bool (-180) lo), (Qle_bool lo 180);
    cbn; split; try reflexivity; repeat constructor.
Qed.

(** The validator on any decoded payload: it throws on [null] (and
    [undefined]), otherwise it answers with the data model's test. *)
Lemma validate_cases (data : value) :
  (nullish data = true /\ validateLocationData data = ([], Throws TypeError)) \/
  (nullish data = false /\
   snd (validateLocationData data) = Returns (acceptableb data) /\
   Forall is_console (fst (validateLocationData data))).
Proof.
  destruct data as [| |b|q|s|elems|props];
    try (left; split; reflexivity);
    right; (split; [reflexivity |]);
    try (split; [reflexivity | repeat constructor]).
  apply validate_object.
Qed.

Lemma createLocation_begin_object (props : list (string * value)) :
  createLocation_begin (VObj props) =
  ([PoolQuery InsertLocation (bound_values (VObj props))], Returns (bound_values (VObj props))).
Proof. reflexivity. Qed.

Lemma acceptable_object (data : value) :
  acceptable data -> exists props, data = VObj props.
Proof.
  intros (la & lo & t & Hla & _). destruct data; try discriminate. eauto.
Qed.

Lemma Forall_console_app (out1 out2 : list effect) :
  Forall is_console out1 -> Forall is_console out2 -> Forall is_console (out1 ++ out2)%list.
Proof. intros. by apply Forall_app. Qed.

Lemma console_no_store (out : list effect) : Forall is_console out -> store_calls out = [].
Proof.
  induction 1 as [| e out He _ IH]; [reflexivity |].
  destruct e; try contradiction. exact IH.
Qed.

Lemma console_no_inbox (socketId : string) (out : list effect) :
  Forall is_console out -> inbox socketId out = [].
Proof.
  induction 1 as [| e out He _ IH]; [reflexivity |].
  destruct e; try contradiction. exact IH.
Qed.

Lemma console_no_actions (out : list effect) : Forall is_console out -> actions out = [].
Proof.
  induction 1 as [| e out He _ IH]; [reflexivity |].
  destruct e; try contradiction. exact IH.
Qed.

Lemma actions_app (out1 out2 : list effect) :
  actions (out1 ++ out2)%list = (actions out1 ++ actions out2)%list.
Proof. unfold actions. apply flat_map_app. Qed.

Lemma store_calls_app (out1 out2 : list effect) :
  store_calls (out1 ++ out2)%list = (store_calls out1 ++ store_calls out2)%list.
Proof. unfold store_calls. apply flat_map_app. Qed.

Lemma inbox_app (socketId : string) (out1 out2 : list effect) :
  inbox socketId (out1 ++ out2)%list = (inbox socketId out1 ++ inbox socketId out2)%list.
Proof. unfold inbox. apply flat_map_app. Qed.

Section ListenerFacts.

Variable JSON_parse : string -> result value.

Ltac run_monad :=
  cbv beta iota delta [message_received message_resumed message_catch bind try_catch lift
                       console tell ret throw createLocation_settled create_settled
                       broadcastNewLocation].

(** A datagram that does not decode is dropped by the [catch] block. *)
Lemma message_received_undecodable (msg rinfo : string) (e : exn) :
  JSON_parse msg = Throws e ->
  exists out, message_received JSON_parse msg rinfo = (out, Returns Completed) /\
              Forall is_console out.
Proof.
  intros Hparse. run_monad. rewrite Hparse.
  destruct e; eexists; (split; [reflexivity | repeat constructor]).
Qed.

(** A decoded payload the data model refuses is dropped as well. *)
Lemma message_received_refused (msg rinfo : string) (data : value) :
  JSON_parse msg = Returns data -> acceptableb data = false ->
  exists out, message_received JSON_parse msg rinfo = (out, Returns Completed) /\
              Forall is_console out.
Proof.
  intros Hparse Hno. run_monad. rewrite Hparse.
  destruct (validate_cases data) as [[_ Hv] | (_ & Hv & Hout)].
  - rewrite Hv. eexists; split; [reflexivity | repeat constructor].
  - destruct (validateLocationData data) as [out r]. cbn in Hv, Hout. subst r.
    rewrite Hno. cbn. eexists; split; [reflexivity |].
    repeat (constructor; [exact I |]). apply Forall_console_app; [done | repeat constructor].
Qed.

(** A payload the data model accepts reaches the store: the listener
    issues one query with the bound parameters and waits for it. *)
Lemma message_received_accepted (msg rinfo : string) (data : value) :
  JSON_parse msg = Returns data -> acceptableb data = true ->
  exists out,
    message_received JSON_parse msg rinfo =
      ((out ++ [PoolQuery InsertLocation (bound_values data)])%list,
       Returns (AwaitingCreate (bound_values data))) /\
    Forall is_console out.
Proof.
  intros Hparse Hyes.
  destruct (acceptable_object data) as [props ->]; [by apply acceptableb_spec |].
  run_monad. rewrite Hparse.
  destruct (validate_object props) as [Hv Hout].
  destruct (validateLocationData (VObj props)) as [out r]. cbn in Hv, Hout. subst r.
  rewrite Hyes, createLocation_begin_object. cbn [negb].
  exists ([Console LogLevel "=== UDP Message Received ===";
           Console LogLevel ("From: " ++ rinfo);
           Console LogLevel ("Raw message: " ++ msg);
           Console LogLevel "Parsed data:"] ++ out)%list.
  split.
  - reflexivity.
  - apply Forall_console_app; [repeat constructor | done].
Qed.

End ListenerFacts.

(** ** Doubles *)

Module DoubleFacts.
Import Double.

Lemma round_even_floor (q : Q) : Qfloor q <= round_even q <= Qfloor q + 1.
Proof.
  unfold round_even. destruct (Qcompare _ _); [destruct (Z.even _) | |]; lia.
Qed.

Lemma round_even_le (q q' : Q) : (q <= q')%Q -> round_even q <= round_even q'.
Proof.
  intros Hle. pose proof (Qfloor_resp_le _ _ Hle) as Hf.
  pose proof (round_even_floor q) as Hq. pose proof (round_even_floor q') as Hq'.
  destruct (Z.eq_dec (Qfloor q) (Qfloor q')) as [Heq | Hne]; [| lia].
  clear Hq Hq' Hf. unfold round_even. cbv zeta. rewrite <- Heq. clear Heq.
  set (f := Qfloor q). set (x := inject_Z f). clearbody x.
  destruct (Qcompare_spec (q - x) (1 # 2)) as [H | H | H];
    destruct (Qcompare_spec (q' - x) (1 # 2)) as [H' | H' | H'];
    try destruct (Z.even f); try lia; exfalso; lra.
Qed.

Lemma round_even_Z (n : Z) : round_even (inject_Z n) = n.
Proof.
  unfold round_even. rewrite Qfloor_Z.
  set (x := inject_Z n).
  destruct (Qcompare_spec (x - x) (1 # 2)) as [H | H | H]; [| reflexivity |];
    exfalso; clearbody x; lra.
Qed.

Lemma round_even_comp (q q' : Q) : q == q' -> round_even q = round_even q'.
Proof.
  intros Heq. apply Z.le_antisymm; apply round_even_le; rewrite Heq; apply Qle_refl.
Qed.

Lemma pow2_pos (e : Z) : (0 < 2 ^ e)%Q.
Proof. apply Qpower_0_lt. reflexivity. Qed.

Lemma pow2_add (a b : Z) : (2 ^ (a + b) == 2 ^ a * 2 ^ b)%Q.
Proof. apply Qpower_plus. discriminate. Qed.

Lemma pow2_Z (k : Z) : 0 <= k -> (inject_Z (2 ^ k) == 2 ^ k)%Q.
Proof. intros Hk. apply (Zpower_Qpower 2 k Hk). Qed.

Lemma pow2_le (a b : Z) : a <= b -> (2 ^ a <= 2 ^ b)%Q.
Proof. intros H. apply Qpower_le_compat_l; [exact H | discriminate]. Qed.

Lemma pow2_lt_inv (a b : Z) : (2 ^ a < 2 ^ b)%Q -> a < b.
Proof. intros H. apply (Qpower_lt_compat_l_inv 2); [exact H | reflexivity]. Qed.

Lemma pow2_opp (a : Z) : (2 ^ (- a) == / 2 ^ a)%Q.
Proof. apply Qpower_opp. Qed.

Lemma ilog2_spec (a : Q) :
  (0 < a)%Q -> (2 ^ ilog2 a <= a)%Q /\ (a < 2 ^ (ilog2 a + 1))%Q.
Proof.
  intros Ha. unfold ilog2. destruct (Qle_bool 1 a) eqn:Hone.
  - apply Qle_bool_iff in Hone.
    assert (1 <= Qfloor a) as Hn.
    { change 1 with (Qfloor 1). by apply Qfloor_resp_le. }
    destruct (Z.log2_spec (Qfloor a)) as [Hlo Hhi]; [lia |].
    pose proof (Z.log2_nonneg (Qfloor a)) as Hl.
    split.
    + rewrite <- pow2_Z by exact Hl.
      apply Qle_trans with (inject_Z (Qfloor a)); [| apply Qfloor_le].
      rewrite <- Zle_Qle. exact Hlo.
    + rewrite <- pow2_Z by lia.
      apply Qlt_le_trans with (inject_Z (Qfloor a + 1)); [apply Qlt_floor |].
      rewrite <- Zle_Qle. change (Z.log2 (Qfloor a) + 1) with (Z.succ (Z.log2 (Qfloor a))). lia.
  - assert (a < 1)%Q as Hlt.
    { apply Qnot_le_lt. intros Hle. apply Qle_bool_iff in Hle. congruence. }
    set (x := (/ a)%Q).
    assert (0 < x)%Q as Hx by (by apply Qinv_lt_0_compat).
    assert (1 < x)%Q as Hx1.
    { unfold x. apply Qlt_shift_inv_l; [exact Ha | lra]. }
    set (c := Qceiling x).
    assert (1 < c) as Hc.
    { apply Z.lt_le_trans with (Qceiling x); [| unfold c; lia].
      rewrite Zlt_Qlt. apply Qlt_le_trans with x; [exact Hx1 | apply Qle_ceiling]. }
    destruct (Z.log2_up_spec c Hc) as [Hlo Hhi].
    pose proof (Z.log2_up_pos c Hc) as Hk.
    set (k := Z.log2_up c) in *.
    assert (a == / x)%Q as Hax by (unfold x; by rewrite Qinv_involutive).
    split.
    + rewrite pow2_opp, Hax.
      assert (x <= 2 ^ k)%Q as Hxk.
      { apply Qle_trans with (inject_Z c); [apply Qle_ceiling |].
        rewrite <- pow2_Z by lia. rewrite <- Zle_Qle. exact Hhi. }
      apply Qle_shift_inv_r; [apply pow2_pos |].
      assert (1 == / x * x)%Q as -> by (field; lra).
      apply Qmult_le_l; [by apply Qinv_lt_0_compat | exact Hxk].
    + replace (- k + 1) with (- (k - 1)) by lia. rewrite pow2_opp, Hax.
      assert (2 ^ (k - 1) < x)%Q as Hxk.
      { apply Qle_lt_trans with (inject_Z (c - 1)); [| apply Qceiling_lt].
        rewrite <- pow2_Z by lia. rewrite <- Zle_Qle.
        replace (k - 1) with (Z.pred k) by lia. lia. }
      exact (proj1 (Qinv_lt_contravar (2 ^ (k - 1)) x (pow2_pos _) Hx) Hxk).
Qed.

(** The scaled significand lies in [2^52, 2^53). *)
Lemma significand_range (a : Q) :
  (0 < a)%Q ->
  (2 ^ 52 <= a / 2 ^ (ilog2 a - 52))%Q /\ (a / 2 ^ (ilog2 a - 52) < 2 ^ 53)%Q.
Proof.
  intros Ha. destruct (ilog2_spec a Ha) as [Hlo Hhi].
  pose proof (pow2_pos (ilog2 a - 52)) as He.
  split.
  - apply Qle_shift_div_l; [exact He |].
    rewrite <- pow2_add. by replace (52 + (ilog2 a - 52)) with (ilog2 a) by lia.
  - apply Qlt_shift_div_r; [exact He |].
    rewrite <- pow2_add. by replace (53 + (ilog2 a - 52)) with (ilog2 a + 1) by lia.
Qed.

Lemma round_positive_range (a : Q) :
  (0 < a)%Q ->
  (2 ^ ilog2 a <= round_positive a)%Q /\ (round_positive a <= 2 ^ (ilog2 a + 1))%Q.
Proof.
  intros Ha. destruct (significand_range a Ha) as [Hlo Hhi].
  pose proof (pow2_pos (ilog2 a - 52)) as He.
  unfold round_positive. cbv zeta.
  set (e := ilog2 a - 52) in *. set (s := (a / 2 ^ e)%Q) in *.
  assert (2 ^ 52 <= round_even s <= 2 ^ 53)%Z as [Hn1 Hn2].
  { split.
    - rewrite <- (round_even_Z (2 ^ 52)). apply round_even_le.
      by rewrite pow2_Z.
    - rewrite <- (round_even_Z (2 ^ 53)). apply round_even_le.
      rewrite pow2_Z by done. by apply Qlt_le_weak. }
  split.
  - replace (ilog2 a) with (52 + e) by (unfold e; lia). rewrite pow2_add.
    apply Qmult_le_compat_r; [| by apply Qlt_le_weak].
    rewrite <- pow2_Z by done. by rewrite <- Zle_Qle.
  - replace (ilog2 a + 1) with (53 + e) by (unfold e; lia). rewrite pow2_add.
    apply Qmult_le_compat_r; [| by apply Qlt_le_weak].
    rewrite <- pow2_Z by done. by rewrite <- Zle_Qle.
Qed.

Lemma round_positive_pos (a : Q) : (0 < a)%Q -> (0 < round_positive a)%Q.
Proof.
  intros Ha. destruct (round_positive_range a Ha) as [Hlo _].
  eapply Qlt_le_trans; [apply pow2_pos | exact Hlo].
Qed.

Lemma round_positive_le (a b : Q) :
  (0 < a)%Q -> (a <= b)%Q -> (round_positive a <= round_positive b)%Q.
Proof.
  intros Ha Hab. assert (0 < b)%Q as Hb by lra.
  destruct (ilog2_spec a Ha) as [Ha1 Ha2]. destruct (ilog2_spec b Hb) as [Hb1 Hb2].
  assert (ilog2 a < ilog2 b + 1) as He.
  { apply pow2_lt_inv. lra. }
  destruct (Z.eq_dec (ilog2 a) (ilog2 b)) as [Heq | Hne].
  - unfold round_positive. cbv zeta. rewrite <- Heq.
    pose proof (pow2_pos (ilog2 a - 52)) as Hp.
    apply Qmult_le_compat_r; [| by apply Qlt_le_weak].
    rewrite <- Zle_Qle. apply round_even_le.
    apply Qmult_le_compat_r; [exact Hab |].
    apply Qlt_le_weak, Qinv_lt_0_compat, Hp.
  - destruct (round_positive_range a Ha) as [_ Hra].
    destruct (round_positive_range b Hb) as [Hrb _].
    apply Qle_trans with (2 ^ (ilog2 a + 1))%Q; [exact Hra |].
    apply Qle_trans with (2 ^ ilog2 b)%Q; [| exact Hrb].
    apply pow2_le. lia.
Qed.

Lemma Qcompare_Lt (q : Q) : (q < 0)%Q -> Qcompare q 0 = Lt.
Proof. intros H. by apply Qlt_alt. Qed.

Lemma Qcompare_Gt (q : Q) : (0 < q)%Q -> Qcompare q 0 = Gt.
Proof. intros H. by apply Qgt_alt. Qed.

Lemma Qcompare_Eq (q : Q) : q == 0 -> Qcompare q 0 = Eq.
Proof. intros H. by apply Qeq_alt. Qed.

(** Rounding is monotone. *)
Lemma round_le (q q' : Q) : (q <= q')%Q -> (round q <= round q')%Q.
Proof.
  intros Hle. unfold round.
  destruct (Qcompare_spec q 0) as [Hq | Hq | Hq];
    destruct (Qcompare_spec q' 0) as [Hq' | Hq' | Hq']; try (exfalso; lra).
  - apply Qle_refl.
  - apply Qlt_le_weak, round_positive_pos, Hq'.
  - assert (0 < round_positive (- q))%Q by (apply round_positive_pos; lra). lra.
  - assert (round_positive (- q') <= round_positive (- q))%Q
      by (apply round_positive_le; lra).
    lra.
  - assert (0 < round_positive (- q))%Q by (apply round_positive_pos; lra).
    assert (0 < round_positive q')%Q by (by apply round_positive_pos). lra.
  - by apply round_positive_le.
Qed.

Lemma round_comp (q q' : Q) : q == q' -> round q == round q'.
Proof.
  intros Heq. apply Qle_antisym; apply round_le; rewrite Heq; apply Qle_refl.
Qed.

(** A number with a significand of at most 53 bits is its own rounding. *)
Lemma round_positive_exact (n e : Z) :
  (0 < n < 2 ^ 53)%Z ->
  round_positive (inject_Z n * 2 ^ e) == inject_Z n * 2 ^ e.
Proof.
  intros [Hn1 Hn2]. pose proof (pow2_pos e) as Hpe.
  set (a := (inject_Z n * 2 ^ e)%Q).
  assert (0 < a)%Q as Ha.
  { unfold a. apply Qmult_lt_0_compat; [| exact Hpe]. by rewrite <- (Zlt_Qlt 0). }
  destruct (ilog2_spec a Ha) as [Hlo _].
  assert (a < 2 ^ (53 + e))%Q as Hhi.
  { unfold a. rewrite pow2_add. apply Qmult_lt_compat_r; [exact Hpe |].
    rewrite <- pow2_Z by done. by rewrite <- Zlt_Qlt. }
  assert (ilog2 a < 53 + e) as He by (apply pow2_lt_inv; lra).
  unfold round_positive. cbv zeta. set (E := ilog2 a - 52).
  assert (0 <= e - E) as Hd by (unfold E; lia).
  assert (2 ^ e == 2 ^ (e - E) * 2 ^ E)%Q as Hsplit.
  { rewrite <- pow2_add. by replace (e - E + E) with e by lia. }
  pose proof (pow2_pos E) as HpE.
  assert (a / 2 ^ E == inject_Z (n * 2 ^ (e - E)))%Q as Hs.
  { rewrite inject_Z_mult, pow2_Z by exact Hd. unfold a. rewrite Hsplit.
    field. lra. }
  rewrite (round_even_comp _ _ Hs), round_even_Z.
  rewrite inject_Z_mult, pow2_Z by exact Hd. unfold a. rewrite Hsplit. ring.
Qed.

Lemma round_exact (n e : Z) :
  (Z.abs n < 2 ^ 53)%Z -> round (inject_Z n * 2 ^ e) == inject_Z n * 2 ^ e.
Proof.
  intros Hn. pose proof (pow2_pos e) as Hpe. unfold round.
  destruct (Z.lt_trichotomy n 0) as [Hneg | [-> | Hpos]].
  - assert (inject_Z n < inject_Z 0)%Q as Hq by (by rewrite <- Zlt_Qlt).
    change (inject_Z 0) with 0%Q in Hq.
    assert (inject_Z n * 2 ^ e < 0)%Q as Hlt.
    { assert (inject_Z n * 2 ^ e < 0 * 2 ^ e)%Q by (by apply Qmult_lt_compat_r). lra. }
    rewrite (Qcompare_Lt _ Hlt).
    assert (- (inject_Z n * 2 ^ e) == inject_Z (- n) * 2 ^ e)%Q as Hopp
      by (rewrite inject_Z_opp; ring).
    assert (round_positive (- (inject_Z n * 2 ^ e)) == round_positive (inject_Z (- n) * 2 ^ e))
      as Hrp by (apply Qle_antisym; apply round_positive_le; lra).
    rewrite Hrp, round_positive_exact by lia. rewrite inject_Z_opp. ring.
  - rewrite Qcompare_Eq by ring. ring.
  - assert (0 < inject_Z n * 2 ^ e)%Q as Hgt.
    { apply Qmult_lt_0_compat; [| exact Hpe]. by rewrite <- (Zlt_Qlt 0). }
    rewrite (Qcompare_Gt _ Hgt). apply round_positive_exact. lia.
Qed.

Lemma round_Z (n : Z) : (Z.abs n < 2 ^ 53)%Z -> round (inject_Z n) == inject_Z n.
Proof.
  intros Hn. rewrite (round_comp (inject_Z n) (inject_Z n * 2 ^ 0)) by (cbn; ring).
  rewrite round_exact by exact Hn. cbn. ring.
Qed.

End DoubleFacts.

(** ** The reaper *)

Section Reaper.

Variables (now : Z) (maxInactiveMinutes : Q).

Lemma delete_all_lookup (ids : list string) (m : gmap string ClientInfo) (k : string) :
  delete_all ids m !! k = if decide (k ∈ ids) then None else m !! k.
Proof.
  revert m. induction ids as [| i ids IH]; intros m; cbn.
  - reflexivity.
  - fold (delete_all ids (delete i m)). rewrite IH.
    destruct (decide (k = i)) as [-> | Hne].
    + rewrite lookup_delete_eq.
      destruct (decide (i ∈ ids)), (decide (i ∈ i :: ids)); try reflexivity;
        exfalso; set_solver.
    + rewrite lookup_delete_ne by done.
      destruct (decide (k ∈ ids)), (decide (k ∈ i :: ids)); try reflexivity;
        exfalso; set_solver.
Qed.

(** A turn of the loop on an inactive session. *)
Lemma cleanup_entry_inactive (s : SocketService) (out : list effect) (c : nat)
    (k : string) (ci : ClientInfo) :
  inactive now maxInactiveMinutes ci = true ->
  exists extra,
    cleanup_entry now maxInactiveMinutes (s, out, c) (k, ci) =
      ({| connectedClients := delete k (connectedClients s); sockets := sockets s ∖ {[k]} |},
       (out ++ extra)%list, S c) /\
    (forall socketId, ForceDisconnect socketId ∈ extra <-> socketId = k /\ k ∈ sockets s).
Proof.
  intros Hin. unfold cleanup_entry. rewrite Hin.
  destruct (decide (k ∈ sockets s)) as [Hk | Hk].
  - eexists. split.
    + cbn. rewrite delete_delete_eq. reflexivity.
    + intros socketId. rewrite !elem_of_cons, elem_of_nil. split.
      * intros [Heq | [Heq | [Heq | []]]]; try discriminate. by injection Heq as ->.
      * intros [-> _]. by left.
  - exists []. split.
    + cbn. f_equal. f_equal. f_equal. apply set_eq. set_solver.
    + intros socketId. rewrite elem_of_nil. tauto.
Qed.

(** The whole loop, from any point. *)
Lemma cleanup_loop (entries : list (string * ClientInfo)) :
  forall (s : SocketService) (out : list effect) (c : nat),
  exists extra,
    fold_left (cleanup_entry now maxInactiveMinutes) entries (s, out, c) =
      ({| connectedClients := delete_all (stale now maxInactiveMinutes entries) (connectedClients s);
          sockets := sockets s ∖ list_to_set (stale now maxInactiveMinutes entries) |},
       (out ++ extra)%list,
       (c + length (stale now maxInactiveMinutes entries))%nat) /\
    (forall socketId,
        ForceDisconnect socketId ∈ extra <->
        socketId ∈ stale now maxInactiveMinutes entries /\ socketId ∈ sockets s).
Proof.
  induction entries as [| [k ci] entries IH]; intros s out c.
  - exists []. split.
    + cbn. destruct s as [m live]. cbn. rewrite app_nil_r, Nat.add_0_r.
      f_equal. f_equal. f_equal. apply set_eq. set_solver.
    + intros socketId. cbn. rewrite !elem_of_nil. tauto.
  - cbn [fold_left]. unfold stale. cbn [List.filter snd].
    destruct (inactive now maxInactiveMinutes ci) eqn:Hin.
    + destruct (cleanup_entry_inactive s out c k ci Hin) as (e1 & -> & He1).
      destruct (IH {| connectedClients := delete k (connectedClients s);
                      sockets := sockets s ∖ {[k]} |} (out ++ e1)%list (S c))
        as (e2 & -> & He2).
      exists (e1 ++ e2)%list. split.
      * cbn. fold (stale now maxInactiveMinutes entries). rewrite app_assoc.
        unfold delete_all.
        replace (sockets s ∖ {[k]} ∖ list_to_set (stale now maxInactiveMinutes entries))
          with (sockets s ∖ ({[k]} ∪ list_to_set (stale now maxInactiveMinutes entries)))
          by (apply set_eq; set_solver).
        by rewrite Nat.add_succ_r.
      * intros socketId. rewrite elem_of_app, He1, He2. cbn.
        fold (stale now maxInactiveMinutes entries). rewrite elem_of_cons.
        destruct (decide (socketId = k)) as [-> | Hne]; set_solver.
    + assert (cleanup_entry now maxInactiveMinutes (s, out, c) (k, ci) = (s, out, c)) as ->.
      { unfold cleanup_entry. by rewrite Hin. }
      apply IH.
Qed.

Lemma stale_elem (entries : list (string * ClientInfo)) (k : string) :
  k ∈ stale now maxInactiveMinutes entries <->
  exists ci, (k, ci) ∈ entries /\ inactive now maxInactiveMinutes ci = true.
Proof.
  unfold stale. rewrite list_elem_of_In, in_map_iff. split.
  - intros ([k' ci] & Hk & Hf). cbn in Hk. subst k'.
    apply filter_In in Hf as [Hin Hst]. exists ci. by rewrite list_elem_of_In.
  - intros (ci & Hin & Hst). exists (k, ci). split; [reflexivity |].
    apply filter_In. by rewrite <- list_elem_of_In.
Qed.

Lemma stale_registered (m : gmap string ClientInfo) (k : string) :
  k ∈ stale now maxInactiveMinutes (map_to_list m) <->
  exists ci, m !! k = Some ci /\ inactive now maxInactiveMinutes ci = true.
Proof. rewrite stale_elem. by setoid_rewrite elem_of_map_to_list. Qed.




(** The registry the reaper leaves: the sessions that are not inactive. *)
Lemma cleanup_registry (s : SocketService) :
  connectedClients (fst (fst (cleanupInactiveConnections now maxInactiveMinutes s))) =
  filter (fun entry => inactive now maxInactiveMinutes (snd entry) = false) (connectedClients s).
Proof.
  unfold cleanupInactiveConnections.
  destruct (cleanup_loop (map_to_list (connectedClients s)) s [] 0%nat) as (extra & -> & _).
  cbn. apply map_eq. intros k.
  rewrite delete_all_lookup, map_lookup_filter.
  destruct (decide (k ∈ stale now maxInactiveMinutes (map_to_list (connectedClients s))))
    as [Hk | Hk].
  - apply stale_registered in Hk as (ci & -> & Hst). cbn.
    rewrite option_guard_False; [done |]. cbn. by rewrite Hst.
  - destruct (connectedClients s !! k) as [ci |] eqn:Hlook; [| done]. cbn.
    rewrite option_guard_True; [done |]. cbn.
    destruct (inactive now maxInactiveMinutes ci) eqn:Hst; [| done].
    exfalso. apply Hk, stale_registered. eauto.
Qed.

End Reaper.



(** For a threshold of a whole number of minutes the roundings of the
    code do not show: a session is inactive exactly when the age of its
    last activity, in milliseconds, exceeds the threshold, strictly. *)
Lemma inactive_whole_minutes (now minutes : Z) (ci : ClientInfo) :
  Z.abs minutes < 2 ^ 37 ->
  inactive now (inject_Z minutes) ci = true <-> exceeds_threshold now minutes ci.
Proof.
  intros Hm. unfold inactive, inactiveMinutes, exceeds_threshold.
  rewrite negb_true_iff, <- not_true_iff_false, Qle_bool_iff.
  change (inject_Z (1000 * 60)) with (inject_Z 60000).
  set (d := now - lastActivity ci).
  assert (Double.round (inject_Z minutes) == inject_Z minutes)%Q as Hfm
    by (apply DoubleFacts.round_Z; lia).
  split.
  - intros Hno. apply Z.nle_gt. intros Hle. apply Hno.
    rewrite <- Hfm. apply DoubleFacts.round_le.
    apply Qle_shift_div_r; [reflexivity |].
    rewrite <- inject_Z_mult, <- (DoubleFacts.round_Z (minutes * 60000)) by lia.
    apply DoubleFacts.round_le. by rewrite <- Zle_Qle.
  - intros Hlt Hle.
    assert (inject_Z (minutes * 60000 + 1) <= Double.round (inject_Z d))%Q as Hd.
    { rewrite <- (DoubleFacts.round_Z (minutes * 60000 + 1)) by lia.
      apply DoubleFacts.round_le. rewrite <- Zle_Qle. lia. }
    set (y := (inject_Z (minutes * 65536 + 1) * 2 ^ (-16))%Q).
    assert (Double.round y == y)%Q as Hy by (apply DoubleFacts.round_exact; lia).
    assert (y == inject_Z minutes + (1 # 65536))%Q as Hyv.
    { unfold y. rewrite inject_Z_plus, inject_Z_mult.
      change (2 ^ (-16))%Q with (1 # 65536)%Q. change (inject_Z 65536) with (65536 # 1)%Q.
      change (inject_Z 1) with 1%Q. field. }
    assert (y <= Double.round (inject_Z d) / inject_Z 60000)%Q as Hq.
    { apply Qle_shift_div_l; [reflexivity |].
      eapply Qle_trans; [| exact Hd].
      rewrite Hyv, inject_Z_plus, inject_Z_mult.
      change (inject_Z 60000) with (60000 # 1)%Q. change (inject_Z 1) with 1%Q.
      generalize (inject_Z minutes). intros m. lra. }
    apply DoubleFacts.round_le in Hq. rewrite Hy, Hyv in Hq.
    generalize dependent (Double.round (Double.round (inject_Z d) / inject_Z 60000)).
    clear. generalize (inject_Z minutes). intros m r Hr Hq. lra.
Qed.

(** With any threshold that is a double, and dates less than [2^53] ms
    apart, the roundings never remove a session whose age is within the
    threshold. *)
Lemma inactive_beyond_threshold (now : Z) (maxInactiveMinutes : Q) (ci : ClientInfo) :
  Z.abs (now - lastActivity ci) < 2 ^ 53 ->
  (Double.round maxInactiveMinutes == maxInactiveMinutes)%Q ->
  inactive now maxInactiveMinutes ci = true ->
  (maxInactiveMinutes * inject_Z 60000 < inject_Z (now - lastActivity ci))%Q.
Proof.
  intros Hd Hdouble. unfold inactive, inactiveMinutes.
  rewrite negb_true_iff, <- not_true_iff_false, Qle_bool_iff.
  change (inject_Z (1000 * 60)) with (inject_Z 60000).
  intros Hno. apply Qnot_le_lt. intros Hle. apply Hno.
  rewrite <- Hdouble. apply DoubleFacts.round_le.
  rewrite (DoubleFacts.round_Z _ Hd).
  apply Qle_shift_div_r; [reflexivity | exact Hle].
Qed.

(** They can keep one that is beyond it by less than the rounding: with
    the double nearest to 0.00015 minutes for a threshold, an age of 9 ms
    gives that very double for a quotient, and the session stays. *)
Example rounding_keeps_a_session :
  let threshold := Double.round (15 # 100000) in
  (threshold * inject_Z 60000 < inject_Z 9)%Q /\
  inactive 9 threshold {| connectedAt := 0; lastActivity := 0 |} = false.
Proof. vm_compute. split; reflexivity. Qed.

(** What a run of the reaper returns. *)
Lemma cleanup_run (now : Z) (maxInactiveMinutes : Q) (s : SocketService) :
  let K := stale now maxInactiveMinutes (map_to_list (connectedClients s)) in
  exists extra,
    cleanupInactiveConnections now maxInactiveMinutes s =
      ({| connectedClients := delete_all K (connectedClients s);
          sockets := sockets s ∖ list_to_set K |},
       (extra ++ if (0 <? length K)%nat
                 then [Console LogLevel "Limpiadas conexiones inactivas"] else [])%list,
       length K) /\
    (forall socketId, ForceDisconnect socketId ∈ extra <-> socketId ∈ K /\ socketId ∈ sockets s).
Proof.
  intros K. unfold cleanupInactiveConnections.
  destruct (cleanup_loop now maxInactiveMinutes (map_to_list (connectedClients s)) s [] 0%nat)
    as (extra & -> & Hforce).
  exists extra. split; [reflexivity | exact Hforce].
Qed.






(** ** The event loop *)

Lemma delete_all_dom (ids : list string) (m : gmap string ClientInfo) :
  dom (delete_all ids m) = dom m ∖ list_to_set ids.
Proof.
  apply set_eq. intros k.
  rewrite elem_of_difference, elem_of_list_to_set, !elem_of_dom, delete_all_lookup.
  destruct (decide (k ∈ ids)); split; try tauto.
  intros [x Hx]. discriminate.
Qed.

Lemma on_connection_consistent (now : Z) (socketId : string) (s : SocketService) :
  registry_consistent s -> registry_consistent (fst (on_connection now socketId s)).
Proof. unfold registry_consistent. cbn. intros <-. apply dom_insert_L. Qed.

Lemma on_ping_consistent (now : Z) (socketId : string) (s : SocketService) :
  registry_consistent s -> registry_consistent (fst (on_ping now socketId s)).
Proof.
  unfold registry_consistent. cbn. intros <-.
  destruct (connectedClients s !! socketId) as [ci |] eqn:Hlook; [| reflexivity].
  rewrite dom_insert_L. apply elem_of_dom_2 in Hlook. set_solver.
Qed.

Lemma on_disconnect_consistent (socketId reason : string) (s : SocketService) :
  registry_consistent s -> registry_consistent (fst (on_disconnect socketId reason s)).
Proof. unfold registry_consistent. cbn. intros <-. apply dom_delete_L. Qed.

Lemma cleanup_consistent (now : Z) (maxInactiveMinutes : Q) (s : SocketService) :
  registry_consistent s ->
  registry_consistent (fst (fst (cleanupInactiveConnections now maxInactiveMinutes s))).
Proof.
  unfold registry_consistent. intros Hs.
  destruct (cleanup_run now maxInactiveMinutes s) as (extra & -> & _).
  cbn. by rewrite delete_all_dom, Hs.
Qed.

Section EventLoop.

Variable JSON_parse : string -> result value.

(** The listener's promise is fulfilled whatever the datagram. *)
Lemma message_received_returns (msg rinfo : string) :
  exists out p, message_received JSON_parse msg rinfo = (out, Returns p).
Proof.
  destruct (JSON_parse msg) as [data | e] eqn:Hparse.
  - destruct (acceptableb data) eqn:Hacc.
    + destruct (message_received_accepted JSON_parse msg rinfo data Hparse Hacc) as (out & -> & _).
      eauto.
    + destruct (message_received_refused JSON_parse msg rinfo data Hparse Hacc) as (out & -> & _).
      eauto.
  - destruct (message_received_undecodable JSON_parse msg rinfo e Hparse) as (out & -> & _).
    eauto.
Qed.

(** After a successful store the listener writes two console lines around
    one broadcast of the projected row. *)
Lemma message_resumed_fulfilled (msg : string) (now : Z) (s : SocketService) (row : Row) :
  message_resumed msg now s (Returns row) =
  ([ Console LogLevel "Ubicación guardada en BD:";
     Console LogLevel "Transmitiendo nueva ubicación";
     IoEmit (sockets s) "location-update"
            (NewLocation (projection row) now (size (connectedClients s)));
     Console LogLevel "=== Processed Successfully ===" ],
   Returns tt).
Proof. reflexivity. Qed.

(** After a rejected store it only writes to the console. *)
Lemma message_resumed_rejected (msg : string) (now : Z) (s : SocketService) (e : exn) :
  exists out, message_resumed msg now s (Throws e) = (out, Returns tt) /\
              Forall is_console out.
Proof. destruct e; eexists; (split; [reflexivity | repeat constructor]). Qed.

(** The arrival of a datagram changes nothing in the server. *)
Lemma step_UdpMessage (now : Z) (msg rinfo : string) (w : World) :
  fst (step JSON_parse now (UdpMessage msg rinfo) w) = w.
Proof.
  unfold step. destruct (running w); [| reflexivity]. cbn [negb].
  destruct (message_received_returns msg rinfo) as (out & p & ->). reflexivity.
Qed.

Lemma step_StoreSettles_rejected (now : Z) (msg : string) (values : list value) (e : exn)
    (w : World) :
  exists out, step JSON_parse now (StoreSettles msg values (Rejected e)) w = (w, out) /\
              Forall is_console out.
Proof.
  unfold step. destruct (running w); cbn [negb].
  - destruct (message_resumed_rejected msg now (svc w) e) as (out & -> & Hout).
    exists out. split; [reflexivity | exact Hout].
  - exists []. split; [reflexivity | constructor].
Qed.

Lemma step_StoreSettles_fulfilled (now : Z) (msg : string) (values : list value) (w : World) :
  running w = true ->
  step JSON_parse now (StoreSettles msg values Fulfilled) w =
  ({| svc := svc w;
      pool := snd (insert_returning now values (pool w));
      running := true |},
   [ Console LogLevel "Ubicación guardada en BD:";
     Console LogLevel "Transmitiendo nueva ubicación";
     IoEmit (sockets (svc w)) "location-update"
            (NewLocation (projection (fst (insert_returning now values (pool w)))) now
                         (size (connectedClients (svc w))));
     Console LogLevel "=== Processed Successfully ===" ]).
Proof. intros Hrun. unfold step. rewrite Hrun. reflexivity. Qed.

(** Every event keeps the server running and the registry in step with
    the live sockets. *)
Lemma step_invariant (now : Z) (ev : event) (w : World) :
  registry_consistent (svc w) /\ running w = true ->
  registry_consistent (svc (fst (step JSON_parse now ev w))) /\
  running (fst (step JSON_parse now ev w)) = true.
Proof.
  intros [Hc Hr].
  destruct ev as [socketId | socketId | socketId | socketId | socketId [| e]
                 | socketId reason | | msg rinfo | msg values [| e]].
  - unfold step. rewrite Hr. cbn [negb with_svc fst svc running].
    split; [by apply on_connection_consistent | done].
  - unfold step. rewrite Hr. cbn [negb with_svc fst svc running].
    split; [by apply on_ping_consistent | done].
  - unfold step. rewrite Hr. cbn. done.
  - unfold step. rewrite Hr. cbn. done.
  - unfold step. rewrite Hr. cbn. done.
  - unfold step. rewrite Hr. cbn. done.
  - unfold step. rewrite Hr. cbn [negb with_svc fst svc running].
    split; [by apply on_disconnect_consistent | done].
  - unfold step. rewrite Hr. cbn [negb with_svc fst svc running].
    split; [by apply cleanup_consistent | done].
  - by rewrite step_UdpMessage.
  - by rewrite step_StoreSettles_fulfilled.
  - destruct (step_StoreSettles_rejected now msg values e w) as (out & -> & _). done.
Qed.

Lemma run_invariant (evs : list (Z * event)) (w : World) :
  registry_consistent (svc w) /\ running w = true ->
  registry_consistent (svc (fst (run JSON_parse evs w))) /\
  running (fst (run JSON_parse evs w)) = true.
Proof.
  revert w. induction evs as [| [now ev] evs IH]; intros w Hw; [exact Hw |].
  cbn [run]. pose proof (step_invariant now ev w Hw) as H1.
  destruct (step JSON_parse now ev w) as [w1 out1]. cbn in H1.
  specialize (IH w1 H1). destruct (run JSON_parse evs w1) as [w2 out2]. exact IH.
Qed.

Lemma reachable_invariant (w : World) :
  reachable JSON_parse w -> registry_consistent (svc w) /\ running w = true.
Proof.
  intros [evs ->]. apply run_invariant. split; [| reflexivity].
  unfold registry_consistent. cbn. apply dom_empty_L.
Qed.

Lemma run_app (evs1 evs2 : list (Z * event)) (w : World) :
  run JSON_parse (evs1 ++ evs2)%list w =
  (fst (run JSON_parse evs2 (fst (run JSON_parse evs1 w))),
   (snd (run JSON_parse evs1 w) ++ snd (run JSON_parse evs2 (fst (run JSON_parse evs1 w))))%list).
Proof.
  revert w. induction evs1 as [| [now ev] evs1 IH]; intros w; cbn [run app].
  - cbn. by destruct (run JSON_parse evs2 w).
  - destruct (step JSON_parse now ev w) as [w1 out1].
    rewrite IH. destruct (run JSON_parse evs1 w1) as [w2 out2]. cbn.
    by rewrite app_assoc.
Qed.

End EventLoop.

(** ** The pipeline, claim by claim *)

Section Pipeline.

Variable JSON_parse : string -> result value.

(** C1.  A decoded payload that lacks [lat], [lon] or [time], or holds
    something other than a number there, or whose [lat] is outside
    [-90, 90] or [lon] outside [-180, 180], is rejected by the validator
    (which answers [false], or throws on [null]); the listener then
    completes without a store call, and the arrival leaves the server and
    the table as they were, with nothing but console lines written. *)
Theorem refused_report_never_reaches_store
    (msg rinfo : string) (data : value) (now : Z) (w : World) :
  JSON_parse msg = Returns data ->
  unacceptable data ->
  snd (validateLocationData data) = (if nullish data then Throws TypeError else Returns false) /\
  (exists out,
      message_received JSON_parse msg rinfo = (out, Returns Completed) /\
      store_calls out = []) /\
  (exists out,
      step JSON_parse now (UdpMessage msg rinfo) w = (w, out) /\
      store_calls out = [] /\ actions out = []).
Proof.
  intros Hparse Hbad.
  assert (acceptableb data = false) as Hno.
  { apply not_true_iff_false. rewrite acceptableb_spec.
    by apply unacceptable_not_acceptable. }
  destruct (message_received_refused JSON_parse msg rinfo data Hparse Hno) as (out & Hrecv & Hout).
  split; [| split].
  - destruct (validate_cases data) as [[-> ->] | (-> & -> & _)]; [reflexivity |].
    by rewrite Hno.
  - exists out. split; [exact Hrecv | by apply console_no_store].
  - unfold step. destruct (running w); cbn [negb].
    + rewrite Hrecv. exists out.
      split; [reflexivity | split; [by apply console_no_store | by apply console_no_actions]].
    + exists []. done.
Qed.

(** C2.  For a payload the data model accepts, the arrival of the
    datagram issues exactly one store call, with the report's values, and
    sends nothing; when that call succeeds, in whatever world the server
    has reached by then, one row holding the report's coordinates and
    time is appended to the table, no further store call is made, and
    every session registered at that moment receives exactly one
    [location-update] carrying the row, while a session not registered at
    that moment receives nothing, also when it connects right after. *)
Theorem accepted_report_stored_once_and_broadcast
    (msg rinfo : string) (data : value) :
  JSON_parse msg = Returns data ->
  acceptable data ->
  (forall w now, running w = true ->
      exists out,
        step JSON_parse now (UdpMessage msg rinfo) w = (w, out) /\
        store_calls out = [bound_values data] /\
        forall socketId, inbox socketId out = []) /\
  snd (message_received JSON_parse msg rinfo) = Returns (AwaitingCreate (bound_values data)) /\
  (forall w now, reachable JSON_parse w ->
      exists w' out row,
        step JSON_parse now (StoreSettles msg (bound_values data) Fulfilled) w = (w', out) /\
        location_data (pool w') = (location_data (pool w) ++ [row])%list /\
        latitude row = field data "lat" /\
        longitude row = field data "lon" /\
        timestamp_value row = field data "time" /\
        store_calls out = [] /\
        svc w' = svc w /\
        (forall socketId,
            inbox socketId out =
            if decide (socketId ∈ dom (connectedClients (svc w)))
            then [("location-update",
                   NewLocation (projection row) now (size (connectedClients (svc w))))]
            else []) /\
        (forall socketId now2,
            socketId ∉ dom (connectedClients (svc w)) ->
            "location-update" ∉
              (inbox socketId (snd (step JSON_parse now2 (Connection socketId) w'))).*1)).
Proof.
  intros Hparse Hok. pose proof Hok as Hyes. apply acceptableb_spec in Hyes.
  destruct (message_received_accepted JSON_parse msg rinfo data Hparse Hyes)
    as (out1 & Hrecv & Hout1).
  split; [| split].
  - intros w now Hrun. unfold step. rewrite Hrun, Hrecv. cbn [negb settle_listener].
    eexists. split; [reflexivity |]. split.
    + by rewrite store_calls_app, console_no_store.
    + intros socketId. by rewrite inbox_app, console_no_inbox.
  - by rewrite Hrecv.
  - intros w now Hreach.
    destruct (reachable_invariant JSON_parse w Hreach) as [Hcons Hrun].
    rewrite (step_StoreSettles_fulfilled JSON_parse now msg _ w Hrun).
    eexists _, _, (fst (insert_returning now (bound_values data) (pool w))).
    split; [reflexivity |].
    repeat split.
    + intros socketId. cbn. unfold registry_consistent in Hcons. rewrite Hcons.
      destruct (decide (socketId ∈ sockets (svc w))); reflexivity.
    + intros socketId now2 Hnew. unfold step. cbn.
      destruct (decide (socketId = socketId)); [| done].
      destruct (decide (socketId ∈ {[socketId]} ∪ sockets (svc w))); cbn; set_solver.
Qed.

(** C3.  A datagram whose text does not decode, whose report is refused,
    or whose store is rejected is dropped: the step leaves the server, the
    table and the running flag as they were, and writes console lines
    only, so nothing is broadcast and no store call is made or repeated.
    Taking such a step out of any history of events changes neither the
    world that history ends in nor anything the server does along it, the
    console apart. *)
Theorem failed_datagram_is_dropped_and_isolated (ev : event) (now : Z) :
  fails JSON_parse ev ->
  (forall w,
      exists out,
        step JSON_parse now ev w = (w, out) /\
        Forall is_console out /\
        store_calls out = [] /\
        forall socketId, inbox socketId out = []) /\
  (forall before after w,
      fst (run JSON_parse (before ++ (now, ev) :: after) w) =
      fst (run JSON_parse (before ++ after) w) /\
      actions (snd (run JSON_parse (before ++ (now, ev) :: after) w)) =
      actions (snd (run JSON_parse (before ++ after) w))).
Proof.
  intros Hfail.
  assert (forall w, exists out, step JSON_parse now ev w = (w, out) /\ Forall is_console out)
    as Hstep.
  { intros w.
    destruct ev as [socketId | socketId | socketId | socketId | socketId outcome
                   | socketId reason | | msg rinfo | msg values [| e]]; try contradiction.
    - unfold step. destruct (running w); cbn [negb]; [| exists []; by split].
      cbn in Hfail. destruct (JSON_parse msg) as [data | e] eqn:Hparse.
      + assert (acceptableb data = false) as Hno.
        { apply not_true_iff_false. by rewrite acceptableb_spec. }
        destruct (message_received_refused JSON_parse msg rinfo data Hparse Hno)
          as (out & -> & Hout). by exists out.
      + destruct (message_received_undecodable JSON_parse msg rinfo e Hparse)
          as (out & -> & Hout). by exists out.
    - apply step_StoreSettles_rejected. }
  split.
  - intros w. destruct (Hstep w) as (out & Hw & Hout). exists out.
    split; [exact Hw |]. split; [exact Hout |].
    split; [by apply console_no_store |]. intros socketId. by apply console_no_inbox.
  - intros before after w.
    rewrite !run_app. cbn [fst snd run].
    destruct (Hstep (fst (run JSON_parse before w))) as (out & -> & Hout).
    destruct (run JSON_parse after (fst (run JSON_parse before w))) as [w2 out2].
    cbn [fst snd]. split; [reflexivity |].
    by rewrite !actions_app, (console_no_actions out Hout).
Qed.

(** C7.  A ping from a session is answered with exactly one [pong] to
    that session, carrying the server's time; the session's last activity
    becomes that time when the registry knows the session, its connect
    time and every other session staying as they were; a ping from an
    unknown session changes nothing, and in neither case does the server
    stop. *)
Theorem ping_touches_and_pongs (now : Z) (socketId : string) (w : World) :
  running w = true ->
  exists w',
    step JSON_parse now (Ping socketId) w = (w', [SocketEmit socketId "pong" (PongAt now)]) /\
    connectedClients (svc w') !! socketId =
      (fun ci => {| connectedAt := connectedAt ci; lastActivity := now |})
        <$> connectedClients (svc w) !! socketId /\
    (forall other, other <> socketId ->
        connectedClients (svc w') !! other = connectedClients (svc w) !! other) /\
    (connectedClients (svc w) !! socketId = None -> w' = w) /\
    sockets (svc w') = sockets (svc w) /\
    pool w' = pool w /\
    running w' = true.
Proof.
  intros Hrun. unfold step. rewrite Hrun. unfold with_svc, on_ping. cbn [negb fst snd].
  eexists. split; [reflexivity |]. cbn [svc connectedClients sockets pool running].
  destruct (connectedClients (svc w) !! socketId) as [ci |] eqn:Hlook.
  - rewrite lookup_insert_eq. repeat split; try done.
    intros other Hne. by rewrite lookup_insert_ne.
  - repeat split; try done.
    intros _. destruct w as [[clients live] p r]. cbn in *. by subst r.
Qed.

End Pipeline.

(** ** What is stored and what is sent *)

(** C8.  For a report the data model accepts, [createLocation] issues one
    query whose row, once inserted, holds the report's coordinates and
    time as supplied and, for each optional field, [null] when the
    supplied number is zero or the supplied provider is the empty string
    (or the field is absent), and the supplied value itself otherwise. *)
Theorem falsy_optionals_are_stored_as_null (data : value) (now : Z) (p : Pool) :
  acceptable data ->
  exists values row,
    createLocation_begin data = ([PoolQuery InsertLocation values], Returns values) /\
    row = fst (insert_returning now values p) /\
    location_data (snd (insert_returning now values p)) = (location_data p ++ [row])%list /\
    latitude row = field data "lat" /\
    longitude row = field data "lon" /\
    timestamp_value row = field data "time" /\
    (forall q, field data "acc" = VNum q ->
               ((q == 0)%Q -> accuracy row = VNull) /\ (~ (q == 0)%Q -> accuracy row = VNum q)) /\
    (forall q, field data "alt" = VNum q ->
               ((q == 0)%Q -> altitude row = VNull) /\ (~ (q == 0)%Q -> altitude row = VNum q)) /\
    (forall q, field data "spd" = VNum q ->
               ((q == 0)%Q -> speed row = VNull) /\ (~ (q == 0)%Q -> speed row = VNum q)) /\
    (forall t, field data "prov" = VStr t ->
               (t = EmptyString -> provider row = VNull) /\
               (t <> EmptyString -> provider row = VStr t)) /\
    (field data "acc" = VUndefined -> accuracy row = VNull) /\
    (field data "alt" = VUndefined -> altitude row = VNull) /\
    (field data "spd" = VUndefined -> speed row = VNull) /\
    (field data "prov" = VUndefined -> provider row = VNull) /\
    accuracy row = (if truthy (field data "acc") then field data "acc" else VNull) /\
    altitude row = (if truthy (field data "alt") then field data "alt" else VNull) /\
    speed row = (if truthy (field data "spd") then field data "spd" else VNull) /\
    provider row = (if truthy (field data "prov") then field data "prov" else VNull).
Proof.
  intros Hok. destruct (acceptable_object data Hok) as [props ->].
  exists (bound_values (VObj props)), (fst (insert_returning now (bound_values (VObj props)) p)).
  assert (forall v q, v = VNum q ->
            ((q == 0)%Q -> logical_or v VNull = VNull) /\
            (~ (q == 0)%Q -> logical_or v VNull = VNum q)) as Hnum.
  { intros v q ->. unfold logical_or, truthy. split.
    - intros Hz. apply Qeq_bool_iff in Hz. by rewrite Hz.
    - intros Hnz. destruct (Qeq_bool q 0) eqn:Hq; [| reflexivity].
      apply Qeq_bool_iff in Hq. contradiction. }
  assert (forall v t, v = VStr t ->
            (t = EmptyString -> logical_or v VNull = VNull) /\
            (t <> EmptyString -> logical_or v VNull = VStr t)) as Hstr.
  { intros v t ->. unfold logical_or, truthy. split.
    - by intros ->.
    - intros Hne. destruct (String.eqb t EmptyString) eqn:Ht; [| reflexivity].
      apply String.eqb_eq in Ht. contradiction. }
  assert (forall v, v = VUndefined -> logical_or v VNull = VNull) as Habsent.
  { by intros v ->. }
  split; [apply createLocation_begin_object |].
  repeat (split; [reflexivity |]). cbn [fst insert_returning accuracy altitude speed provider].
  unfold param, bound_values. cbn [nth Nat.sub].
  split; [exact (Hnum _) |]. split; [exact (Hnum _) |]. split; [exact (Hnum _) |].
  split; [exact (Hstr _) |].
  split; [exact (Habsent _) |]. split; [exact (Habsent _) |].
  split; [exact (Habsent _) |]. split; [exact (Habsent _) |].
  by repeat split.
Qed.

Section Blanking.

Variable JSON_parse : string -> result value.

Lemma select_recent_blank (p p' : Pool) :
  map without_optionals (location_data p) = map without_optionals (location_data p') ->
  select_recent 10 0 p = select_recent 10 0 p'.
Proof.
  intros Hrows. unfold select_recent. do 3 f_equal.
  assert (forall rows, map select_columns rows =
                       map select_columns (map without_optionals rows)) as Hcols.
  { intros rows. rewrite map_map. apply map_ext. by intros []. }
  by rewrite (Hcols (location_data p)), (Hcols (location_data p')), Hrows.
Qed.

Lemma insert_returning_blank (now : Z) (values : list value) (p p' : Pool) :
  next_id p = next_id p' ->
  projection (fst (insert_returning now (firstn 3 values) p')) =
    projection (fst (insert_returning now values p)) /\
  without_optionals (fst (insert_returning now (firstn 3 values) p')) =
    without_optionals (fst (insert_returning now values p)) /\
  next_id (snd (insert_returning now (firstn 3 values) p')) =
    next_id (snd (insert_returning now values p)).
Proof.
  intros Hid. unfold insert_returning, projection, without_optionals. cbn. rewrite Hid.
  destruct values as [| v1 [| v2 [| v3 rest]]]; done.
Qed.

(** A step sends the same, and leaves worlds that still differ at most in
    the optional fields of the rows, whether or not the optional
    parameters of a settled store are there. *)
Lemma step_blank (now : Z) (ev : event) (w w' : World) :
  same_but_optionals w w' ->
  snd (step JSON_parse now (blank_optionals ev) w') = snd (step JSON_parse now ev w) /\
  same_but_optionals (fst (step JSON_parse now ev w))
                     (fst (step JSON_parse now (blank_optionals ev) w')).
Proof.
  destruct w as [s p r], w' as [s' p' r']. unfold same_but_optionals. cbn [svc pool running].
  intros (<- & <- & Hid & Hrows).
  destruct r; [| destruct ev as [| | | | ? [] | | | | ? ? []]; by cbn].
  destruct ev as [socketId | socketId | socketId | socketId | socketId [| e]
                 | socketId reason | | msg rinfo | msg values [| e]];
    cbn [blank_optionals]; try (by cbn).
  - unfold step. cbn [negb running pool]. by rewrite (select_recent_blank p p' Hrows).
  - unfold step. cbn [negb running].
    destruct (message_received_returns JSON_parse msg rinfo) as (out & q & ->). by cbn.
  - rewrite !step_StoreSettles_fulfilled by reflexivity. cbn [fst snd svc pool running].
    destruct (insert_returning_blank now values p p' Hid) as (Hproj & Hrow & Hnext).
    rewrite Hproj. split; [reflexivity |]. repeat split; [by symmetry |].
    change (location_data (snd (insert_returning now values p)))
      with (location_data p ++ [fst (insert_returning now values p)])%list.
    change (location_data (snd (insert_returning now (firstn 3 values) p')))
      with (location_data p' ++ [fst (insert_returning now (firstn 3 values) p')])%list.
    rewrite !map_app, Hrows. cbn [map]. by rewrite Hrow.
  - unfold step. cbn [negb running svc].
    destruct (message_resumed_rejected msg now s e) as (out & -> & _). by cbn.
Qed.

Lemma run_blank (evs : list (Z * event)) (w w' : World) :
  same_but_optionals w w' ->
  snd (run JSON_parse (map (fun e => (fst e, blank_optionals (snd e))) evs) w') =
  snd (run JSON_parse evs w).
Proof.
  revert w w'. induction evs as [| [now ev] evs IH]; intros w w' Hsame; [reflexivity |].
  cbn [map run fst snd].
  destruct (step_blank now ev w w' Hsame) as [Hout Hnext].
  destruct (step JSON_parse now ev w) as [w1 out1].
  destruct (step JSON_parse now (blank_optionals ev) w') as [w1' out1'].
  cbn [fst snd] in *. subst out1'.
  specialize (IH w1 w1' Hnext).
  destruct (run JSON_parse evs w1) as [w2 out2].
  destruct (run JSON_parse _ w1') as [w2' out2'].
  cbn [snd] in *. by subst out2'.
Qed.

End Blanking.

(** C9.  What the listener sends after a successful store is the same as
    for the row stripped of accuracy, altitude, speed and provider, and
    the same whatever the four optional parameters of the query were; a
    live socket receives one [location-update] whose record has the
    row's identity, latitude, longitude, timestamp and creation time and
    no other field, and nobody else receives anything.  Over a whole
    history of events, everything the server does is the same when every
    settled store comes without its optional parameters. *)
Theorem broadcast_carries_only_the_projection
    (JSON_parse : string -> result value)
    (msg : string) (now : Z) (s : SocketService) (row : Row) (values : list value) (w : World) :
  message_resumed msg now s (Returns row) =
    message_resumed msg now s (Returns (without_optionals row)) /\
  (forall socketId,
      inbox socketId (fst (message_resumed msg now s (Returns row))) =
      if decide (socketId ∈ sockets s)
      then [("location-update",
             NewLocation {| fd_id := id row;
                            fd_latitude := latitude row;
                            fd_longitude := longitude row;
                            fd_timestamp_value := timestamp_value row;
                            fd_created_at := created_at row |}
                         now (size (connectedClients s)))]
      else []) /\
  snd (step JSON_parse now (StoreSettles msg values Fulfilled) w) =
    snd (step JSON_parse now (StoreSettles msg (firstn 3 values) Fulfilled) w) /\
  (forall evs,
      snd (run JSON_parse (map (fun e => (fst e, blank_optionals (snd e))) evs) w) =
      snd (run JSON_parse evs w)).
Proof.
  split; [reflexivity |]. split; [| split].
  - intros socketId. cbn. destruct (decide (socketId ∈ sockets s)); reflexivity.
  - unfold step. destruct (running w); [| reflexivity]. cbn [negb].
    unfold insert_returning. rewrite !message_resumed_fulfilled.
    cbn [settle_listener snd projection id latitude longitude timestamp_value created_at].
    destruct values as [| v1 [| v2 [| v3 rest]]]; reflexivity.
  - intros evs. apply run_blank. by repeat split.
Qed.

(** ** The scenarios, run *)

(** The datagram with latitude 95 is refused: nothing is stored. *)
Lemma refused_report_never_reaches_store_witness :
  scenario_parse scenario_bad_latitude = Returns bad_latitude_report /\
  unacceptable bad_latitude_report /\
  exists out,
    step scenario_parse 1700000000123 (UdpMessage scenario_bad_latitude "10.0.0.7:5005")
         initial_world = (initial_world, out) /\
    store_calls out = [] /\ actions out = [].
Proof.
  assert (unacceptable bad_latitude_report) as Hbad.
  { right. left. exists 95%Q. split; [reflexivity | right; reflexivity]. }
  split; [reflexivity |]. split; [exact Hbad |].
  exact (proj2 (proj2 (refused_report_never_reaches_store scenario_parse
                         scenario_bad_latitude "10.0.0.7:5005" bad_latitude_report
                         1700000000123 initial_world eq_refl Hbad))).
Defined.

(** The good datagram is stored once and reaches the one session that is
    connected when the store succeeds. *)
Lemma accepted_report_stored_once_and_broadcast_witness :
  scenario_parse scenario_good = Returns good_report /\
  acceptable good_report /\
  reachable scenario_parse (fst (run scenario_parse [(1700000000000, Connection "s1")]
                                     initial_world)) /\
  snd (message_received scenario_parse scenario_good "10.0.0.7:5005") =
    Returns (AwaitingCreate (bound_values good_report)).
Proof.
  assert (acceptable good_report) as Hok.
  { exists (374219983 # 10000000)%Q, (-122084 # 1000)%Q, (1700000000000 # 1)%Q.
    repeat split; discriminate. }
  split; [reflexivity |]. split; [exact Hok |].
  split; [by exists [(1700000000000, Connection "s1")] |].
  exact (proj1 (proj2 (accepted_report_stored_once_and_broadcast scenario_parse
                         scenario_good "10.0.0.7:5005" good_report eq_refl Hok))).
Defined.

(** A datagram that is not JSON is dropped without a trace in the server. *)
Lemma failed_datagram_is_dropped_and_isolated_witness :
  fails scenario_parse (UdpMessage "lat=1" "10.0.0.7:5005") /\
  exists out,
    step scenario_parse 1700000000123 (UdpMessage "lat=1" "10.0.0.7:5005") initial_world =
      (initial_world, out) /\
    Forall is_console out /\
    store_calls out = [] /\
    forall socketId, inbox socketId out = [].
Proof.
  split; [exact I |].
  exact (proj1 (failed_datagram_is_dropped_and_isolated scenario_parse
                  (UdpMessage "lat=1" "10.0.0.7:5005") 1700000000123 I) initial_world).
Defined.

(** A ping from a session nobody registered is answered all the same. *)
Lemma ping_touches_and_pongs_witness :
  running initial_world = true /\
  exists w',
    step scenario_parse 1700000000123 (Ping "s1") initial_world =
      (w', [SocketEmit "s1" "pong" (PongAt 1700000000123)]) /\
    running w' = true.
Proof.
  split; [reflexivity |].
  destruct (ping_touches_and_pongs scenario_parse 1700000000123 "s1" initial_world eq_refl)
    as (w' & Hstep & _ & _ & _ & _ & _ & Hrun).
  exists w'. split; [exact Hstep | exact Hrun].
Defined.

(** A zero accuracy and an empty provider are stored as [null], the
    altitude as supplied. *)
Lemma falsy_optionals_are_stored_as_null_witness :
  acceptable report_with_optionals /\
  exists values row,
    createLocation_begin report_with_optionals =
      ([PoolQuery InsertLocation values], Returns values) /\
    row = fst (insert_returning 1700000000123 values (pool initial_world)).
Proof.
  assert (acceptable report_with_optionals) as Hok.
  { exists (374219983 # 10000000)%Q, (-122084 # 1000)%Q, (1700000000000 # 1)%Q.
    repeat split; discriminate. }
  split; [exact Hok |].
  destruct (falsy_optionals_are_stored_as_null report_with_optionals 1700000000123
              (pool initial_world) Hok) as (values & row & Hq & Hrow & _).
  exists values, row. split; [exact Hq | exact Hrow].
Defined.

Example optionals_stored :
  let row := fst (insert_returning 1700000000123 (bound_values report_with_optionals)
                                   (pool initial_world)) in
  accuracy row = VNull /\ altitude row = VNum 5 /\ speed row = VNull /\ provider row = VNull.
Proof. repeat split. Qed.

(** ** The client hook *)

Module UseSocketFacts.
Import UseSocket.

Lemma own_listener_attached (ev : socket_event) (socket : Socket) :
  (forall cb, cb ∈ own_callbacks -> cb ∈ callbacks socket) ->
  Own (event_name ev) ∈ listeners (event_name ev) (announce ev socket).
Proof.
  intros Hown. unfold listeners.
  apply list_elem_of_fmap. exists (event_name ev, Own (event_name ev)).
  split; [reflexivity |].
  apply list_elem_of_filter. split; [by apply bool_decide_pack |].
  assert ((event_name ev, Own (event_name ev)) ∈ callbacks socket) as Hin.
  { apply Hown. unfold own_callbacks. apply list_elem_of_fmap.
    exists (event_name ev). split; [reflexivity |]. destruct ev; cbn; set_solver. }
  by destruct ev.
Qed.

(** On a wired hook an announced event runs the hook's own listener. *)
Lemma deliver_wired (now : Z) (ev : socket_event) (h : Hook) :
  wired h ->
  deliver now ev h =
  own_listener now ev (with_socket h (Some (announce ev (socket_of h)))).
Proof.
  intros (socket & Href & Hown). unfold deliver, socket_of. rewrite Href.
  destruct (decide (Own (event_name ev) ∈ listeners (event_name ev) (announce ev socket)))
    as [_ | Hno]; [reflexivity |].
  exfalso. by apply Hno, own_listener_attached.
Qed.

Lemma deliver_keeps_wired (now : Z) (ev : socket_event) (h : Hook) :
  wired h -> wired (fst (deliver now ev h)).
Proof.
  intros Hw. rewrite (deliver_wired now ev h Hw).
  destruct Hw as (socket & Href & Hown). unfold socket_of. rewrite Href.
  exists (announce ev socket). split; [by destruct ev | by destruct ev].
Qed.

Lemma mounted_wired : wired mounted.
Proof. eexists. split; [reflexivity |]. intros cb Hcb. exact Hcb. Qed.

End UseSocketFacts.

(** C4, as the specification words it, fails on the hook: after the
    transport drops, the state is [disconnected], not [connecting]; the
    first failed attempt of five already shows [error]; and once the
    attempts are exhausted the state is [disconnected] again. *)
Lemma transport_drop_enters_disconnected :
  let up := fst (UseSocket.deliver 1000 UseSocket.OnConnect UseSocket.mounted) in
  let dropped := fst (UseSocket.deliver 2000 (UseSocket.OnDisconnect "transport close") up) in
  let failed_once :=
    fst (UseSocket.deliver_all
           [(3000, UseSocket.OnReconnectAttempt 1); (3500, UseSocket.OnReconnectError)] dropped) in
  let refused_once :=
    fst (UseSocket.deliver 3500 (UseSocket.OnConnectError (VStr "timeout")) dropped) in
  let exhausted := fst (UseSocket.deliver 9000 UseSocket.OnReconnectFailed failed_once) in
  UseSocket.connectionStatus up = "connected" /\
  UseSocket.connectionStatus dropped = "disconnected" /\
  UseSocket.connectionStatus dropped <> "connecting" /\
  UseSocket.reconnectionAttempts UseSocket.SOCKET_OPTIONS = 5 /\
  UseSocket.connectionStatus failed_once = "error" /\
  UseSocket.connectionStatus refused_once = "error" /\
  UseSocket.connectionStatus exhausted = "disconnected" /\
  UseSocket.connectionStatus exhausted <> "error".
Proof. vm_compute. repeat split; discriminate. Qed.

(** C4, amended.  On a hook wired to its socket: a [disconnect]
    notification, whatever its reason, leaves the state [disconnected]
    (and asks the socket to connect again only when the server closed the
    connection); a [reconnect_attempt] notification sets [connecting]; a
    failed attempt ([reconnect_error], or [connect_error]) sets [error] at
    once; [reconnect_failed] sets [disconnected] with its message; a
    [reconnect] or [connect] notification sets [connected], clears the
    error and emits exactly one [request-initial-data]; a call of
    [reconnect()] by the consumer sets [connecting], clears the error and
    asks the socket to connect.  The limit of five attempts is
    configuration passed to the transport. *)
Theorem reconnection_follows_the_notifications (now : Z) (h : UseSocket.Hook) :
  wired h ->
  (forall reason,
      let r := UseSocket.deliver now (UseSocket.OnDisconnect reason) h in
      UseSocket.connectionStatus (fst r) = "disconnected" /\
      UseSocket.isConnected (fst r) = false /\
      UseSocket.connected (socket_of (fst r)) = false /\
      snd r = if String.eqb reason "io server disconnect"
              then [UseSocket.ConnectCalled] else []) /\
  (forall n,
      let r := UseSocket.deliver now (UseSocket.OnReconnectAttempt n) h in
      UseSocket.connectionStatus (fst r) = "connecting" /\ snd r = []) /\
  (let r := UseSocket.deliver now UseSocket.OnReconnectError h in
   UseSocket.connectionStatus (fst r) = "error" /\
   UseSocket.error (fst r) = VStr "Error de reconexión" /\ snd r = []) /\
  (forall message,
      let r := UseSocket.deliver now (UseSocket.OnConnectError message) h in
      UseSocket.connectionStatus (fst r) = "error" /\
      UseSocket.isConnected (fst r) = false /\ snd r = []) /\
  (let r := UseSocket.deliver now UseSocket.OnReconnectFailed h in
   UseSocket.connectionStatus (fst r) = "disconnected" /\
   UseSocket.error (fst r) = VStr "No se pudo reconectar al servidor" /\ snd r = []) /\
  (forall n,
      let r := UseSocket.deliver now (UseSocket.OnReconnect n) h in
      UseSocket.connectionStatus (fst r) = "connected" /\
      UseSocket.isConnected (fst r) = true /\
      UseSocket.error (fst r) = VNull /\
      snd r = [UseSocket.Sent "request-initial-data" VUndefined]) /\
  (let r := UseSocket.deliver now UseSocket.OnConnect h in
   UseSocket.connectionStatus (fst r) = "connected" /\
   UseSocket.isConnected (fst r) = true /\
   UseSocket.connected (socket_of (fst r)) = true /\
   UseSocket.error (fst r) = VNull /\
   snd r = [UseSocket.Sent "request-initial-data" VUndefined]) /\
  (let r := UseSocket.reconnect now h in
   UseSocket.connectionStatus (fst r) = "connecting" /\
   UseSocket.error (fst r) = VNull /\
   snd r = [UseSocket.ConnectCalled]) /\
  UseSocket.reconnectionAttempts UseSocket.SOCKET_OPTIONS = 5 /\
  (forall ev, wired (fst (UseSocket.deliver now ev h))).
Proof.
  intros Hw.
  repeat match goal with |- _ /\ _ => split end;
    try (cbv zeta; intros; rewrite (UseSocketFacts.deliver_wired _ _ _ Hw); cbn;
         repeat split; reflexivity).
  - cbv zeta. destruct Hw as (socket & Href & _). unfold UseSocket.reconnect.
    rewrite Href. by repeat split.
  - reflexivity.
  - intros ev. by apply UseSocketFacts.deliver_keeps_wired.
Qed.

Lemma reconnection_follows_the_notifications_witness :
  wired UseSocket.mounted /\
  forall ev, wired (fst (UseSocket.deliver 1000 ev UseSocket.mounted)).
Proof.
  assert (wired UseSocket.mounted) as Hw.
  { eexists. split; [reflexivity |]. intros cb Hcb. exact Hcb. }
  split; [exact Hw |].
  destruct (reconnection_follows_the_notifications 1000 UseSocket.mounted Hw)
    as (_ & _ & _ & _ & _ & _ & _ & _ & _ & Hall).
  exact Hall.
Defined.

(** C10, as the specification words it, fails on the hook: the state it
    shows and the [connected] flag [emit] tests can part.  After
    [reconnect()] on a socket that is connected the state is [connecting],
    and [emit] still sends. *)
Lemma emit_sends_while_connecting :
  let up := fst (UseSocket.deliver 1000 UseSocket.OnConnect UseSocket.mounted) in
  let again := fst (UseSocket.reconnect 2000 up) in
  UseSocket.connectionStatus up = "connected" /\
  UseSocket.connectionStatus again = "connecting" /\
  UseSocket.connectionStatus again <> "connected" /\
  UseSocket.emit "ping" VUndefined again = (true, [UseSocket.Sent "ping" VUndefined]).
Proof. repeat split; discriminate. Qed.

(** C10.  [emit] returns [true] exactly when the hook holds a socket whose
    [connected] flag is set, and exactly then it sends: one packet with
    the given name and data; otherwise it sends nothing and warns. *)
Theorem emit_sends_exactly_when_connected
    (eventName : string) (data : value) (h : UseSocket.Hook) :
  (fst (UseSocket.emit eventName data h) = true <->
   exists socket, UseSocket.socketRef h = Some socket /\ UseSocket.connected socket = true) /\
  (fst (UseSocket.emit eventName data h) = true <->
   UseSocket.Sent eventName data ∈ snd (UseSocket.emit eventName data h)) /\
  (forall e d,
      UseSocket.Sent e d ∈ snd (UseSocket.emit eventName data h) ->
      e = eventName /\ d = data /\ UseSocket.connected (socket_of h) = true) /\
  (fst (UseSocket.emit eventName data h) = true ->
   snd (UseSocket.emit eventName data h) = [UseSocket.Sent eventName data]) /\
  (fst (UseSocket.emit eventName data h) = false ->
   snd (UseSocket.emit eventName data h) =
     [UseSocket.Warned ("Socket no conectado, no se puede emitir: " ++ eventName)]).
Proof.
  unfold UseSocket.emit, socket_of.
  destruct (UseSocket.socketRef h) as [socket |]; [destruct (UseSocket.connected socket) eqn:Hc |];
    cbn [fst snd]; rewrite ?list_elem_of_singleton;
    (split; [| split; [| split; [| split]]]);
    try (intros e d; rewrite list_elem_of_singleton); naive_solver.
Qed.

(** Subscribing over a tracked handler that is the only listener of its
    event leaves the new handler as the only listener, and tracked. *)
Lemma remove_only_listener (eventName : string) (g : UseSocket.fn)
    (cbs : list (string * UseSocket.fn)) :
  UseSocket.listeners eventName {| UseSocket.connected := false; UseSocket.callbacks := cbs |} = [g] ->
  UseSocket.listeners eventName
    {| UseSocket.connected := false;
       UseSocket.callbacks := UseSocket.remove_first eventName g cbs |} = [].
Proof.
  unfold UseSocket.listeners. cbn [UseSocket.callbacks].
  induction cbs as [| [e f] cbs IH]; [discriminate |].
  cbn [UseSocket.remove_first]. rewrite filter_cons. cbn [fst].
  destruct (decide (e = eventName)) as [-> | Hne].
  - rewrite bool_decide_true by done. cbn. intros Heq. injection Heq as -> Hrest.
    rewrite decide_True by done. exact Hrest.
  - rewrite bool_decide_false by done. cbn. intros Heq.
    rewrite decide_False by tauto.
    rewrite filter_cons. cbn [fst]. rewrite bool_decide_false by done. cbn. by apply IH.
Qed.

Lemma on_replaces_the_tracked_handler (eventName : string) (f g : UseSocket.fn)
    (h : UseSocket.Hook) (socket : UseSocket.Socket) :
  UseSocket.socketRef h = Some socket ->
  UseSocket.listenersRef h !! eventName = Some g ->
  UseSocket.listeners eventName socket = [g] ->
  UseSocket.listeners eventName (socket_of (fst (UseSocket.on eventName f h))) = [f] /\
  UseSocket.listenersRef (fst (UseSocket.on eventName f h)) !! eventName = Some f.
Proof.
  intros Href Htracked Honly. unfold UseSocket.on. rewrite Href, Htracked.
  cbn. split; [| apply lookup_insert_eq].
  unfold UseSocket.listeners in *. cbn [UseSocket.callbacks].
  rewrite filter_app, map_app.
  pose proof (remove_only_listener eventName g (UseSocket.callbacks socket)) as Hrm.
  unfold UseSocket.listeners in Hrm. cbn [UseSocket.callbacks] in Hrm.
  rewrite (Hrm Honly). rewrite filter_cons. cbn [fst].
  rewrite bool_decide_true by done. reflexivity.
Qed.

(** C5.  The closure returned by [on] deletes the entry of its event name
    whoever holds it.  With handler 1 replaced by handler 2, calling the
    closure of handler 1 leaves handler 2 attached to the socket but no
    longer tracked, so a third subscription attaches handler 3 beside
    handler 2; the sibling [off], which compares the tracked handler
    first, changes nothing in the same situation.  The same happens when
    the closure of handler 1 is called a second time after handler 2 has
    subscribed. *)
Theorem superseded_unsubscribe_untracks_the_live_handler :
  let name := "location-update" in
  let first := UseSocket.on name (UseSocket.Handler 1) UseSocket.mounted in
  let second := UseSocket.on name (UseSocket.Handler 2) (fst first) in
  let after := UseSocket.call (snd first) (fst second) in
  let third := UseSocket.on name (UseSocket.Handler 3) after in
  let again :=
    UseSocket.call (snd first)
      (fst (UseSocket.on name (UseSocket.Handler 2)
              (UseSocket.call (snd first) (fst first)))) in
  UseSocket.listeners name (socket_of (fst second)) = [UseSocket.Handler 2] /\
  UseSocket.listenersRef (fst second) !! name = Some (UseSocket.Handler 2) /\
  UseSocket.listeners name (socket_of after) = [UseSocket.Handler 2] /\
  UseSocket.listenersRef after !! name = None /\
  after <> fst second /\
  UseSocket.listeners name (socket_of (fst third)) =
    [UseSocket.Handler 2; UseSocket.Handler 3] /\
  UseSocket.off name (Some (UseSocket.Handler 1)) (fst second) = fst second /\
  UseSocket.listeners name (socket_of again) = [UseSocket.Handler 2] /\
  UseSocket.listenersRef again !! name = None.
Proof.
  cbv zeta. repeat split; try reflexivity.
  intros Heq.
  apply (f_equal (fun h => UseSocket.listenersRef h !! "location-update")) in Heq.
  vm_compute in Heq. discriminate.
Qed.

(** ** Reconnection, attempt after attempt *)

Lemma deliver_all_app (evs1 evs2 : list (Z * UseSocket.socket_event)) (h : UseSocket.Hook) :
  UseSocket.deliver_all (evs1 ++ evs2)%list h =
  (fst (UseSocket.deliver_all evs2 (fst (UseSocket.deliver_all evs1 h))),
   (snd (UseSocket.deliver_all evs1 h) ++
    snd (UseSocket.deliver_all evs2 (fst (UseSocket.deliver_all evs1 h))))%list).
Proof.
  revert h. induction evs1 as [| [now ev] evs1 IH]; intros h; cbn [UseSocket.deliver_all app].
  - cbn. by destruct (UseSocket.deliver_all evs2 h).
  - destruct (UseSocket.deliver now ev h) as [h1 out1]. rewrite IH.
    destruct (UseSocket.deliver_all evs1 h1) as [h2 out2]. cbn. by rewrite app_assoc.
Qed.

(** Failed attempts keep the hook wired and send nothing; after the first
    of them, however many follow, the state reads [error]. *)
Lemma failed_attempts_show_error (k start : nat) (h : UseSocket.Hook) :
  wired h ->
  wired (fst (UseSocket.deliver_all (failed_attempts start k) h)) /\
  snd (UseSocket.deliver_all (failed_attempts start k) h) = [] /\
  ((0 < k)%nat ->
   UseSocket.connectionStatus (fst (UseSocket.deliver_all (failed_attempts start k) h)) = "error").
Proof.
  revert start h. induction k as [| k IH]; intros start h Hw.
  - cbn. split; [exact Hw |]. split; [reflexivity | lia].
  - unfold failed_attempts. cbn [seq flat_map]. fold (failed_attempts (S start) k).
    change ([(Z.of_nat start, UseSocket.OnReconnectAttempt (Z.of_nat start));
             (Z.of_nat start, UseSocket.OnReconnectError)] ++ failed_attempts (S start) k)%list
      with ((Z.of_nat start, UseSocket.OnReconnectAttempt (Z.of_nat start))
            :: (Z.of_nat start, UseSocket.OnReconnectError) :: failed_attempts (S start) k).
    cbn [UseSocket.deliver_all].
    pose proof (UseSocketFacts.deliver_keeps_wired (Z.of_nat start)
                  (UseSocket.OnReconnectAttempt (Z.of_nat start)) h Hw) as Hw1.
    rewrite (UseSocketFacts.deliver_wired _ _ h Hw) in Hw1 |- *.
    cbn [UseSocket.own_listener fst snd] in Hw1 |- *.
    match type of Hw1 with wired ?h1 =>
      pose proof (UseSocketFacts.deliver_keeps_wired (Z.of_nat start)
                    UseSocket.OnReconnectError h1 Hw1) as Hw2;
      rewrite (UseSocketFacts.deliver_wired _ _ h1 Hw1) in Hw2 |- *
    end.
    cbn [UseSocket.own_listener fst snd] in Hw2 |- *.
    match type of Hw2 with wired ?h2 =>
      destruct (IH (S start) h2 Hw2) as (Hw3 & Hout & Hst);
      destruct (UseSocket.deliver_all (failed_attempts (S start) k) h2) as [h3 out3] eqn:Hrun
    end.
    cbn [fst snd] in *. subst out3. split; [exact Hw3 |]. split; [reflexivity |].
    intros _. destruct k as [| k']; [| apply Hst; lia].
    cbn in Hrun. by injection Hrun as <-.
Qed.

(** A [reconnect] notification after any number of failed attempts ends
    in [connected], and the whole recovery has sent one request for the
    initial data. *)
Lemma reconnect_after_failed_attempts (k start : nat) (now n : Z) (h : UseSocket.Hook) :
  wired h ->
  let r := UseSocket.deliver_all
             (failed_attempts start k ++
              [(now, UseSocket.OnReconnectAttempt n); (now, UseSocket.OnReconnect n)])%list h in
  UseSocket.connectionStatus (fst r) = "connected" /\
  snd r = [UseSocket.Sent "request-initial-data" VUndefined].
Proof.
  intros Hw. cbv zeta. rewrite deliver_all_app.
  destruct (failed_attempts_show_error k start h Hw) as (Hw1 & -> & _).
  cbn [fst snd app UseSocket.deliver_all].
  pose proof (UseSocketFacts.deliver_keeps_wired now (UseSocket.OnReconnectAttempt n) _ Hw1)
    as Hw2.
  rewrite (UseSocketFacts.deliver_wired _ _ _ Hw1) in Hw2 |- *.
  cbn [UseSocket.own_listener fst snd] in Hw2 |- *.
  rewrite (UseSocketFacts.deliver_wired _ _ _ Hw2). by cbn.
Qed.

(** ** The reaper, run *)


Example reaper_run :
  let '(s', out, cleaned) :=
    cleanupInactiveConnections 1800001 default_maxInactiveMinutes two_sessions in
  dom (connectedClients s') = {["new"]} /\ sockets s' = {["new"]} /\ cleaned = 1%nat /\
  actions out = [ForceDisconnect "old"; IoEmit {["new"]} "client-count-update" (ClientCount 1)].
Proof. vm_compute. repeat split. Qed.

(** ** The end-to-end scenarios, run *)

(** Two sessions connect, the good datagram arrives and its store
    succeeds: one row is in the table, with the coordinates sent, and each
    session has received one [location-update] for it. *)
Example end_to_end_good :
  let history :=
    [ (1700000000000, Connection "s1");
      (1700000000001, Connection "s2");
      (1700000000100, UdpMessage scenario_good "10.0.0.7:5005");
      (1700000000105, StoreSettles scenario_good (bound_values good_report) Fulfilled) ] in
  let '(w, out) := run scenario_parse history initial_world in
  let update :=
    ("location-update",
     NewLocation {| fd_id := 1;
                    fd_latitude := VNum (374219983 # 10000000);
                    fd_longitude := VNum (-122084 # 1000);
                    fd_timestamp_value := VNum (1700000000000 # 1);
                    fd_created_at := 1700000000105 |}
                 1700000000105 2) in
  store_calls out = [bound_values good_report] /\
  map latitude (location_data (pool w)) = [VNum (374219983 # 10000000)] /\
  map longitude (location_data (pool w)) = [VNum (-122084 # 1000)] /\
  List.filter (fun p => String.eqb (fst p) "location-update") (inbox "s1" out) = [update] /\
  List.filter (fun p => String.eqb (fst p) "location-update") (inbox "s2" out) = [update] /\
  inbox "s3" out = [].
Proof. vm_compute. repeat split. Qed.

(** The datagram with latitude 95: nothing is stored, nothing is sent. *)
Example end_to_end_bad_latitude :
  let history :=
    [ (1700000000000, Connection "s1");
      (1700000000100, UdpMessage scenario_bad_latitude "10.0.0.7:5005") ] in
  let before := run scenario_parse [(1700000000000, Connection "s1")] initial_world in
  let '(w, out) := run scenario_parse history initial_world in
  w = fst before /\ location_data (pool w) = [] /\
  store_calls out = [] /\ actions out = actions (snd before).
Proof. vm_compute. repeat split. Qed.

(** * Further properties *)

(** ** The validator, completely *)

(** X1.  The validator throws on [null] and [undefined]; on anything else
    it answers, and it answers [true] exactly for an object whose [lat],
    [lon] and [time] are numbers with [-90 <= lat <= 90] and
    [-180 <= lon <= 180], bounds included.  Nothing else is looked at:
    neither the sign or the integrality of [time] nor any other field. *)
Theorem validator_accepts_exactly (data : value) :
  (nullish data = true -> validateLocationData data = ([], Throws TypeError)) /\
  (nullish data = false ->
   exists out verdict,
     validateLocationData data = (out, Returns verdict) /\
     (verdict = true <-> acceptable data) /\
     (verdict = false <-> unacceptable data)).
Proof.
  destruct (validate_cases data) as [[Hn Hv] | (Hn & Hv & _)].
  - split; [done | congruence].
  - split; [congruence |]. intros _.
    destruct (validateLocationData data) as [out r]. cbn in Hv. subst r.
    exists out, (acceptableb data). split; [reflexivity |].
    split; [apply acceptableb_spec |].
    rewrite <- not_true_iff_false, acceptableb_spec. split.
    + apply not_acceptable_unacceptable.
    + apply unacceptable_not_acceptable.
Qed.

(** X2.  The validator writes nothing when it accepts and exactly one
    warning when it refuses; when a required field is missing (or
    [null]), the warning names the first such field in the order [lat],
    [lon], [time], and no later check is reported. *)
Theorem validator_warns_once (data : value) :
  nullish data = false ->
  (acceptable data -> fst (validateLocationData data) = []) /\
  (~ acceptable data ->
   exists text, fst (validateLocationData data) = [Console WarnLevel text]) /\
  (forall k, first_missing data = Some k ->
     fst (validateLocationData data) =
       [Console WarnLevel ("Campo requerido faltante: " ++ k)]).
Proof.
  intros Hn. rewrite <- acceptableb_spec.
  unfold first_missing, requiredFields, acceptableb.
  destruct data as [| |b|q|s|elems|props]; try discriminate;
    try (cbn; split; [discriminate | split; [eauto | by intros k [= <-]]]).
  unfold validateLocationData, required_present, requiredFields, field.
  cbn [get lift List.find].
  generalize (own props "lat") (own props "lon") (own props "time").
  intros a b c.
  destruct a as [| | |la| | |], b as [| | |lo| | |], c as [| | |t| | |];
    cbn; try (split; [discriminate | split; [eauto | intros k Hk; by inversion Hk]]).
  destruct (Qle_bool (-90) la), (Qle_bool la 90), (Qle_bool (-180) lo), (Qle_bool lo 180);
    cbn; (split; [try discriminate; try reflexivity | split; [try eauto; try done | discriminate]]).
Qed.

Lemma validator_warns_once_witness :
  nullish bad_latitude_report = false /\
  exists text, fst (validateLocationData bad_latitude_report) = [Console WarnLevel text].
Proof.
  split; [reflexivity |].
  apply (proj1 (proj2 (validator_warns_once bad_latitude_report eq_refl))).
  intros (la & lo & t & Hla & _ & _ & _ & Hle & _).
  injection Hla as <-. apply Hle. reflexivity.
Defined.

(** ** Invariants of the event loop *)

Section Invariants.

Variable JSON_parse : string -> result value.

(** X3.  Whatever events arrive and in whatever order, the server keeps
    running (no listener's promise rejects) and the registry names exactly
    the live sockets: a session is registered as long as, and only as long
    as, its socket is open. *)
Theorem server_keeps_running_and_registry_in_step (evs : list (Z * event)) :
  running (fst (run JSON_parse evs initial_world)) = true /\
  dom (connectedClients (svc (fst (run JSON_parse evs initial_world)))) =
  sockets (svc (fst (run JSON_parse evs initial_world))).
Proof.
  destruct (run_invariant JSON_parse evs initial_world) as [Hc Hr]; [| by split].
  split; [| reflexivity]. unfold registry_consistent. cbn. apply dom_empty_L.
Qed.

Lemma cleanup_entry_counts (now : Z) (maxInactiveMinutes : Q)
    (s : SocketService) (out : list effect) (c : nat) (entry : string * ClientInfo) :
  registry_consistent s -> Forall counts_its_recipients out ->
  registry_consistent (fst (fst (cleanup_entry now maxInactiveMinutes (s, out, c) entry))) /\
  Forall counts_its_recipients
         (snd (fst (cleanup_entry now maxInactiveMinutes (s, out, c) entry))).
Proof.
  intros Hs Hout. destruct entry as [k ci]. unfold cleanup_entry.
  destruct (inactive now maxInactiveMinutes ci); [| by split].
  unfold registry_consistent in *.
  destruct (decide (k ∈ sockets s)) as [Hk | Hk]; cbn.
  - split.
    + rewrite !dom_delete_L, Hs. set_solver.
    + rewrite app_nil_r || idtac. apply Forall_app. split; [exact Hout |].
      repeat constructor. cbn. by rewrite <- size_dom, dom_delete_L, Hs.
  - split.
    + rewrite dom_delete_L, Hs. set_solver.
    + by rewrite app_nil_r.
Qed.

Lemma cleanup_loop_counts (now : Z) (maxInactiveMinutes : Q)
    (entries : list (string * ClientInfo)) :
  forall acc,
    registry_consistent (fst (fst acc)) -> Forall counts_its_recipients (snd (fst acc)) ->
    Forall counts_its_recipients
           (snd (fst (fold_left (cleanup_entry now maxInactiveMinutes) entries acc))).
Proof.
  induction entries as [| entry entries IH]; intros [[s out] c] Hs Hout; [exact Hout |].
  cbn [fold_left]. cbn [fst snd] in Hs, Hout.
  destruct (cleanup_entry_counts now maxInactiveMinutes s out c entry Hs Hout) as [Hs1 Hout1].
  by apply IH.
Qed.

Lemma step_counts (now : Z) (ev : event) (w : World) :
  registry_consistent (svc w) ->
  Forall counts_its_recipients (snd (step JSON_parse now ev w)).
Proof.
  intros Hs. unfold step. destruct (running w); cbn [negb]; [| constructor].
  destruct ev as [socketId | socketId | socketId | socketId | socketId [| e]
                 | socketId reason | | msg rinfo | msg values [| e]].
  - cbn. repeat constructor. cbn.
    unfold registry_consistent in Hs. by rewrite <- size_dom, dom_insert_L, Hs.
  - cbn. repeat constructor.
  - cbn. repeat constructor.
  - cbn. repeat constructor.
  - cbn. repeat constructor.
  - cbn. repeat constructor.
  - cbn. repeat constructor. cbn.
    unfold registry_consistent in Hs. by rewrite <- size_dom, dom_delete_L, Hs.
  - cbn [with_svc snd fst]. unfold cleanupInactiveConnections.
    pose proof (cleanup_loop_counts now default_maxInactiveMinutes
                  (map_to_list (connectedClients (svc w))) (svc w, [], 0%nat) Hs
                  (Forall_nil_2 _)) as Hloop.
    destruct (fold_left _ _ _) as [[s' out] c]. cbn [fst snd] in *.
    apply Forall_app. split; [exact Hloop |]. destruct (0 <? c)%nat; repeat constructor.
  - destruct (message_received_returns JSON_parse msg rinfo) as (out & p & Hrecv).
    destruct (JSON_parse msg) as [data | e] eqn:Hparse.
    + destruct (acceptableb data) eqn:Hacc.
      * destruct (message_received_accepted JSON_parse msg rinfo data Hparse Hacc)
          as (out' & -> & Hout'). cbn.
        apply Forall_app. split; [| repeat constructor].
        eapply Forall_impl; [exact Hout' |]. by intros [].
      * destruct (message_received_refused JSON_parse msg rinfo data Hparse Hacc)
          as (out' & -> & Hout'). cbn.
        eapply Forall_impl; [exact Hout' |]. by intros [].
    + destruct (message_received_undecodable JSON_parse msg rinfo e Hparse)
        as (out' & -> & Hout'). cbn.
      eapply Forall_impl; [exact Hout' |]. by intros [].
  - unfold insert_returning. rewrite message_resumed_fulfilled. cbn.
    repeat constructor. cbn. unfold registry_consistent in Hs. by rewrite <- size_dom, Hs.
  - destruct (message_resumed_rejected msg now (svc w) e) as (out & -> & Hout). cbn.
    eapply Forall_impl; [exact Hout |]. by intros [].
Qed.

(** X4.  Along every history, each broadcast that announces a number of
    clients ([client-count-update] and [location-update]) announces the
    number of sockets the broadcast is sent to, the reaper's intermediate
    announcements included. *)
Theorem announced_count_is_number_of_recipients (evs : list (Z * event)) :
  Forall counts_its_recipients (snd (run JSON_parse evs initial_world)).
Proof.
  assert (forall evs w, registry_consistent (svc w) /\ running w = true ->
                        Forall counts_its_recipients (snd (run JSON_parse evs w))) as Hgen.
  { clear evs. induction evs as [| [now ev] evs IH]; intros w Hw; [constructor |].
    cbn [run]. pose proof (step_counts now ev w (proj1 Hw)) as Hstep.
    pose proof (step_invariant JSON_parse now ev w Hw) as Hw1.
    destruct (step JSON_parse now ev w) as [w1 out1]. cbn [fst snd] in *.
    specialize (IH w1 Hw1). destruct (run JSON_parse evs w1) as [w2 out2].
    cbn [snd] in *. by apply Forall_app. }
  apply Hgen. split; [| reflexivity]. unfold registry_consistent. cbn. apply dom_empty_L.
Qed.

End Invariants.

(** ** The table of the real-time path *)

Section Table.

Variable JSON_parse : string -> result value.



(** X6.  A client that connects and then disconnects, its identity
    being new, leaves the server exactly as it was; the last
    announcement of the pair gives the old number of clients, to the old
    sockets. *)
Theorem connect_then_disconnect_restores
    (now1 now2 : Z) (socketId reason : string) (w : World) :
  running w = true ->
  connectedClients (svc w) !! socketId = None ->
  socketId ∉ sockets (svc w) ->
  fst (run JSON_parse [(now1, Connection socketId); (now2, Disconnect socketId reason)] w) = w /\
  last (snd (run JSON_parse [(now1, Connection socketId); (now2, Disconnect socketId reason)] w))
    = Some (IoEmit (sockets (svc w)) "client-count-update"
                   (ClientCount (size (connectedClients (svc w))))).
Proof.
  intros Hrun Hnew Hclosed. destruct w as [[clients live] p r]. cbn in *. subst r.
  assert (delete socketId (<[socketId:={| connectedAt := now1; lastActivity := now1 |}]> clients)
          = clients) as Hdel by (by apply delete_insert_id).
  assert (({[socketId]} ∪ live) ∖ {[socketId]} = live) as Hlive by (apply set_eq; set_solver).
  unfold step. cbn. rewrite Hdel, Hlive. by split.
Qed.

(** X7.  A registered session that pings at [t1] survives a run of the
    reaper at [t2] exactly when at most thirty minutes have passed: up to
    1800000 ms it is still registered, with the ping as its last
    activity; one millisecond more and it is gone. *)
Theorem pinged_session_outlives_reaper
    (t1 t2 : Z) (socketId : string) (ci : ClientInfo) (w : World) :
  running w = true ->
  connectedClients (svc w) !! socketId = Some ci ->
  let w2 := fst (run JSON_parse [(t1, Ping socketId); (t2, CleanupTick)] w) in
  (t2 - t1 <= 1800000 ->
   connectedClients (svc w2) !! socketId =
     Some {| connectedAt := connectedAt ci; lastActivity := t1 |}) /\
  (1800000 < t2 - t1 -> connectedClients (svc w2) !! socketId = None).
Proof.
  intros Hrun Hreg. cbv zeta.
  set (s1 := {| connectedClients :=
                  <[socketId := {| connectedAt := connectedAt ci; lastActivity := t1 |}]>
                    (connectedClients (svc w));
                sockets := sockets (svc w) |}).
  assert (step JSON_parse t1 (Ping socketId) w =
          ({| svc := s1; pool := pool w; running := true |},
           [SocketEmit socketId "pong" (PongAt t1)])) as Hping.
  { unfold step. rewrite Hrun. unfold with_svc, on_ping. rewrite Hreg, Hrun. reflexivity. }
  cbn [run]. rewrite Hping. unfold step. cbn [running negb with_svc fst snd svc].
  pose proof (cleanup_registry t2 default_maxInactiveMinutes s1) as Hclean.
  destruct (cleanupInactiveConnections t2 default_maxInactiveMinutes s1) as [[s2 out] c].
  cbn [fst snd svc] in *. rewrite Hclean, map_lookup_filter. unfold s1. cbn [connectedClients].
  rewrite lookup_insert_eq. cbn.
  assert (inactive t2 default_maxInactiveMinutes
                   {| connectedAt := connectedAt ci; lastActivity := t1 |} = true
          <-> 1800000 < t2 - t1) as Hage.
  { change default_maxInactiveMinutes with (inject_Z 30).
    rewrite inactive_whole_minutes by (cbn; lia).
    unfold exceeds_threshold. cbn [lastActivity]. lia. }
  split; intros Ht.
  - rewrite option_guard_True; [done |]. cbn.
    apply not_true_iff_false. rewrite Hage. lia.
  - rewrite option_guard_False; [done |]. cbn.
    apply not_false_iff_true. rewrite Hage. lia.
Qed.

End Table.


Lemma connect_then_disconnect_restores_witness :
  fst (run scenario_parse [(1000, Connection "s1"); (2000, Disconnect "s1" "transport close")]
           initial_world) = initial_world.
Proof.
  apply (connect_then_disconnect_restores scenario_parse 1000 2000 "s1" "transport close"
           initial_world).
  - reflexivity.
  - reflexivity.
  - apply not_elem_of_empty.
Defined.

Lemma pinged_session_outlives_reaper_witness :
  connectedClients
    (svc (fst (run scenario_parse [(1000, Ping "new"); (1801000, CleanupTick)]
                   {| svc := two_sessions; pool := pool initial_world; running := true |})))
    !! "new" = Some {| connectedAt := 0; lastActivity := 1000 |}.
Proof.
  refine (proj1 (pinged_session_outlives_reaper scenario_parse 1000 1801000 "new"
                   {| connectedAt := 0; lastActivity := 1 |}
                   {| svc := two_sessions; pool := pool initial_world; running := true |}
                   eq_refl eq_refl) _).
  lia.
Defined.

(** ** The initial data *)

Lemma insert_latest_first_perm (r : FrontendData) (l : list FrontendData) :
  insert_latest_first r l ≡ₚ r :: l.
Proof.
  induction l as [| x l IH]; cbn; [reflexivity |].
  destruct (fd_created_at x <? fd_created_at r)%Z; [reflexivity |].
  rewrite IH. apply Permutation_swap.
Qed.

Lemma insert_latest_first_sorted (r : FrontendData) (l : list FrontendData) :
  latest_first l -> latest_first (insert_latest_first r l).
Proof.
  unfold latest_first. induction 1 as [| x l Hl IH Hx]; cbn.
  - repeat constructor.
  - destruct (fd_created_at x <? fd_created_at r)%Z eqn:Hlt.
    + apply Z.ltb_lt in Hlt. constructor; [by constructor |].
      constructor; [lia |]. eapply Forall_impl; [exact Hx |]. cbn. intros y Hy. lia.
    + apply Z.ltb_ge in Hlt. constructor; [exact IH |].
      rewrite insert_latest_first_perm. by constructor.
Qed.

Lemma sort_latest_first (l : list FrontendData) :
  latest_first (fold_right insert_latest_first [] l) /\
  fold_right insert_latest_first [] l ≡ₚ l.
Proof.
  induction l as [| r l [IHs IHp]]; cbn.
  - split; [constructor | reflexivity].
  - split; [by apply insert_latest_first_sorted |].
    by rewrite insert_latest_first_perm, IHp.
Qed.

(** What [getAll(limit, offset)] selects: a stretch of the rows' columns
    put latest first. *)
Lemma select_recent_stretch (limit offset : nat) (p : Pool) :
  exists skipped rest,
    length skipped = Nat.min offset (length (location_data p)) /\
    (skipped ++ select_recent limit offset p ++ rest)%list ≡ₚ
      map select_columns (location_data p) /\
    latest_first (skipped ++ select_recent limit offset p ++ rest)%list /\
    length (select_recent limit offset p) =
      Nat.min limit (length (location_data p) - offset).
Proof.
  unfold select_recent.
  set (sorted := fold_right insert_latest_first [] (map select_columns (location_data p))).
  destruct (sort_latest_first (map select_columns (location_data p))) as [Hs Hp].
  fold sorted in Hs, Hp.
  assert (length sorted = length (location_data p)) as Hlen.
  { by rewrite (Permutation_length Hp), length_map. }
  exists (firstn offset sorted), (skipn limit (skipn offset sorted)).
  rewrite firstn_skipn, firstn_skipn.
  split; [by rewrite length_firstn, Hlen |].
  split; [exact Hp |]. split; [exact Hs |].
  by rewrite length_firstn, length_skipn, Hlen.
Qed.

Lemma latest_first_app_l (l1 l2 : list FrontendData) :
  latest_first (l1 ++ l2)%list -> latest_first l1.
Proof.
  unfold latest_first. induction l1 as [| x l1 IH]; cbn; [constructor |].
  intros Hs. apply StronglySorted_inv in Hs as [Hs Hx].
  constructor; [by apply IH |]. apply Forall_app in Hx. tauto.
Qed.

Lemma latest_first_app_r (l1 l2 : list FrontendData) :
  latest_first (l1 ++ l2)%list -> latest_first l2.
Proof.
  unfold latest_first. induction l1 as [| x l1 IH]; cbn; [done |].
  intros Hs. apply StronglySorted_inv in Hs as [Hs _]. by apply IH.
Qed.

(** X8.  A request for the initial data sends nothing until the query
    has settled.  When the query succeeds the requester, and nobody else,
    receives one [initial-data] packet with the ten latest records of the
    table (all of them when there are fewer), latest first, each with the
    five selected columns of its row; when it fails the requester
    receives one failure packet.  Neither changes the server. *)
Theorem initial_data_are_the_ten_latest
    (JSON_parse : string -> result value) (now : Z) (socketId : string) (w : World) :
  running w = true ->
  (exists out,
      step JSON_parse now (RequestInitialData socketId) w = (w, out) /\
      forall other, inbox other out = []) /\
  (exists data rest out,
      step JSON_parse now (InitialDataSettles socketId Fulfilled) w = (w, out) /\
      (forall other,
          inbox other out =
          if decide (socketId = other) then [("initial-data", InitialData data now)] else []) /\
      length data = Nat.min 10 (length (location_data (pool w))) /\
      (data ++ rest)%list ≡ₚ map select_columns (location_data (pool w)) /\
      latest_first (data ++ rest)%list) /\
  (forall error,
      exists out,
        step JSON_parse now (InitialDataSettles socketId (Rejected error)) w = (w, out) /\
        forall other,
          inbox other out =
          if decide (socketId = other)
          then [("initial-data", InitialDataFailed "Error al obtener datos iniciales")]
          else []).
Proof.
  intros Hrun. split; [| split].
  - unfold step. rewrite Hrun. cbn. eexists. split; [reflexivity | done].
  - destruct (select_recent_stretch 10 0 (pool w)) as (skipped & rest & Hsk & Hperm & Hsort & Hlen).
    destruct skipped; [| discriminate]. cbn [app] in *.
    exists (select_recent 10 0 (pool w)), rest.
    unfold step. rewrite Hrun. cbn [negb settle_listener initial_data_settled].
    eexists. split; [reflexivity |].
    split; [| split; [by rewrite Hlen, Nat.sub_0_r | by split]].
    intros other. cbn. by destruct (decide (socketId = other)).
  - intros error. unfold step. rewrite Hrun. cbn. eexists. split; [reflexivity |].
    intros other. cbn. by destruct (decide (socketId = other)).
Qed.

Lemma initial_data_are_the_ten_latest_witness :
  exists out,
    step scenario_parse 1700000000200 (RequestInitialData "s1") initial_world =
      (initial_world, out) /\
    forall other, inbox other out = [].
Proof.
  exact (proj1 (initial_data_are_the_ten_latest scenario_parse 1700000000200 "s1"
                  initial_world eq_refl)).
Defined.

(** ** Custom messages and the statistics *)

Lemma own_set_prop_eq (k : string) (v : value) (props : list (string * value)) :
  own (set_prop k v props) k = v.
Proof.
  induction props as [| [k' v'] props IH]; cbn.
  - by rewrite String.eqb_refl.
  - destruct (String.eqb k k') eqn:Hk; cbn; [by rewrite String.eqb_refl | by rewrite Hk].
Qed.

Lemma own_set_prop_ne (k k' : string) (v : value) (props : list (string * value)) :
  k' <> k -> own (set_prop k v props) k' = own props k'.
Proof.
  intros Hne. induction props as [| [k0 v0] props IH]; cbn.
  - by rewrite (proj2 (String.eqb_neq k' k) Hne).
  - destruct (String.eqb k k0) eqn:Hk; cbn.
    + apply String.eqb_eq in Hk. subst k0. by rewrite (proj2 (String.eqb_neq k' k) Hne).
    + by rewrite IH.
Qed.

(** A member is set without touching the number or the order of the
    others. *)
Lemma set_prop_keys (k : string) (v : value) (props : list (string * value)) :
  (set_prop k v props).*1 =
  if decide (k ∈ props.*1) then props.*1 else (props.*1 ++ [k])%list.
Proof.
  induction props as [| [k' v'] props IH]; cbn; [done |].
  destruct (String.eqb k k') eqn:Hk; cbn.
  - apply String.eqb_eq in Hk. subst k'. rewrite decide_True; [done | by left].
  - apply String.eqb_neq in Hk. rewrite IH.
    destruct (decide (k ∈ props.*1)) as [Hin | Hin].
    + rewrite decide_True; [done | by right].
    + rewrite decide_False; [done |]. rewrite elem_of_cons. tauto.
Qed.

(** X9.  [broadcastMessage] goes to every live socket under the given
    event name.  In its payload [timestamp] is the server's time and
    [totalClients] the size of the registry, whatever [data] held under
    these two names; every other member of [data] is passed on
    unchanged. *)
Theorem broadcastMessage_stamps_over_data
    (toISOString : Z -> string) (now : Z) (name : string) (data : value) (s : SocketService) :
  let sent := broadcastMessage toISOString now name data s in
  recipients sent = sockets s /\
  eventName sent = name /\
  field (payload sent) "timestamp" = VStr (toISOString now) /\
  field (payload sent) "totalClients" =
    VNum (inject_Z (Z.of_nat (size (connectedClients s)))) /\
  (forall k, k <> "timestamp" -> k <> "totalClients" ->
             field (payload sent) k = own (spread data) k).
Proof.
  cbv zeta. unfold broadcastMessage. cbn [recipients eventName payload field].
  repeat split.
  - rewrite own_set_prop_ne by discriminate. apply own_set_prop_eq.
  - apply own_set_prop_eq.
  - intros k Ht Hc. by rewrite !own_set_prop_ne.
Qed.

(** X10.  [sendToClient] answers [true] exactly when the client's socket
    is live (which, for a consistent registry, is when the client is
    registered), and then sends one message, to that socket only, with
    the server's time as [timestamp] and the other members of [data]
    unchanged (no count of clients is added); for any other client it
    answers [false] and sends nothing. *)
Theorem sendToClient_reaches_only_a_live_socket
    (toISOString : Z -> string) (now : Z) (clientId name : string) (data : value)
    (s : SocketService) :
  let r := sendToClient toISOString now clientId name data s in
  (fst r = true <-> clientId ∈ sockets s) /\
  (registry_consistent s -> (fst r = true <-> is_Some (connectedClients s !! clientId))) /\
  (fst r = false -> snd r = []) /\
  (fst r = true ->
   exists sent,
     snd r = [sent] /\
     recipients sent = {[clientId]} /\
     eventName sent = name /\
     field (payload sent) "timestamp" = VStr (toISOString now) /\
     (forall k, k <> "timestamp" -> field (payload sent) k = own (spread data) k)).
Proof.
  cbv zeta. unfold sendToClient.
  destruct (decide (clientId ∈ sockets s)) as [Hin | Hout]; cbn [fst snd].
  - split; [tauto |]. split.
    + unfold registry_consistent. intros Hc. by rewrite <- elem_of_dom, Hc.
    + split; [discriminate |]. intros _. eexists. split; [reflexivity |].
      cbn [recipients eventName payload field]. repeat split.
      * apply own_set_prop_eq.
      * intros k Hk. by rewrite own_set_prop_ne.
  - split; [split; [discriminate | contradiction] |]. split.
    + unfold registry_consistent. intros Hc. rewrite <- elem_of_dom, Hc.
      split; [discriminate | contradiction].
    + split; [done | discriminate].
Qed.

(** X11.  In every state the server reaches, [getConnectionStats] lists
    each live socket exactly once, with the dates the registry holds for
    it, and lists nothing else; [totalClients] is the length of the
    list. *)
Theorem getConnectionStats_lists_the_live_sessions
    (JSON_parse : string -> result value) (evs : list (Z * event)) :
  let s := svc (fst (run JSON_parse evs initial_world)) in
  fst (getConnectionStats s) = length (snd (getConnectionStats s)) /\
  NoDup (snd (getConnectionStats s)).*1 /\
  (forall clientId, clientId ∈ (snd (getConnectionStats s)).*1 <-> clientId ∈ sockets s) /\
  (forall clientId info,
      (clientId, info) ∈ snd (getConnectionStats s) <->
      connectedClients s !! clientId = Some info).
Proof.
  cbv zeta. unfold getConnectionStats. cbn [fst snd].
  destruct (run_invariant JSON_parse evs initial_world) as [Hc _].
  { split; [| reflexivity]. unfold registry_consistent. cbn. apply dom_empty_L. }
  unfold registry_consistent in Hc.
  split; [by rewrite length_map_to_list |].
  split; [apply NoDup_fst_map_to_list |].
  split.
  - intros clientId. rewrite <- Hc, elem_of_dom, list_elem_of_fmap. split.
    + intros ([k info] & -> & Hin). apply elem_of_map_to_list in Hin. by exists info.
    + intros [info Hin]. exists (clientId, info). split; [done |].
      by apply elem_of_map_to_list.
  - intros clientId info. apply elem_of_map_to_list.
Qed.

(** ** The read queries *)

Lemma head_select_recent (p : Pool) :
  head (select_recent 1 0 p) =
  head (fold_right insert_latest_first [] (map select_columns (location_data p))).
Proof. unfold select_recent. cbn [skipn]. by destruct (fold_right _ _ _). Qed.

(** The latest record: none for an empty table, otherwise the columns of
    a row that no row is later than. *)
Lemma latest_spec (p : Pool) :
  match head (select_recent 1 0 p) with
  | None => location_data p = []
  | Some r =>
      r ∈ map select_columns (location_data p) /\
      forall row, row ∈ location_data p -> created_at row <= fd_created_at r
  end.
Proof.
  rewrite head_select_recent.
  destruct (sort_latest_first (map select_columns (location_data p))) as [Hs Hp].
  destruct (fold_right _ _ _) as [| r sorted] eqn:Hsorted; cbn.
  - apply Permutation_nil in Hp. by destruct (location_data p).
  - split.
    + rewrite <- Hp. by left.
    + intros row Hrow. apply StronglySorted_inv in Hs as [_ Hr].
      assert (select_columns row ∈ r :: sorted) as Hin.
      { rewrite Hp. apply list_elem_of_fmap. by exists row. }
      apply elem_of_cons in Hin as [Heq | Hin].
      * rewrite <- Heq. cbn. lia.
      * rewrite Forall_forall in Hr.
        specialize (Hr _ Hin). cbn in Hr. exact Hr.
Qed.

(** X12.  A record that has just been created, later than every record
    the table held, is what [getLatest] returns next, and [getCount] has
    grown by one. *)
Theorem created_record_is_the_latest (now : Z) (values : list value) (p : Pool) :
  (forall row, row ∈ location_data p -> created_at row < now) ->
  let row := fst (insert_returning now values p) in
  let p' := snd (insert_returning now values p) in
  LocationModel.getLatest p' Fulfilled = ([], Returns (Some (select_columns row))) /\
  (exists n, LocationModel.getCount p Fulfilled = ([], Returns n) /\
             LocationModel.getCount p' Fulfilled = ([], Returns (n + 1))).
Proof.
  intros Hold. cbv zeta. split.
  - unfold LocationModel.getLatest. cbn [LocationModel.engine lift bind try_catch ret].
    pose proof (latest_spec (snd (insert_returning now values p))) as Hlatest.
    destruct (head (select_recent 1 0 (snd (insert_returning now values p)))) as [r |] eqn:Hhead.
    + cbn. do 3 f_equal. destruct Hlatest as [Hin Hmax].
      cbn [insert_returning snd location_data] in Hin, Hmax.
      rewrite map_app in Hin. apply elem_of_app in Hin as [Hin | Hin].
      * exfalso. apply list_elem_of_fmap in Hin as (row & -> & Hrow).
        specialize (Hold row Hrow).
        specialize (Hmax (fst (insert_returning now values p))).
        cbn in Hmax. assert (now <= created_at row); [| lia].
        apply Hmax. apply elem_of_app. right. by left.
      * cbn in Hin. apply list_elem_of_singleton in Hin. by subst r.
    + exfalso. cbn in Hlatest. by destruct (location_data p).
  - exists (Z.of_nat (length (location_data p))). split; [reflexivity |].
    unfold LocationModel.getCount. cbn. rewrite length_app. cbn. do 3 f_equal. lia.
Qed.

Lemma created_record_is_the_latest_witness :
  LocationModel.getLatest
    (snd (insert_returning 1700000000999 (bound_values report_with_optionals) one_row_pool))
    Fulfilled =
  ([], Returns (Some (select_columns
                        (fst (insert_returning 1700000000999
                                (bound_values report_with_optionals) one_row_pool))))).
Proof.
  refine (proj1 (created_record_is_the_latest 1700000000999
                   (bound_values report_with_optionals) one_row_pool _)).
  intros row Hrow. apply list_elem_of_singleton in Hrow. subst row. reflexivity.
Defined.

(** ** The HTTP handlers *)

Section HandlerFacts.

Variable parseInt : option string -> option Z.
Variable development : bool.

Import LocationController.

(** X13.  [getAllLocations] on an unchanged table: the page parameters
    default to 50 and 0 when they are missing, not numbers or zero; the
    page holds [min limit (total - offset)] records (none past the end),
    and [hasMore] says exactly that records remain after the page. *)
Theorem getAllLocations_pages (limit offset : option string) (p : Pool) :
  let l := or_default (parseInt limit) 50 in
  let o := or_default (parseInt offset) 0 in
  let total := Z.of_nat (length (location_data p)) in
  0 <= l <= MAX_SAFE_INTEGER -> 0 <= o <= MAX_SAFE_INTEGER ->
  exists data hasMore,
    getAllLocations parseInt development limit offset p p Fulfilled Fulfilled =
      ([], {| status := 200; success := true; content := Page data total l o hasMore |}) /\
    data = select_recent (Z.to_nat l) (Z.to_nat o) p /\
    Z.of_nat (length data) = Z.min l (Z.max 0 (total - o)) /\
    (hasMore = true <-> o + l < total) /\
    ((parseInt limit = None \/ parseInt limit = Some 0) -> l = 50) /\
    ((parseInt offset = None \/ parseInt offset = Some 0) -> o = 0).
Proof.
  intros l o total Hl Ho.
  exists (select_recent (Z.to_nat l) (Z.to_nat o) p).
  exists (o + Z.of_nat (length (select_recent (Z.to_nat l) (Z.to_nat o) p)) <? total)%Z.
  destruct (select_recent_stretch (Z.to_nat l) (Z.to_nat o) p) as (_ & _ & _ & _ & _ & Hlen).
  split; [| split; [reflexivity | split; [| split; [| split]]]].
  - unfold getAllLocations. fold l o. unfold LocationModel.getAll.
    destruct (Z.ltb_spec l 0) as [? | _]; [lia |].
    destruct (Z.ltb_spec o 0) as [? | _]; [lia |].
    reflexivity.
  - rewrite Hlen. subst total. lia.
  - rewrite Z.ltb_lt, Hlen. subst total.
    assert (l <> 0).
    { subst l. unfold or_default. destruct (parseInt limit) as [k |]; [| lia].
      destruct (Z.eqb_spec k 0); lia. }
    lia.
  - subst l. intros [-> | ->]; reflexivity.
  - subst o. intros [-> | ->]; reflexivity.
Qed.

(** X14.  Neither page parameter is checked by the handler: a negative
    one reaches the storage engine, whose refusal is answered with status
    500 like any other storage failure, not with 400. *)
Theorem getAllLocations_negative_parameter (limit offset : option string) (p1 p2 : Pool)
    (outcome : settlement) :
  or_default (parseInt limit) 50 < 0 \/ or_default (parseInt offset) 0 < 0 ->
  exists out error,
    getAllLocations parseInt development limit offset p1 p2 Fulfilled outcome =
      (out, {| status := 500; success := false;
               content := Failure "Error interno del servidor"
                                  (if development then Some error else None) |}) /\
    store_calls out = [].
Proof.
  intros Hneg. unfold getAllLocations, LocationModel.getAll.
  destruct (Z.ltb_spec (or_default (parseInt limit) 50) 0) as [_ | Hl].
  - eexists _, _. split; reflexivity.
  - destruct (Z.ltb_spec (or_default (parseInt offset) 0) 0) as [_ | Ho]; [| lia].
    eexists _, _. split; reflexivity.
Qed.

(** X15.  [getLatestLocation] answers 404 exactly when the table is
    empty; otherwise 200 with a record of the table that none is later
    than. *)
Theorem getLatestLocation_404_iff_empty (p : Pool) :
  exists r,
    getLatestLocation development p Fulfilled = ([], r) /\
    (status r = 404 <-> location_data p = []) /\
    (location_data p <> [] ->
     exists record,
       r = {| status := 200; success := true; content := One record |} /\
       record ∈ map select_columns (location_data p) /\
       forall row, row ∈ location_data p -> created_at row <= fd_created_at record).
Proof.
  unfold getLatestLocation, LocationModel.getLatest.
  cbn [LocationModel.engine lift bind try_catch ret].
  pose proof (latest_spec p) as Hlatest.
  destruct (head (select_recent 1 0 p)) as [record |].
  - destruct Hlatest as [Hin Hmax]. eexists. split; [reflexivity |]. cbn. split.
    + split; [discriminate |]. intros Hempty. rewrite Hempty in Hin. by inversion Hin.
    + intros _. by exists record.
  - eexists. split; [reflexivity |]. cbn. split; [done |]. done.
Qed.

(** What [BETWEEN] lets through, and in what order the range comes. *)
Lemma insert_earliest_first_perm (r : FrontendData) (l : list FrontendData) :
  LocationModel.insert_earliest_first r l ≡ₚ r :: l.
Proof.
  induction l as [| x l IH]; cbn; [reflexivity |].
  destruct (LocationModel.timestamp_after x r); [reflexivity |].
  rewrite IH. apply perm_swap.
Qed.

Lemma timestamp_after_trans (r x y : FrontendData) :
  LocationModel.timestamp_after x r = true ->
  LocationModel.timestamp_after x y = false ->
  LocationModel.timestamp_after r y = false.
Proof.
  unfold LocationModel.timestamp_after.
  destruct (fd_timestamp_value x) as [| | | qx | | |]; try discriminate.
  destruct (fd_timestamp_value r) as [| | | qr | | |]; try discriminate.
  destruct (fd_timestamp_value y) as [| | | qy | | |]; try reflexivity.
  rewrite !negb_true_iff, !negb_false_iff. intros Hxr Hxy.
  apply Qle_bool_iff in Hxy. apply Qle_bool_iff.
  destruct (Qlt_le_dec qy qr) as [Hlt | Hle]; [| exact Hle].
  exfalso. assert (Qle_bool qx qr = true); [| congruence].
  apply Qle_bool_iff. apply Qle_trans with qy; [exact Hxy | by apply Qlt_le_weak].
Qed.

Lemma timestamp_after_irrefl (r : FrontendData) :
  LocationModel.timestamp_after r r = false.
Proof.
  unfold LocationModel.timestamp_after.
  destruct (fd_timestamp_value r) as [| | | q | | |]; try reflexivity.
  apply negb_false_iff, Qle_bool_iff, Qle_refl.
Qed.

Lemma timestamp_after_asym (r x : FrontendData) :
  LocationModel.timestamp_after x r = true -> LocationModel.timestamp_after r x = false.
Proof.
  intros H. apply (timestamp_after_trans r x x H), timestamp_after_irrefl.
Qed.

Lemma insert_earliest_first_sorted (r : FrontendData) (l : list FrontendData) :
  earliest_first l -> earliest_first (LocationModel.insert_earliest_first r l).
Proof.
  unfold earliest_first. induction l as [| x l IH]; cbn; intros Hs.
  - constructor; [constructor | constructor].
  - apply StronglySorted_inv in Hs as [Hs Hx].
    destruct (LocationModel.timestamp_after x r) eqn:Hafter.
    + constructor; [by constructor |]. constructor.
      * by apply timestamp_after_asym.
      * eapply Forall_impl; [exact Hx |]. intros y Hy. cbn in Hy.
        by apply (timestamp_after_trans r x y).
    + constructor; [by apply IH |].
      rewrite (insert_earliest_first_perm r l). by constructor.
Qed.

Lemma select_range_spec (startTime endTime : Z) (p : Pool) :
  earliest_first (LocationModel.select_range startTime endTime p) /\
  LocationModel.select_range startTime endTime p ≡ₚ
    List.filter (LocationModel.timestamp_between startTime endTime)
                (map select_columns (location_data p)).
Proof.
  unfold LocationModel.select_range.
  induction (List.filter _ _) as [| r l [IHs IHp]]; cbn.
  - split; [constructor | reflexivity].
  - split; [by apply insert_earliest_first_sorted |].
    by rewrite insert_earliest_first_perm, IHp.
Qed.

(** X16.  [getLocationsByTimeRange] with both bounds given and numeric:
    status 200 with exactly the records whose [timestamp_value] lies
    between the bounds, both included, earliest first, and [count] their
    number; an empty answer when the bounds are the wrong way round. *)
Theorem getLocationsByTimeRange_selects_the_range (startTime endTime : option string)
    (start end_ : Z) (p : Pool) :
  blank startTime = false -> blank endTime = false ->
  parseInt startTime = Some start -> parseInt endTime = Some end_ ->
  exists data,
    getLocationsByTimeRange parseInt development startTime endTime p Fulfilled =
      ([], {| status := 200; success := true; content := Range data (length data) |}) /\
    earliest_first data /\
    (forall r, r ∈ data <->
       r ∈ map select_columns (location_data p) /\
       exists q, fd_timestamp_value r = VNum q /\
                 (inject_Z start <= q)%Q /\ (q <= inject_Z end_)%Q) /\
    (length data <= length (location_data p))%nat /\
    (end_ < start -> data = []).
Proof.
  intros Hs He Hstart Hend. exists (LocationModel.select_range start end_ p).
  destruct (select_range_spec start end_ p) as [Hsorted Hperm].
  assert (forall r, r ∈ LocationModel.select_range start end_ p <->
            r ∈ map select_columns (location_data p) /\
            exists q, fd_timestamp_value r = VNum q /\
                      (inject_Z start <= q)%Q /\ (q <= inject_Z end_)%Q) as Hmem.
  { intros r. rewrite Hperm, !list_elem_of_In, filter_In.
    unfold LocationModel.timestamp_between.
    split.
    - intros [Hin Hb]. split; [exact Hin |].
      destruct (fd_timestamp_value r) as [| | | q | | |]; try discriminate.
      apply andb_true_iff in Hb as [H1 H2]. apply Qle_bool_iff in H1, H2.
      by exists q.
    - intros [Hin (q & -> & H1 & H2)]. split; [exact Hin |].
      apply andb_true_iff. by split; apply Qle_bool_iff. }
  split; [| split; [exact Hsorted | split; [exact Hmem | split]]].
  - unfold getLocationsByTimeRange. rewrite Hs, He, Hstart, Hend. reflexivity.
  - rewrite (Permutation_length Hperm).
    etransitivity; [apply filter_length_le |].
    by rewrite length_map.
  - intros Hwrong. destruct (LocationModel.select_range start end_ p) as [| r l]; [reflexivity |].
    exfalso. destruct (proj1 (Hmem r)) as [_ (q & _ & H1 & H2)]; [by left |].
    assert (inject_Z start <= inject_Z end_)%Q as Hle by (by apply Qle_trans with q).
    rewrite <- Zle_Qle in Hle. lia.
Qed.

(** X17.  [getLocationsByTimeRange] answers 400 without asking the
    store, whatever the store would say, when a bound is missing or empty
    or is not a number; the two cases have their own messages. *)
Theorem getLocationsByTimeRange_refuses_bad_bounds (startTime endTime : option string)
    (p : Pool) (outcome : settlement) :
  blank startTime = true \/ blank endTime = true \/
    parseInt startTime = None \/ parseInt endTime = None ->
  exists message,
    getLocationsByTimeRange parseInt development startTime endTime p outcome =
      ([], {| status := 400; success := false; content := Failure message None |}) /\
    (message = "Los parámetros startTime y endTime son requeridos" <->
     blank startTime = true \/ blank endTime = true).
Proof.
  intros Hbad. unfold getLocationsByTimeRange.
  destruct (blank startTime) eqn:Hs; cbn [orb].
  - eexists. split; [reflexivity |]. split; [by left | done].
  - destruct (blank endTime) eqn:He.
    + eexists. split; [reflexivity |]. split; [by right | done].
    + assert (parseInt startTime = None \/ parseInt endTime = None) as Hnan
        by (destruct Hbad as [? | [? | [? | ?]]]; [done | done | by left | by right]).
      destruct (parseInt startTime) as [start |], (parseInt endTime) as [end_ |];
        try (by destruct Hnan);
        (eexists; split; [reflexivity |]; split; [discriminate | by intros [? | ?]]).
Qed.

(** X18.  When the store fails, every reading handler answers 500 with
    the same message; the cause is disclosed only in development; and
    both the model and the handler write one line to the error console. *)
Theorem handlers_answer_500_when_the_store_fails (error : exn) (now : Z)
    (limit offset startTime endTime : option string) (start end_ : Z)
    (p p' : Pool) (outcome : settlement) :
  0 <= or_default (parseInt limit) 50 -> 0 <= or_default (parseInt offset) 0 ->
  blank startTime = false -> blank endTime = false ->
  parseInt startTime = Some start -> parseInt endTime = Some end_ ->
  let failure :=
    {| status := 500; success := false;
       content := Failure "Error interno del servidor"
                          (if development then Some error else None) |} in
  let failed (answered : list effect * Response) :=
    snd answered = failure /\
    exists model handler,
      fst answered = [Console ErrorLevel model; Console ErrorLevel handler] in
  failed (getAllLocations parseInt development limit offset p p' (Rejected error) outcome) /\
  failed (getAllLocations parseInt development limit offset p p' Fulfilled (Rejected error)) /\
  failed (getLatestLocation development p (Rejected error)) /\
  failed (getLocationsByTimeRange parseInt development startTime endTime p (Rejected error)) /\
  failed (getStats development now p p' (Rejected error) outcome) /\
  failed (getStats development now p p' Fulfilled (Rejected error)).
Proof.
  intros Hl Ho Hs He Hstart Hend failure failed. subst failed. cbv beta.
  split; [| split; [| split; [| split; [| split]]]]; (split; [| eexists _, _]);
    unfold getAllLocations, LocationModel.getAll, getLocationsByTimeRange;
    rewrite ?Hs, ?He, ?Hstart, ?Hend;
    try (destruct (Z.ltb_spec (or_default (parseInt limit) 50) 0) as [? | _]; [lia |]);
    try (destruct (Z.ltb_spec (or_default (parseInt offset) 0) 0) as [? | _]; [lia |]);
    reflexivity.
Qed.

(** X19.  [getStats] on an unchanged table: the total is the number of
    rows, and a latest record is reported exactly when the total is not
    zero. *)
Theorem getStats_total_and_latest_agree (now : Z) (p : Pool) :
  exists total latest,
    getStats development now p p Fulfilled Fulfilled =
      ([], {| status := 200; success := true; content := StatsOf total latest now |}) /\
    total = Z.of_nat (length (location_data p)) /\
    (latest = None <-> total = 0) /\
    (forall record, latest = Some record ->
       record ∈ map select_columns (location_data p) /\
       forall row, row ∈ location_data p -> created_at row <= fd_created_at record).
Proof.
  exists (Z.of_nat (length (location_data p))), (head (select_recent 1 0 p)).
  split; [reflexivity |]. split; [reflexivity |].
  pose proof (latest_spec p) as Hlatest.
  destruct (head (select_recent 1 0 p)) as [record |].
  - destruct Hlatest as [Hin Hmax]. split.
    + split; [discriminate |]. intros Hzero.
      destruct (location_data p); [by inversion Hin | cbn in Hzero; lia].
    + intros ? [= <-]. by split.
  - rewrite Hlatest. split; [done | discriminate].
Qed.

End HandlerFacts.

Lemma getAllLocations_pages_witness :
  exists data hasMore,
    LocationController.getAllLocations sample_parseInt false (Some "20") None
      one_row_pool one_row_pool Fulfilled Fulfilled =
      ([], {| LocationController.status := 200;
              LocationController.success := true;
              LocationController.content :=
                LocationController.Page data 1 20 0 hasMore |}) /\
    Z.of_nat (length data) = 1 /\
    (hasMore = true <-> 0 + 20 < 1).
Proof.
  destruct (getAllLocations_pages sample_parseInt false (Some "20") None one_row_pool)
    as (data & hasMore & Hanswer & _ & Hlength & Hmore & _).
  - unfold MAX_SAFE_INTEGER. cbn. lia.
  - unfold MAX_SAFE_INTEGER. cbn. lia.
  - exists data, hasMore. split; [exact Hanswer |]. split; [exact Hlength | exact Hmore].
Defined.

Lemma getAllLocations_negative_parameter_witness :
  exists out error,
    LocationController.getAllLocations (fun _ => Some (-1)) true None None
      one_row_pool one_row_pool Fulfilled Fulfilled =
      (out, {| LocationController.status := 500;
               LocationController.success := false;
               LocationController.content :=
                 LocationController.Failure "Error interno del servidor" (Some error) |}) /\
    store_calls out = [].
Proof.
  apply (getAllLocations_negative_parameter (fun _ => Some (-1)) true None None
           one_row_pool one_row_pool Fulfilled).
  left. cbn. lia.
Defined.

Lemma getLocationsByTimeRange_selects_the_range_witness :
  exists data,
    LocationController.getLocationsByTimeRange sample_parseInt false
      (Some "1600000000000") (Some "1800000000000") one_row_pool Fulfilled =
      ([], {| LocationController.status := 200;
              LocationController.success := true;
              LocationController.content := LocationController.Range data (length data) |}) /\
    earliest_first data.
Proof.
  destruct (getLocationsByTimeRange_selects_the_range sample_parseInt false
              (Some "1600000000000") (Some "1800000000000")
              1600000000000 1800000000000 one_row_pool)
    as (data & Hanswer & Hsorted & _); try reflexivity.
  exists data. split; [exact Hanswer | exact Hsorted].
Defined.

Lemma getLocationsByTimeRange_refuses_bad_bounds_witness :
  exists message,
    LocationController.getLocationsByTimeRange sample_parseInt false
      (Some "yesterday") (Some "1800000000000") one_row_pool (Rejected (Error "down")) =
      ([], {| LocationController.status := 400;
              LocationController.success := false;
              LocationController.content := LocationController.Failure message None |}).
Proof.
  destruct (getLocationsByTimeRange_refuses_bad_bounds sample_parseInt false
              (Some "yesterday") (Some "1800000000000") one_row_pool (Rejected (Error "down")))
    as (message & Hanswer & _).
  - right. right. left. reflexivity.
  - exists message. exact Hanswer.
Defined.

Lemma handlers_answer_500_when_the_store_fails_witness :
  snd (LocationController.getLatestLocation true one_row_pool (Rejected (Error "down"))) =
  {| LocationController.status := 500;
     LocationController.success := false;
     LocationController.content :=
       LocationController.Failure "Error interno del servidor" (Some (Error "down")) |}.
Proof.
  refine (proj1 (proj1 (proj2 (proj2
    (handlers_answer_500_when_the_store_fails sample_parseInt true (Error "down") 0
       (Some "20") (Some "5") (Some "1600000000000") (Some "1800000000000")
       1600000000000 1800000000000 one_row_pool one_row_pool Fulfilled _ _ _ _ _ _)))));
    try reflexivity; cbn; lia.
Defined.

(** ** Pages and pruning *)

(** With distinct instants there is one latest-first order. *)
Lemma latest_first_unique (l1 l2 : list FrontendData) :
  l1 ≡ₚ l2 -> latest_first l1 -> latest_first l2 -> NoDup (map fd_created_at l1) ->
  l1 = l2.
Proof.
  revert l2. induction l1 as [| x l1 IH]; intros l2 Hperm Hs1 Hs2 Hnd.
  - symmetry. by apply Permutation_nil.
  - destruct l2 as [| y l2]; [by apply Permutation_sym, Permutation_nil_cons in Hperm |].
    apply StronglySorted_inv in Hs1 as [Hs1 Hx]. apply StronglySorted_inv in Hs2 as [Hs2 Hy].
    rewrite Forall_forall in Hx, Hy. cbn in Hnd. apply NoDup_cons in Hnd as [Hfresh Hnd].
    assert (x = y) as <-.
    { assert (y ∈ x :: l1) as Hyin by (rewrite Hperm; by left).
      assert (x ∈ y :: l2) as Hxin by (rewrite <- Hperm; by left).
      apply elem_of_cons in Hyin as [-> | Hyin]; [reflexivity |].
      apply elem_of_cons in Hxin as [-> | Hxin]; [reflexivity |].
      exfalso. apply Hfresh.
      assert (fd_created_at x = fd_created_at y) as ->.
      { specialize (Hx y Hyin). specialize (Hy x Hxin). cbn in Hx, Hy. lia. }
      apply list_elem_of_fmap. by exists y. }
    f_equal. apply IH; [by apply Permutation_cons_inv in Hperm | done | done | done].
Qed.

(** X20.  When no two rows were created at the same instant, the order
    [ORDER BY created_at DESC] asks for is fully determined: whatever
    latest-first answer the engine gives, its window is the page [getAll]
    returns.  Then pages follow one another: the page at [offset] and the
    page after it, put together, are the records a single request for
    both returns; none is repeated or skipped. *)
Theorem consecutive_pages_tile (limit limit' offset : Z) (p : Pool) :
  distinct_instants p -> 0 <= limit -> 0 <= limit' -> 0 <= offset ->
  (forall answer, arrangement p answer ->
     LocationModel.getAll limit offset p Fulfilled =
       ([], Returns (take (Z.to_nat limit) (drop (Z.to_nat offset) answer)))) /\
  exists page page',
    LocationModel.getAll limit offset p Fulfilled = ([], Returns page) /\
    LocationModel.getAll limit' (offset + limit) p Fulfilled = ([], Returns page') /\
    LocationModel.getAll (limit + limit') offset p Fulfilled =
      ([], Returns (page ++ page')%list).
Proof.
  intros Hdistinct Hl Hl' Ho. unfold LocationModel.getAll.
  destruct (Z.ltb_spec limit 0) as [? | _]; [lia |].
  destruct (Z.ltb_spec limit' 0) as [? | _]; [lia |].
  destruct (Z.ltb_spec offset 0) as [? | _]; [lia |].
  destruct (Z.ltb_spec (offset + limit) 0) as [? | _]; [lia |].
  destruct (Z.ltb_spec (limit + limit') 0) as [? | _]; [lia |].
  split.
  - intros answer [Hperm Hsorted]. cbn. do 2 f_equal. unfold select_recent.
    destruct (sort_latest_first (map select_columns (location_data p))) as [Hs Hp].
    f_equal. f_equal. symmetry. apply latest_first_unique; [| exact Hsorted | exact Hs |].
    + by rewrite Hperm, Hp.
    + rewrite Hperm. unfold distinct_instants in Hdistinct.
      rewrite map_map. exact Hdistinct.
  - eexists _, _. split; [reflexivity |]. split; [reflexivity |].
    cbn. do 2 f_equal. unfold select_recent.
    rewrite !Z2Nat.inj_add by lia.
    rewrite <- take_take_drop. f_equal. f_equal.
    by rewrite drop_drop.
Qed.

Lemma consecutive_pages_tile_witness :
  exists page page',
    LocationModel.getAll 1 0 one_row_pool Fulfilled = ([], Returns page) /\
    LocationModel.getAll 5 (0 + 1) one_row_pool Fulfilled = ([], Returns page') /\
    LocationModel.getAll (1 + 5) 0 one_row_pool Fulfilled = ([], Returns (page ++ page')%list).
Proof.
  apply (consecutive_pages_tile 1 5 0 one_row_pool); try lia.
  unfold distinct_instants. cbn. apply NoDup_singleton.
Defined.

Lemma filter_split_length {A} (f : A -> bool) (l : list A) :
  (length (List.filter f l) + length (List.filter (fun x => negb (f x)) l))%nat = length l.
Proof.
  induction l as [| x l IH]; [reflexivity |]. cbn.
  destruct (f x); cbn; lia.
Qed.

Lemma filter_again {A} (f : A -> bool) (l : list A) :
  List.filter f (List.filter f l) = List.filter f l.
Proof.
  induction l as [| x l IH]; [reflexivity |]. cbn.
  destruct (f x) eqn:Hx; cbn; [rewrite Hx; by f_equal | exact IH].
Qed.

Lemma filter_none_left {A} (f : A -> bool) (l : list A) :
  List.filter f (List.filter (fun x => negb (f x)) l) = [].
Proof.
  induction l as [| x l IH]; [reflexivity |]. cbn.
  destruct (f x) eqn:Hx; cbn; [exact IH | by rewrite Hx].
Qed.

(** X21.  [deleteOldRecords] removes exactly the rows created more than
    [daysOld] days before now and reports their number; the rows that
    stay keep their order, identifiers are not given out again, and
    running it once more at the same instant removes nothing. *)
Theorem deleteOldRecords_prunes (now daysOld : Z) (p : Pool) :
  exists removed p',
    LocationModel.deleteOldRecords now daysOld p Fulfilled = (([], Returns removed), p') /\
    removed + Z.of_nat (length (location_data p')) = Z.of_nat (length (location_data p)) /\
    (forall row, row ∈ location_data p' <->
       row ∈ location_data p /\ now - daysOld * LocationModel.day <= created_at row) /\
    location_data p' `sublist_of` location_data p /\
    next_id p' = next_id p /\
    LocationModel.deleteOldRecords now daysOld p' Fulfilled = (([], Returns 0), p').
Proof.
  eexists _, _. split; [reflexivity |]. cbn [location_data next_id].
  split; [| split; [| split; [| split]]].
  - pose proof (filter_split_length (LocationModel.old now daysOld) (location_data p)). lia.
  - intros row. rewrite !list_elem_of_In, filter_In. unfold LocationModel.old.
    rewrite negb_true_iff, Z.ltb_ge. reflexivity.
  - induction (location_data p) as [| x l IH]; cbn; [constructor |].
    destruct (negb _); by constructor.
  - reflexivity.
  - unfold LocationModel.deleteOldRecords. cbn [location_data next_id].
    rewrite filter_again, filter_none_left. reflexivity.
Qed.

(** ** The self-test datagram *)

(** X22.  The report [sendTestData] sends passes the service's own
    validation whatever the clock reads, and reaches the store with its
    speed of zero bound as [null]. *)
Theorem self_test_report_reaches_the_store
    (JSON_parse : string -> result value) (msg rinfo : string) (now : Z) :
  JSON_parse msg = Returns (testData now) ->
  exists out,
    message_received JSON_parse msg rinfo =
      ((out ++ [PoolQuery InsertLocation
                  [VNum (374219983 # 10000000); VNum (-122084 # 1000); VNum (inject_Z now);
                   VNum 5; VNum 5; VNull; VStr "fused"]])%list,
       Returns (AwaitingCreate
                  [VNum (374219983 # 10000000); VNum (-122084 # 1000); VNum (inject_Z now);
                   VNum 5; VNum 5; VNull; VStr "fused"])) /\
    Forall is_console out.
Proof.
  intros Hparse.
  exact (message_received_accepted JSON_parse msg rinfo (testData now) Hparse eq_refl).
Qed.

Lemma self_test_report_reaches_the_store_witness :
  exists out,
    message_received (fun _ => Returns (testData 1700000000000)) "{}" "127.0.0.1:6001" =
      ((out ++ [PoolQuery InsertLocation
                  [VNum (374219983 # 10000000); VNum (-122084 # 1000);
                   VNum (inject_Z 1700000000000);
                   VNum 5; VNum 5; VNull; VStr "fused"]])%list,
       Returns (AwaitingCreate
                  [VNum (374219983 # 10000000); VNum (-122084 # 1000);
                   VNum (inject_Z 1700000000000);
                   VNum 5; VNum 5; VNull; VStr "fused"])) /\
    Forall is_console out.
Proof.
  apply (self_test_report_reaches_the_store
           (fun _ => Returns (testData 1700000000000)) "{}" "127.0.0.1:6001" 1700000000000).
  reflexivity.
Defined.

(** ** The consumer's handlers on the client *)

Lemma remove_first_fresh (eventName : string) (f : UseSocket.fn)
    (cbs : list (string * UseSocket.fn)) :
  (eventName, f) ∉ cbs ->
  UseSocket.remove_first eventName f (cbs ++ [(eventName, f)])%list = cbs.
Proof.
  induction cbs as [| [e g] cbs IH]; cbn; intros Hfresh.
  - by rewrite decide_True.
  - rewrite decide_False.
    + f_equal. apply IH. intros Hin. apply Hfresh. by right.
    + intros [-> ->]. apply Hfresh. by left.
Qed.

Lemma remove_first_other (eventName e : string) (f g : UseSocket.fn)
    (cbs : list (string * UseSocket.fn)) :
  (e, g) ∈ cbs -> g <> f -> (e, g) ∈ UseSocket.remove_first eventName f cbs.
Proof.
  intros Hin Hne. induction cbs as [| [e' f'] cbs IH]; cbn; [by inversion Hin |].
  apply elem_of_cons in Hin as [Heq | Hin].
  - injection Heq as <- <-. rewrite decide_False by (intros [_ ?]; congruence). by left.
  - destruct (decide (e' = eventName /\ f' = f)); [exact Hin |]. right. by apply IH.
Qed.

Lemma listeners_attached (e : string) (g : UseSocket.fn) (socket : UseSocket.Socket) :
  g ∈ UseSocket.listeners e socket <-> (e, g) ∈ UseSocket.callbacks socket.
Proof.
  unfold UseSocket.listeners. rewrite list_elem_of_fmap. split.
  - intros ([e' g'] & -> & Hin). apply list_elem_of_filter in Hin as [He Hin].
    apply bool_decide_unpack in He. cbn in He. by subst e'.
  - intros Hin. exists (e, g). split; [reflexivity |].
    apply list_elem_of_filter. split; [by apply bool_decide_pack | exact Hin].
Qed.

(** X23.  Subscribing and unsubscribing is a round trip: when the event
    is not followed yet and the handler is not attached, the closure [on]
    returns, as well as [off] with the same handler, puts the hook back
    exactly as it was. *)
Theorem subscribe_then_unsubscribe_restores (eventName : string) (handler : UseSocket.fn)
    (h : UseSocket.Hook) (socket : UseSocket.Socket) :
  UseSocket.socketRef h = Some socket ->
  UseSocket.listenersRef h !! eventName = None ->
  (eventName, handler) ∉ UseSocket.callbacks socket ->
  UseSocket.call (snd (UseSocket.on eventName handler h))
                 (fst (UseSocket.on eventName handler h)) = h /\
  UseSocket.off eventName (Some handler) (fst (UseSocket.on eventName handler h)) = h.
Proof.
  intros Href Hnone Hfresh.
  destruct h as [ic cs lu er cc sr lr]. cbn in Href, Hnone. subst sr.
  destruct socket as [c cbs]. cbn in Hfresh.
  unfold UseSocket.on, UseSocket.call, UseSocket.off. cbn. rewrite Hnone. cbn.
  rewrite lookup_insert_eq, decide_True by done.
  unfold UseSocket.with_listeners, UseSocket.with_socket. cbn.
  rewrite remove_first_fresh by done.
  rewrite delete_insert_id by done. done.
Qed.

Lemma subscribe_then_unsubscribe_restores_witness :
  UseSocket.call (snd (UseSocket.on "location-update" (UseSocket.Handler 1) UseSocket.mounted))
                 (fst (UseSocket.on "location-update" (UseSocket.Handler 1) UseSocket.mounted))
  = UseSocket.mounted.
Proof.
  refine (proj1 (subscribe_then_unsubscribe_restores "location-update" (UseSocket.Handler 1)
                   UseSocket.mounted UseSocket.fresh_socket _ _ _)).
  - reflexivity.
  - reflexivity.
  - vm_compute. intros Hin. repeat (apply elem_of_cons in Hin as [Hin | Hin]; [discriminate |]).
    by inversion Hin.
Defined.

(** X24.  [off] with a handler that has been superseded is harmless: the
    handler that replaced it stays tracked and stays attached. *)
Theorem off_spares_the_live_handler (eventName : string) (f g : UseSocket.fn)
    (h : UseSocket.Hook) :
  f <> g -> UseSocket.socketRef h <> None ->
  let live := fst (UseSocket.on eventName g (fst (UseSocket.on eventName f h))) in
  let after := UseSocket.off eventName (Some f) live in
  UseSocket.listenersRef after = UseSocket.listenersRef live /\
  UseSocket.listenersRef after !! eventName = Some g /\
  g ∈ UseSocket.listeners eventName (socket_of after).
Proof.
  intros Hne Href. destruct h as [ic cs lu er cc sr lr]. cbn in Href.
  destruct sr as [socket |]; [| done]. cbv zeta.
  unfold UseSocket.on, UseSocket.off, socket_of.
  cbn [UseSocket.socketRef UseSocket.listenersRef UseSocket.with_socket
       UseSocket.with_listeners fst snd].
  rewrite !lookup_insert_eq, decide_False by congruence.
  cbn [UseSocket.socketRef UseSocket.listenersRef UseSocket.with_socket
       UseSocket.with_listeners fst snd].
  split; [reflexivity |]. split; [apply lookup_insert_eq |].
  apply listeners_attached.
  cbn [UseSocket.socket_off UseSocket.socket_on UseSocket.callbacks].
  apply remove_first_other; [| congruence].
  apply elem_of_app. right. by left.
Qed.

Lemma off_spares_the_live_handler_witness :
  UseSocket.Handler 2 ∈
    UseSocket.listeners "location-update"
      (socket_of
         (UseSocket.off "location-update" (Some (UseSocket.Handler 1))
            (fst (UseSocket.on "location-update" (UseSocket.Handler 2)
                    (fst (UseSocket.on "location-update" (UseSocket.Handler 1)
                            UseSocket.mounted)))))).
Proof.
  refine (proj2 (proj2 (off_spares_the_live_handler "location-update"
                          (UseSocket.Handler 1) (UseSocket.Handler 2) UseSocket.mounted _ _)));
    discriminate.
Defined.

(** [cleanupListeners] detaches consumer handlers only. *)
Lemma cleanup_fold_connected (l : list (string * UseSocket.fn)) (socket : UseSocket.Socket) :
  UseSocket.connected
    (fold_left (fun s cb => UseSocket.socket_off (fst cb) (Some (snd cb)) s) l socket) =
  UseSocket.connected socket.
Proof.
  revert socket. induction l as [| cb l IH]; intros socket; cbn; [reflexivity |].
  by rewrite IH.
Qed.

Lemma cleanup_fold_own (l : list (string * UseSocket.fn)) (socket : UseSocket.Socket) :
  (forall cb, cb ∈ l -> exists ref, snd cb = UseSocket.Handler ref) ->
  (forall cb, cb ∈ UseSocket.own_callbacks -> cb ∈ UseSocket.callbacks socket) ->
  forall cb, cb ∈ UseSocket.own_callbacks ->
    cb ∈ UseSocket.callbacks
           (fold_left (fun s cb => UseSocket.socket_off (fst cb) (Some (snd cb)) s) l socket).
Proof.
  revert socket. induction l as [| [e f] l IH]; intros socket Hl Hown; cbn; [exact Hown |].
  apply IH.
  - intros cb Hcb. apply Hl. by right.
  - intros [e' g] Hcb. cbn.
    destruct (Hl (e, f)) as [ref Hf]; [by left |]. cbn in Hf. subst f.
    apply remove_first_other; [by apply Hown |].
    unfold UseSocket.own_callbacks in Hcb. apply list_elem_of_fmap in Hcb as (x & [= -> ->] & _).
    discriminate.
Qed.

Lemma cleanupListeners_wired (h : UseSocket.Hook) :
  wired h -> consumer_handlers h ->
  wired (UseSocket.cleanupListeners h) /\
  UseSocket.listenersRef (UseSocket.cleanupListeners h) = ∅ /\
  UseSocket.connected (socket_of (UseSocket.cleanupListeners h)) =
    UseSocket.connected (socket_of h).
Proof.
  intros (socket & Href & Hown) Hconsumer.
  unfold UseSocket.cleanupListeners, socket_of. rewrite Href. cbn.
  split; [| split; [reflexivity | apply cleanup_fold_connected]].
  eexists. split; [reflexivity |].
  apply cleanup_fold_own; [| exact Hown].
  intros [e f] Hcb. apply elem_of_map_to_list in Hcb. cbn. by apply (Hconsumer e).
Qed.

(** X25.  [disconnect()] silences the hook: it closes the socket once
    and never asks it to connect again, forgets every consumer handler,
    and leaves a socket through which [emit] sends nothing; its own
    listeners stay, and when the socket was connected they record the
    disconnection at once. *)
Theorem disconnect_silences_the_hook (now : Z) (h : UseSocket.Hook) :
  wired h -> consumer_handlers h ->
  let after := fst (UseSocket.disconnect now h) in
  snd (UseSocket.disconnect now h) = [UseSocket.DisconnectCalled] /\
  UseSocket.listenersRef after = ∅ /\
  wired after /\
  (forall eventName data,
      UseSocket.emit eventName data after =
      (false, [UseSocket.Warned ("Socket no conectado, no se puede emitir: " ++ eventName)])) /\
  (UseSocket.connected (socket_of h) = true ->
   UseSocket.isConnected after = false /\
   UseSocket.connectionStatus after = "disconnected" /\
   UseSocket.lastUpdate after = Some now).
Proof.
  intros Hw Hconsumer.
  destruct (cleanupListeners_wired h Hw Hconsumer) as (Hw' & Hempty & Hconn).
  destruct Hw as (socket & Href & Hown).
  cbv zeta. unfold UseSocket.disconnect. rewrite Href.
  set (h1 := UseSocket.cleanupListeners h) in *.
  destruct Hw' as (socket1 & Href1 & Hown1).
  assert (wired h1) as Hw1 by (by exists socket1).
  unfold socket_of in Hconn. rewrite Href, Href1 in Hconn.
  unfold UseSocket.socket_disconnect. rewrite Href1.
  destruct (UseSocket.connected socket1) eqn:Hc1.
  - rewrite (UseSocketFacts.deliver_wired now _ h1 Hw1).
    unfold socket_of. rewrite Href1. cbn.
    split; [reflexivity |]. split; [exact Hempty |]. split; [| split].
    + eexists. split; [reflexivity |]. exact Hown1.
    + intros eventName data. reflexivity.
    + intros _. done.
  - cbn. split; [reflexivity |]. split; [exact Hempty |]. split; [exact Hw1 | split].
    + intros eventName data. unfold UseSocket.emit. by rewrite Href1, Hc1.
    + unfold socket_of. rewrite Href. intros Hc. congruence.
Qed.

Lemma following_wired : wired following.
Proof.
  eexists. split; [reflexivity |]. intros cb Hcb. cbn.
  apply elem_of_app. left. exact Hcb.
Qed.

Lemma following_consumer_handlers : consumer_handlers following.
Proof.
  intros e f Hf. unfold following in Hf.
  rewrite (UseSocketFacts.deliver_wired 5 _ _ UseSocketFacts.mounted_wired) in Hf.
  cbn in Hf. apply lookup_insert_Some in Hf as [[_ <-] | [_ Hf]].
  - by exists 1%nat.
  - by rewrite lookup_empty in Hf.
Qed.

Lemma disconnect_silences_the_hook_witness :
  snd (UseSocket.disconnect 9 following) = [UseSocket.DisconnectCalled] /\
  UseSocket.listenersRef (fst (UseSocket.disconnect 9 following)) = ∅.
Proof.
  pose proof (disconnect_silences_the_hook 9 following following_wired
                following_consumer_handlers) as (Hout & Hempty & _).
  split; [exact Hout | exact Hempty].
Defined.

(** ** Who may call the API *)

(** X26.  The HTTP policy refuses an origin only in production, only
    when the origin is given and not listed, and never without a
    warning that names it; the three local origins are admitted in every
    environment, production included. *)
Theorem cors_refuses_only_unlisted_origins_in_production (env : Cors.Env) (o : option string) :
  (snd (Cors.origin env o) = Cors.Allow <->
   Cors.present o = false \/ Cors.NODE_ENV env <> Some "production" \/
   exists s, o = Some s /\ s ∈ Cors.allowedOrigins env) /\
  (snd (Cors.origin env o) = Cors.Allow -> fst (Cors.origin env o) = []) /\
  (forall e, snd (Cors.origin env o) = Cors.Deny e ->
     exists s, o = Some s /\
       Cors.origin env o =
         ([Console WarnLevel ("Origin bloqueado por CORS: " ++ s)],
          Cors.Deny (Error "No permitido por política CORS"))) /\
  (forall s, s ∈ ["http://localhost:3000"; "http://localhost:3001"; "http://127.0.0.1:3001"] ->
     Cors.origin env (Some s) = ([], Cors.Allow)).
Proof.
  split; [| split; [| split]].
  - unfold Cors.origin, Cors.isDevelopment.
    destruct (Cors.present o) eqn:Hp; cbn [negb]; [| by split; [left |]].
    destruct (decide (Cors.NODE_ENV env = Some "production")) as [Hprod | Hdev].
    + rewrite (bool_decide_true _ Hprod). cbn [negb].
      destruct o as [s |]; [| discriminate]. cbn [default].
      destruct (decide (s ∈ Cors.allowedOrigins env)) as [Hin | Hout].
      * rewrite (bool_decide_true _ Hin). cbn. split; [| done].
        intros _. right. right. by exists s.
      * rewrite (bool_decide_false _ Hout). cbn. split; [discriminate |].
        intros [? | [? | (s' & [= <-] & ?)]]; done.
    + rewrite (bool_decide_false _ Hdev). cbn. split; [| done]. intros _. right. by left.
  - unfold Cors.origin.
    destruct (negb (Cors.present o)); [done |].
    destruct (Cors.isDevelopment env); [done |].
    destruct (bool_decide _); [done | discriminate].
  - intros e. unfold Cors.origin.
    destruct (Cors.present o) eqn:Hp; cbn [negb]; [| discriminate].
    destruct (Cors.isDevelopment env); [discriminate |].
    destruct (bool_decide _); [discriminate |].
    destruct o as [s |]; [| discriminate]. intros _. by exists s.
  - intros s Hs. unfold Cors.origin.
    assert (Cors.present (Some s) = true) as ->.
    { repeat (apply elem_of_cons in Hs as [-> | Hs]; [reflexivity |]). by inversion Hs. }
    cbn [negb]. destruct (Cors.isDevelopment env); [reflexivity |].
    rewrite bool_decide_true; [reflexivity |].
    cbn [default]. unfold Cors.allowedOrigins. apply elem_of_app. left. by right.
Qed.

(** X27.  The two policies agree where it matters: when the Socket.IO
    policy is the wildcard, the HTTP policy admits every origin; when it
    is a list (which happens in production only), every origin on it is
    admitted over HTTP as well. *)
Theorem socket_origins_are_admitted_over_http (env : Cors.Env) :
  match Cors.getSocketCorsOptions env with
  | Cors.AnyOrigin => forall o, Cors.origin env o = ([], Cors.Allow)
  | Cors.Origins listed =>
      Cors.NODE_ENV env = Some "production" /\
      forall o, o ∈ listed -> Cors.origin env (Some o) = ([], Cors.Allow)
  end.
Proof.
  unfold Cors.getSocketCorsOptions, Cors.origin.
  destruct (Cors.isDevelopment env) eqn:Hdev.
  - intros o. by destruct (negb (Cors.present o)).
  - split.
    + unfold Cors.isDevelopment in Hdev. apply negb_false_iff in Hdev.
      by apply bool_decide_eq_true in Hdev.
    + intros o Ho. destruct (negb (Cors.present (Some o))); [reflexivity |].
      rewrite bool_decide_true; [reflexivity |].
      cbn [default]. unfold Cors.allowedOrigins. rewrite Hdev. cbn [negb andb].
      apply elem_of_app in Ho as [Ho | Ho].
      * apply list_elem_of_singleton in Ho. subst o. apply elem_of_app. left. by left.
      * apply elem_of_app. by right.
Qed.

(** ** The page *)

Section TrackerFacts.

Variable parseFloat : value -> option Q.
Variable parseInt : value -> option Z.
Variable toLocaleString : option Z -> string.
Variable runtime_message : exn -> string.

Import LocationTracker.

Lemma toLocation_returns (d : value) :
  truthy d = true ->
  toLocation parseFloat parseInt toLocaleString d =
    ([], Returns {| loc_id := field d "id";
                    loc_latitude := parseFloat (field d "latitude");
                    loc_longitude := parseFloat (field d "longitude");
                    loc_timestamp := parseInt (field d "timestamp_value");
                    formattedDate := toLocaleString (parseInt (field d "timestamp_value")) |}).
Proof. destruct d; try discriminate; reflexivity. Qed.

Lemma handle_carrying (now : Z) (data : value) (t : Tracker) :
  carries_data (now, data) = true ->
  exists out location,
    handleLocationUpdate parseFloat parseInt toLocaleString now data t =
      (out, Returns {| latestLocation := Some location;
                       loading := loading t;
                       error := None;
                       stats := {| totalReceived := totalReceived (stats t) + 1;
                                   lastUpdateTime := Some now |} |}).
Proof.
  unfold carries_data, handleLocationUpdate. cbn [snd].
  destruct (get data "data") as [d | e]; [| discriminate]. intros Hd.
  cbn [console tell lift bind]. rewrite Hd, (toLocation_returns d Hd). cbn.
  eexists _, _. reflexivity.
Qed.

Lemma handle_not_carrying (now : Z) (data : value) (t : Tracker) :
  carries_data (now, data) = false ->
  (exists out,
      handleLocationUpdate parseFloat parseInt toLocaleString now data t = (out, Returns t)) \/
  (exists out e,
      handleLocationUpdate parseFloat parseInt toLocaleString now data t = (out, Throws e)).
Proof.
  unfold carries_data, handleLocationUpdate. cbn [snd].
  destruct (get data "data") as [d | e]; cbn [console tell lift bind].
  - intros ->. left. eexists. reflexivity.
  - intros _. right. eexists _, _. reflexivity.
Qed.

(** X28.  The page counts what it shows: after any sequence of
    [location-update] packets [totalReceived] has grown by the number of
    packets that carried a record; packets without one (or not even an
    object) change nothing, and the first that carries one clears the
    error for good. *)
Theorem updates_are_counted (packets : list (Z * value)) (t : Tracker) :
  let t' := receive parseFloat parseInt toLocaleString packets t in
  totalReceived (stats t') =
    totalReceived (stats t) + Z.of_nat (length (List.filter carries_data packets)) /\
  loading t' = loading t /\
  (List.filter carries_data packets = [] -> t' = t) /\
  (List.filter carries_data packets <> [] ->
   error t' = None /\ is_Some (latestLocation t') /\
   exists now data, last (List.filter carries_data packets) = Some (now, data) /\
                    lastUpdateTime (stats t') = Some now).
Proof.
  cbv zeta. revert t. induction packets as [| [now data] packets IH]; intros t.
  - cbn. split; [lia |]. split; [reflexivity |]. split; [reflexivity | done].
  - cbn [receive List.filter].
    destruct (carries_data (now, data)) eqn:Hc.
    + destruct (handle_carrying now data t Hc) as (out & location & ->).
      match goal with |- context [receive _ _ _ packets ?s] => set (t1 := s) end.
      destruct (IH t1) as (Hcount & Hload & Hnone & Hsome).
      cbn [length]. split; [rewrite Hcount; cbn; lia |].
      split; [rewrite Hload; reflexivity |]. split; [discriminate |].
      intros _. destruct (List.filter carries_data packets) as [| p rest] eqn:Hf.
      * rewrite (Hnone eq_refl). cbn. split; [reflexivity |]. split; [by eexists |].
        by exists now, data.
      * destruct Hsome as (He & Hl & now' & data' & Hlast & Htime); [discriminate |].
        split; [exact He |]. split; [exact Hl |]. exists now', data'.
        split; [| exact Htime]. by rewrite last_cons, Hlast.
    + destruct (handle_not_carrying now data t Hc) as [(out & ->) | (out & e & ->)];
        exact (IH t).
Qed.

(** X29.  A refresh always ends the loading state.  An answer 404 is not
    an error: it clears the error and leaves the record and the counters
    alone.  Any other failure, of the transport or of the server, leaves
    them alone too and reports itself. *)
Theorem refresh_ends_loading_and_404_is_no_error (now : Z) (f : fetched) (t : Tracker) :
  let t' := snd (fetchInitialData parseFloat parseInt toLocaleString runtime_message now f t) in
  loading t' = false /\
  (forall statusText json, f = Responded 404 statusText json ->
     error t' = None /\ latestLocation t' = latestLocation t /\ stats t' = stats t) /\
  (forall status statusText json,
     f = Responded status statusText json -> ok status = false -> status <> 404 ->
     error t' = Some ("Error de conexión: HTTP " ++ pretty status ++ ": " ++ statusText) /\
     latestLocation t' = latestLocation t /\ stats t' = stats t) /\
  (forall e, f = FetchRejected e ->
     error t' = Some ("Error de conexión: " ++ message runtime_message e) /\
     latestLocation t' = latestLocation t /\ stats t' = stats t) /\
  (error t' <> None -> latestLocation t' = latestLocation t /\ stats t' = stats t).
Proof.
  cbv zeta. unfold fetchInitialData, fetchInitialData_begin, fetchInitialData_settled.
  split; [| split; [| split; [| split]]].
  - destruct (fetchInitialData_try _ _ _ _ _ _) as [out [t' | e]]; reflexivity.
  - intros statusText json ->. cbn. done.
  - intros status statusText json -> Hok Hne. cbn. rewrite Hok. cbn [negb].
    destruct (Z.eqb_spec status 404) as [? | _]; [done |]. cbn. done.
  - intros e ->. cbn. done.
  - destruct f as [e | status statusText json]; [done |].
    unfold fetchInitialData_try.
    destruct (ok status); cbn [negb].
    + destruct json as [data | e]; cbn [lift bind]; [| done].
      destruct (get data "success") as [s | e]; cbn [lift bind]; [| done].
      destruct (truthy s); [| cbn; done].
      destruct (get data "data") as [d | e]; cbn [lift bind]; [| done].
      destruct (truthy d) eqn:Hd; [| cbn; done].
      rewrite (toLocation_returns d Hd). cbn. done.
    + destruct (status =? 404)%Z; cbn; done.
Qed.

(** X30.  A successful refresh shows the record it fetched and restarts
    the count: [totalReceived] is 1 afterwards, however many updates had
    been received before. *)
Theorem refresh_restarts_the_count (now status : Z) (statusText : string)
    (data d success : value) (t : Tracker) :
  ok status = true ->
  get data "success" = Returns success -> truthy success = true ->
  get data "data" = Returns d -> truthy d = true ->
  exists out location,
    fetchInitialData parseFloat parseInt toLocaleString runtime_message now
      (Responded status statusText (Returns data)) t =
      (out, {| latestLocation := Some location;
               loading := false;
               error := None;
               stats := {| totalReceived := 1; lastUpdateTime := Some now |} |}) /\
    loc_id location = field d "id" /\
    loc_timestamp location = parseInt (field d "timestamp_value") /\
    view (snd (fetchInitialData parseFloat parseInt toLocaleString runtime_message now
                 (Responded status statusText (Returns data)) t)) =
      LocationShown location.
Proof.
  intros Hok Hs Hst Hd Hdt.
  unfold fetchInitialData, fetchInitialData_begin, fetchInitialData_settled,
    fetchInitialData_try.
  rewrite Hok. cbn [negb lift bind]. rewrite Hs. cbn [lift bind]. rewrite Hst, Hd.
  cbn [lift bind]. rewrite Hdt, (toLocation_returns d Hdt). cbn.
  eexists _, _. split; [reflexivity |]. done.
Qed.

End TrackerFacts.

Lemma refresh_restarts_the_count_witness :
  exists out location,
    LocationTracker.fetchInitialData (fun _ => None) (fun _ => None) (fun _ => "Invalid Date")
      (fun _ => "Failed to fetch") 99 (LocationTracker.Responded 200 "OK" (Returns latest_answer))
      LocationTracker.initial =
      (out, {| LocationTracker.latestLocation := Some location;
               LocationTracker.loading := false;
               LocationTracker.error := None;
               LocationTracker.stats :=
                 {| LocationTracker.totalReceived := 1;
                    LocationTracker.lastUpdateTime := Some 99 |} |}) /\
    LocationTracker.loc_id location = VNum 7.
Proof.
  destruct (refresh_restarts_the_count (fun _ => None) (fun _ => None)
              (fun _ => "Invalid Date") (fun _ => "Failed to fetch")
              99 200 "OK" latest_answer
              (VObj [("id", VNum 7);
                     ("latitude", VStr "37.4219983");
                     ("longitude", VStr "-122.084");
                     ("timestamp_value", VStr "1700000000000")])
              (VBool true) LocationTracker.initial)
    as (out & location & Hrefresh & Hid & _); try reflexivity.
  exists out, location. split; [exact Hrefresh | exact Hid].
Defined.
